(** * npx (pnpm fork): command resolution, provisioning and execution hand-off

    A shallow embedding of [index.js].  JavaScript strings are Rocq
    [string]s (one [ascii] per code unit below 256); file contents are byte
    strings; the text a [Buffer] decodes to is a list of UTF-16 code units
    ([N]).  Promise chains are run in program order inside a state-and-error
    monad over an explicit [State]; what the program imports but does not
    define is a [Host] (library functions) or an [Outside] (answers of the
    collaborators). *)

From Stdlib Require Import ZArith NArith List String Ascii Bool Lia.
From stdpp Require Import base option gmap strings list pretty.

Open Scope string_scope.
Open Scope list_scope.

(* ===================================================================== *)
(** ** Text: code units, white space, [Buffer.toString('utf8')]          *)
(* ===================================================================== *)

Module Text.

(** A decoded JavaScript string: UTF-16 code units. *)
Definition text := list N.

(** The regular-expression class [\s]: WhiteSpace and LineTerminator of
    ECMAScript. *)
Definition js_space (c : N) : bool :=
  ((9 <=? c) && (c <=? 13) || (c =? 32) || (c =? 160) || (c =? 5760)
   || (8192 <=? c) && (c <=? 8202) || (c =? 8232) || (c =? 8233)
   || (c =? 8239) || (c =? 8287) || (c =? 12288) || (c =? 65279))%N.

Definition ascii_space (a : ascii) : bool := js_space (N_of_ascii a).

Definition bytes_of (s : string) : list N :=
  map N_of_ascii (list_ascii_of_string s).

(** Code units of a string all of whose characters are ASCII. *)
Definition units_of (s : string) : text := bytes_of s.

(** A multi-byte sequence in progress: code point so far, continuation
    bytes still needed, and the admissible range of the next byte. *)
Record pending := Pending { pcp : N; pneed : nat; plo : N; phi : N }.

Definition utf8_lead (b : N) : text * option pending :=
  (if b <=? 127 then ([b], None)
   else if (194 <=? b) && (b <=? 223)
     then ([], Some (Pending (N.land b 31) 1 128 191))
   else if (224 <=? b) && (b <=? 239)
     then ([], Some (Pending (N.land b 15) 2
                       (if b =? 224 then 160 else 128)
                       (if b =? 237 then 159 else 191)))
   else if (240 <=? b) && (b <=? 244)
     then ([], Some (Pending (N.land b 7) 3
                       (if b =? 240 then 144 else 128)
                       (if b =? 244 then 143 else 191)))
   else ([65533], None))%N.

(** A code point as one code unit or a surrogate pair. *)
Definition utf16_units (cp : N) : text :=
  (if cp <? 65536 then [cp]
   else [55296 + N.shiftr (cp - 65536) 10; 56320 + N.land (cp - 65536) 1023])%N.

Fixpoint utf8_decode (st : option pending) (bs : list N) : text :=
  match bs with
  | [] => match st with None => [] | Some _ => [65533%N] end
  | b :: bs' =>
    match st with
    | None =>
        let '(out, st') := utf8_lead b in out ++ utf8_decode st' bs'
    | Some p =>
        if ((plo p <=? b) && (b <=? phi p))%N then
          let cp := N.lor (N.shiftl (pcp p) 6) (N.land b 63) in
          match pneed p with
          | 1%nat => utf16_units cp ++ utf8_decode None bs'
          | n => utf8_decode (Some (Pending cp (Nat.pred n) 128 191)) bs'
          end
        else
          let '(out, st') := utf8_lead b in
          65533%N :: out ++ utf8_decode st' bs'
    end
  end.

(** [buf.toString('utf8')]: ill-formed input decodes to U+FFFD. *)
Definition Buffer_toString (buf : list N) : text := utf8_decode None buf.

(** [Buffer.alloc(n)] followed by [fs.read(fd, buf, 0, n, 0)]: the first
    [n] bytes of the file, the rest of the buffer left at zero. *)
Definition read_head (n : nat) (content : string) : list N :=
  let bs := take n (bytes_of content) in
  bs ++ replicate (n - length bs) 0%N.

End Text.

(* ===================================================================== *)
(** ** Regular expressions over code units                               *)
(* ===================================================================== *)

Module Re.
Import Text.

Inductive regex : Type :=
| Void : regex
| Eps : regex
| Chr : (N -> bool) -> regex
| Cat : regex -> regex -> regex
| Alt : regex -> regex -> regex
| Star : regex -> regex.

(** The language of an expression. *)
Inductive matches : regex -> text -> Prop :=
| MEps : matches Eps []
| MChr p c : p c = true -> matches (Chr p) [c]
| MCat r1 r2 s1 s2 :
    matches r1 s1 -> matches r2 s2 -> matches (Cat r1 r2) (s1 ++ s2)
| MAltL r1 r2 s : matches r1 s -> matches (Alt r1 r2) s
| MAltR r1 r2 s : matches r2 s -> matches (Alt r1 r2) s
| MStar0 r : matches (Star r) []
| MStarS r s1 s2 :
    matches r s1 -> matches (Star r) s2 -> matches (Star r) (s1 ++ s2).

Fixpoint nullable (r : regex) : bool :=
  match r with
  | Void => false
  | Eps => true
  | Chr _ => false
  | Cat r1 r2 => nullable r1 && nullable r2
  | Alt r1 r2 => nullable r1 || nullable r2
  | Star _ => true
  end.

Fixpoint deriv (c : N) (r : regex) : regex :=
  match r with
  | Void => Void
  | Eps => Void
  | Chr p => if p c then Eps else Void
  | Cat r1 r2 =>
      if nullable r1 then Alt (Cat (deriv c r1) r2) (deriv c r2)
      else Cat (deriv c r1) r2
  | Alt r1 r2 => Alt (deriv c r1) (deriv c r2)
  | Star r1 => Cat (deriv c r1) (Star r1)
  end.

(** Whole-string acceptance by iterated derivatives. *)
Fixpoint accept (r : regex) (s : text) : bool :=
  match s with
  | [] => nullable r
  | c :: s' => accept (deriv c r) s'
  end.

Definition any : regex := Chr (fun _ => true).

(** [str.match(re)] for an expression without anchors, as a truth value:
    some substring of [s] is in the language of [r]. *)
Definition search (r : regex) (s : text) : bool :=
  accept (Cat (Star any) (Cat r (Star any))) s.

(** Literal text, each character compared as under the [i] flag: an ASCII
    letter matches itself in either case, any other character only
    itself. *)
Definition ci_eq (a c : N) : bool :=
  ((c =? a)
   || ((97 <=? a) && (a <=? 122) && (c =? a - 32))
   || ((65 <=? a) && (a <=? 90) && (c =? a + 32)))%N.

Fixpoint lit_ci (l : text) : regex :=
  match l with
  | [] => Eps
  | a :: l' => Cat (Chr (ci_eq a)) (lit_ci l')
  end.

Definition lit (s : string) : regex := lit_ci (units_of s).
Definition spaces : regex := Star (Chr js_space).
Definition opt (r : regex) : regex := Alt r Eps.

End Re.

(* ===================================================================== *)
(** ** JavaScript strings and values                                     *)
(* ===================================================================== *)

Module JsStr.
Import Text.

(** Truthiness of a possibly absent string: [undefined], [null], [false]
    and the empty string are falsy. *)
Definition nonempty (s : string) : bool := negb (String.eqb s "").

Definition truthy (o : option string) : bool :=
  match o with Some s => nonempty s | None => false end.

(** [s.split(/\s+/)]: [cur] is the token being read (reversed), [in_ws]
    says that the previous character belonged to a separator. *)
Fixpoint split_ws_go (in_ws : bool) (cur : list ascii) (l : list ascii)
  : list string :=
  match l with
  | [] => [string_of_list_ascii (rev cur)]
  | a :: l' =>
      if ascii_space a then
        if in_ws then split_ws_go true [] l'
        else string_of_list_ascii (rev cur) :: split_ws_go true [] l'
      else split_ws_go false (a :: cur) l'
  end.

Definition split_ws (s : string) : list string :=
  split_ws_go false [] (list_ascii_of_string s).

(** [s.split(sep)] for a one-character separator. *)
Fixpoint split_on_go (sep : ascii) (cur : list ascii) (l : list ascii)
  : list string :=
  match l with
  | [] => [string_of_list_ascii (rev cur)]
  | a :: l' =>
      if Ascii.eqb a sep
      then string_of_list_ascii (rev cur) :: split_on_go sep [] l'
      else split_on_go sep (a :: cur) l'
  end.

Definition split_on (sep : ascii) (s : string) : list string :=
  split_on_go sep [] (list_ascii_of_string s).

(** [s.trim()]. *)
Fixpoint drop_ws (l : list ascii) : list ascii :=
  match l with
  | a :: l' => if ascii_space a then drop_ws l' else l
  | [] => []
  end.

Definition trim (s : string) : string :=
  string_of_list_ascii
    (rev (drop_ws (rev (drop_ws (list_ascii_of_string s))))).

(** [String(array)]: the elements joined by commas. *)
Definition array_toString (l : list string) : string := String.concat "," l.

Definition LF : string := String (ascii_of_nat 10) "".
Definition CR : string := String (ascii_of_nat 13) "".

End JsStr.

(* ===================================================================== *)
(** ** Errors, outcomes, events                                          *)
(* ===================================================================== *)

(** The fields of an error object that the program reads or writes. *)
Record Error := mkError {
  message : string;
  code : option string;
  exitCode : option Z;
  isOperational : bool
}.

Definition plain_error (msg : string) : Error := mkError msg None None false.
Definition sys_error (c syscall path : string) : Error :=
  mkError (c +:+ ": " +:+ syscall +:+ " '" +:+ path +:+ "'") (Some c) None false.

(** [err.exitCode] as a condition: present and not zero. *)
Definition exit_status (e : Error) : option Z :=
  match exitCode e with
  | Some c => if (c =? 0)%Z then None else Some c
  | None => None
  end.

(** How an asynchronous computation ends: settled with a value, rejected
    with an error, cut short by [process.exit], or never settled. *)
Inductive Res (A : Type) : Type :=
| Ok (a : A)
| Throw (e : Error)
| Exited
| Hung.
Arguments Ok {A} a.
Arguments Throw {A} e.
Arguments Exited {A}.
Arguments Hung {A}.

Inductive NodeArg : Type :=
| NodeArgStr (s : string)
| NodeArgList (l : list string).

(** The parsed command line ([argv], also passed around as [opts]).
    [package] is always an array, [no]/[yes] record [=== true],
    [install] is [Some false] exactly when it [=== false]. *)
Record Argv := mkArgv {
  shell_auto_fallback : option string;
  call : option string;
  command : option string;
  package : list string;
  q : bool;
  no : bool;
  yes : bool;
  packageRequested : bool;
  cache : option string;
  isLocal : bool;
  cmdHadVersion : bool;
  ignoreExisting : bool;
  install : option bool;
  userconfig : option string;
  npm : option string;
  installerStdio : option string;
  alwaysSpawn : bool;
  nodeArg : option NodeArg;
  shell : option string;
  noYargs : bool;
  cmdOpts : option (list string)
}.

Definition with_cmdOpts (a : Argv) (o : list string) : Argv :=
  mkArgv (shell_auto_fallback a) (call a) (command a) (package a) (q a)
    (no a) (yes a) (packageRequested a) (cache a) (isLocal a)
    (cmdHadVersion a) (ignoreExisting a) (install a) (userconfig a) (npm a)
    (installerStdio a) (alwaysSpawn a) (nodeArg a) (shell a) (noYargs a)
    (Some o).

(** The [stdio] option handed to the installer. *)
Inductive Stdio : Type :=
| StdioCustom (s : string)
| StdioDefault (stderr_ignored : bool).

Inductive Event : Type :=
| EMkdir (p : string)
| EOnExit (p : string)
| ERimraf (p : string)
| ERmdir (p : string)
| EWhich (cmd : string)
| ESpawn (cmd : option string) (args : list string) (io : Stdio)
| EExec (cmd : option string) (args : list string)
| ERunCommand (cmd : option string) (opts : Argv)
| EYargsReset
| ERunMain
| EPrompt (msg : string)
| EShowHelp
| ELog (msg : string)
| EError (msg : string).

(** What [fs.stat], [fs.read] and [fs.readdir] see at a path. *)
Inductive Node : Type :=
| File (content : string)
| Dir (entries : list string).

(** The fields of a loaded [package.json] that are read. *)
Inductive JsVal : Type :=
| JUndefined
| JString (s : string)
| JOther.

Record Manifest := mkManifest { bin : JsVal; main : JsVal }.

(** The installer's result: its captured standard output. *)
Record Deets := mkDeets { stdout : string }.

(** The install report, and what [ensurePackages] returns: [added] and
    [updated] hold the lengths of the arrays when they are present. *)
Record Report := mkReport { added : option nat; updated : option nat }.

(** What [JSON.parse] makes of the installer's output: nothing (it
    throws, or yields a falsy value), a truthy primitive (a number, a
    string, [true]), described as the [TypeError] describes it that an
    assignment to a property of it raises in strict mode, or an object. *)
Inductive Parsed : Type :=
| PNothing
| PPrimitive (what : string)
| PObject (r : Report).
Record Info := mkInfo {
  info_added : option nat;
  info_updated : option nat;
  info_prefix : string;
  info_bin : string
}.

(* ===================================================================== *)
(** ** The host: platform, [path], and the helpers the program imports   *)
(* ===================================================================== *)

Inductive Platform : Type := Posix | Win32.

(** Library functions the program calls but does not define.  [path_*] are
    Node's [path] module; [escapeArg] is [child.escapeArg]; [shim_capture]
    is group 1 of [str.trim().match(cmd) || str.trim().match(mingw)] in
    the Windows branch of [findNodeScript]; [command_regexp c] is the test
    [b => b.match(new RegExp(`^${c}(?:\\.cmd)?$`, 'i'))], [None] when the
    constructor rejects the pattern;
    [proto_property k] says whether [k] names a property that every array
    inherits; [JSON_parse_report] is [JSON.parse] on the installer's
    output. *)
Class Host := {
  platform : Platform;
  pid : N;
  path_sep : string;
  path_delimiter : ascii;
  path_join : list string -> string;
  path_resolve : string -> string -> string;
  path_extname : string -> string;
  path_dirname : string -> string;
  escapeArg : string -> bool -> string;
  shim_capture : Text.text -> option string;
  command_regexp : string -> option (string -> bool);
  proto_property : string -> bool;
  JSON_parse_report : string -> Parsed;
  dotenv_parse : string -> list (string * string);
  auto_fallback : string -> option string -> Argv -> option string;
  elapsed_seconds : string
}.

(** What lies outside the process: paths whose removal the system
    refuses, what [require] yields for a path, and how the collaborators
    ([get-prefix.js], [which], [child.exec], [child.spawn],
    [child.runCommand], the prompt) answer. *)
Record Outside := mkOutside {
  sticky : list string;
  manifests : gmap string Manifest;
  get_prefix : Res (option string);
  which_fault : option Error;
  child_exec : option string -> list string -> Res string;
  child_spawn :
    option string -> list string -> Stdio -> gmap string Node ->
    Res Deets * gmap string Node;
  child_runCommand : option string -> Argv -> Res unit;
  prompt_answer : Res bool
}.

(** The state of the process: the file system as seen through [fs],
    [process.env], [process.argv] (head and tail), [process.exitCode], the
    prefixes that registered ['exit'] listeners remove, and the history of
    effects. *)
Record State := mkState {
  fs : gmap string Node;
  env : gmap string string;
  argv0 : string;
  argv_rest : list string;
  exit_code : option Z;
  on_exit : list string;
  trace : list Event
}.

Definition set_fs (f : gmap string Node) (s : State) : State :=
  mkState f (env s) (argv0 s) (argv_rest s) (exit_code s) (on_exit s) (trace s).
Definition set_env (e : gmap string string) (s : State) : State :=
  mkState (fs s) e (argv0 s) (argv_rest s) (exit_code s) (on_exit s) (trace s).
Definition set_argv (a : string) (r : list string) (s : State) : State :=
  mkState (fs s) (env s) a r (exit_code s) (on_exit s) (trace s).
Definition set_exit_code (c : Z) (s : State) : State :=
  mkState (fs s) (env s) (argv0 s) (argv_rest s) (Some c) (on_exit s) (trace s).
Definition add_on_exit (p : string) (s : State) : State :=
  mkState (fs s) (env s) (argv0 s) (argv_rest s) (exit_code s)
    (on_exit s ++ [p]) (trace s).
Definition log (e : Event) (s : State) : State :=
  mkState (fs s) (env s) (argv0 s) (argv_rest s) (exit_code s) (on_exit s)
    (trace s ++ [e]).

(* ===================================================================== *)
(** ** The monad of the program                                          *)
(* ===================================================================== *)

Module Eff.

Definition M (A : Type) : Type := State -> Res A * State.

Definition ret {A} (a : A) : M A := fun s => (Ok a, s).

Definition bind {A B} (m : M A) (k : A -> M B) : M B := fun s =>
  match m s with
  | (Ok a, s') => k a s'
  | (Throw e, s') => (Throw e, s')
  | (Exited, s') => (Exited, s')
  | (Hung, s') => (Hung, s')
  end.

Definition throw {A} (e : Error) : M A := fun s => (Throw e, s).
Definition lift {A} (r : Res A) : M A := fun s => (r, s).
Definition get : M State := fun s => (Ok s, s).
Definition modify (f : State -> State) : M unit := fun s => (Ok tt, f s).
Definition emit (e : Event) : M unit := modify (log e).

(** [try { m } catch (err) { h err }], also [promise.catch(h)]. *)
Definition catch {A} (m : M A) (h : Error -> M A) : M A := fun s =>
  match m s with
  | (Throw e, s') => h e s'
  | other => other
  end.

(** [promise.then(onOk, onErr)]: [onErr] sees only the rejection of
    [promise], not what [onOk] throws. *)
Definition then2 {A B} (m : M A) (onOk : A -> M B) (onErr : Error -> M B)
  : M B := fun s =>
  match m s with
  | (Ok a, s') => onOk a s'
  | (Throw e, s') => onErr e s'
  | (Exited, s') => (Exited, s')
  | (Hung, s') => (Hung, s')
  end.

(** [Promise.all([m1, m2])]: both computations run; the first rejection in
    array order wins. *)
Definition all2 {A B} (m1 : M A) (m2 : M B) : M (A * B) := fun s =>
  match m1 s with
  | (Exited, s1) => (Exited, s1)
  | (r1, s1) =>
      match m2 s1 with
      | (Exited, s2) => (Exited, s2)
      | (r2, s2) =>
          (match r1, r2 with
           | Throw e, _ => Throw e
           | _, Throw e => Throw e
           | Ok a, Ok b => Ok (a, b)
           | _, _ => Hung
           end, s2)
      end
  end.

Definition when (b : bool) (m : M unit) : M unit := if b then m else ret tt.

Definition is_ok {A} (r : Res A) : bool :=
  match r with Ok _ => true | _ => false end.

(** A result that is not a value, at another type. *)
Definition carry {A B} (r : Res A) : Res B :=
  match r with
  | Ok _ => Hung
  | Throw e => Throw e
  | Exited => Exited
  | Hung => Hung
  end.

End Eff.
Import Eff.

Notation "'let*' x ':=' m 'in' k" := (bind m (fun x => k))
  (at level 10, x pattern, m at level 100, k at level 200).
Notation "m ';;;' k" := (bind m (fun _ => k))
  (at level 100, k at level 200, right associativity).

(* ===================================================================== *)
(** ** index.js                                                          *)
(* ===================================================================== *)

(** Promises are run to their end in program order.  [promisify] (from
    [util.js]) is taken to reject with the error its callback receives. *)
Section Program.
Context {H : Host} (out : Outside).
Import Text Re JsStr.

(** *** Messages *)

(** Modelled from the spec: [y.js], the tag [Y()] of the message
    templates, is not among the sources; a message is its template with
    the values filled in. *)
Definition msg_not_found (what : string) : string :=
  "command not found: " +:+ what.
Definition msg_install_failed (specs : list string) (c : Z) : string :=
  "Install for " +:+ array_toString specs +:+ " failed with code " +:+ pretty c.
Definition msg_node_arg : string :=
  "ERROR: --node-arg/-n can only be used on packages with node scripts.".
Definition msg_no_command : string :=
  LF +:+ "ERROR: You must supply a command." +:+ LF.
(** The message of the [TypeError] of [info.prefix = prefix] (line 172)
    for an [info] that is a primitive. *)
Definition msg_no_property (what : string) : string :=
  "Cannot create property 'prefix' on " +:+ what.
Definition msg_installed (n : nat) : string :=
  "npx: installed " +:+ pretty n +:+ " in " +:+ elapsed_seconds +:+ "s".

(** *** The file system, [process] and the collaborators *)

(** [k] is [p] or lies below it. *)
Definition under (p k : string) : bool :=
  String.eqb k p || String.prefix (p +:+ path_sep) k.

Definition refused (p : string) (f : gmap string Node) : bool :=
  existsb (fun k => under p k && bool_decide (is_Some (f !! k))) (sticky out).

Definition remove_tree (p : string) (f : gmap string Node)
  : gmap string Node :=
  filter (fun kv => under p kv.1 = false) f.

Definition fs_stat (p : string) : M Node := fun s =>
  match fs s !! p with
  | Some n => (Ok n, s)
  | None => (Throw (sys_error "ENOENT" "no such file or directory, stat" p), s)
  end.

Definition is_dir (n : Node) : bool :=
  match n with Dir _ => true | File _ => false end.

(** [fs.open], [fs.read] of the first [n] bytes into a fresh buffer,
    [fs.close]. *)
Definition fs_read_head (n : nat) (p : string) : M (list N) := fun s =>
  match fs s !! p with
  | Some (File c) => (Ok (read_head n c), s)
  | Some (Dir _) =>
      (Throw (sys_error "EISDIR" "illegal operation on a directory, read" p), s)
  | None => (Throw (sys_error "ENOENT" "no such file or directory, open" p), s)
  end.

Definition fs_readdir (p : string) : M (list string) := fun s =>
  match fs s !! p with
  | Some (Dir l) => (Ok l, s)
  | Some (File _) => (Throw (sys_error "ENOTDIR" "not a directory, scandir" p), s)
  | None => (Throw (sys_error "ENOENT" "no such file or directory, scandir" p), s)
  end.

(** [fs.mkdirSync(p, { recursive: true })].  The map holds the entry of
    [p] itself; the directories above [p], which the call makes as well
    when they are missing, are not entered. *)
Definition fs_mkdirSync (p : string) : M unit := fun s =>
  let s := log (EMkdir p) s in
  match fs s !! p with
  | Some (File _) => (Throw (sys_error "EEXIST" "file already exists, mkdir" p), s)
  | Some (Dir _) => (Ok tt, s)
  | None => (Ok tt, set_fs (<[p := Dir []]> (fs s)) s)
  end.

(** [fs.rmdirSync(p, { recursive: true, maxRetries: 3 })]. *)
Definition fs_rmdirSync (p : string) : M unit := fun s =>
  let s := log (ERmdir p) s in
  if refused p (fs s)
  then (Throw (sys_error "EACCES" "permission denied, rmdir" p), s)
  else match fs s !! p with
       | None => (Throw (sys_error "ENOENT" "no such file or directory, rmdir" p), s)
       | Some _ => (Ok tt, set_fs (remove_tree p (fs s)) s)
       end.

(** [rimraf(p)]: a missing path is not an error. *)
Definition rimraf (p : string) : M unit := fun s =>
  let s := log (ERimraf p) s in
  if refused p (fs s)
  then (Throw (sys_error "EACCES" "permission denied, rmdir" p), s)
  else (Ok tt, set_fs (remove_tree p (fs s)) s).

(** [process.on('exit', ...)] with the listener of [ensurePackages]. *)
Definition process_on_exit (prefix : string) : M unit := fun s =>
  (Ok tt, add_on_exit prefix (log (EOnExit prefix) s)).

(** The listener itself: [try { fs.rmdirSync(prefix, ...) } catch (err) { }]. *)
Definition exit_listener (prefix : string) : M unit :=
  catch (fs_rmdirSync prefix) (fun _ => ret tt).

(** The listeners run in the order of their registration. *)
Fixpoint run_listeners (l : list string) : M unit :=
  match l with
  | [] => ret tt
  | p :: l' => exit_listener p ;;; run_listeners l'
  end.

(** The ['exit'] event. *)
Definition emit_exit : M unit :=
  let* s := get in run_listeners (on_exit s).

(** [process.exit(c)]. *)
Definition process_exit {A} (c : Z) : M A :=
  modify (set_exit_code c) ;;; emit_exit ;;; lift Exited.

(** [`${process.env.PATH}`]. *)
Definition PATH_text (s : State) : string :=
  default "undefined" (env s !! "PATH").

Definition prepend_PATH (dir : string) : M unit :=
  modify (fun s =>
    set_env (<["PATH" := dir +:+ String path_delimiter "" +:+ PATH_text s]> (env s)) s).

Definition is_file (f : gmap string Node) (p : string) : bool :=
  match f !! p with Some (File _) => true | _ => false end.

Definition has_slash (cmd : string) : bool :=
  existsb (Ascii.eqb "/"%char) (list_ascii_of_string cmd).

(** [which(cmd)]: the first directory of the search path that holds a file
    named [cmd]; a name with a slash is looked up as it is. *)
Definition candidates (cmd : string) (s : State) : list string :=
  if has_slash cmd then [cmd]
  else map (fun d => path_join [d; cmd])
         (split_on path_delimiter (default "" (env s !! "PATH"))).

Definition not_found (cmd : string) : Error :=
  mkError ("not found: " +:+ cmd) (Some "ENOENT") None false.

Definition which (cmd : string) : M string := fun s =>
  let s := log (EWhich cmd) s in
  match which_fault out with
  | Some e => (Throw e, s)
  | None =>
      match List.find (is_file (fs s)) (candidates cmd s) with
      | Some p => (Ok p, s)
      | None => (Throw (not_found cmd), s)
      end
  end.

Definition exec (cmd : option string) (args : list string) : M string :=
  emit (EExec cmd args) ;;; lift (child_exec out cmd args).

Definition spawn (cmd : option string) (args : list string) (io : Stdio)
  : M Deets := fun s =>
  let s := log (ESpawn cmd args io) s in
  let '(r, f) := child_spawn out cmd args io (fs s) in
  (r, set_fs f s).

Definition runCommand (cmd : option string) (opts : Argv) : M unit :=
  emit (ERunCommand cmd opts) ;;; lift (child_runCommand out cmd opts).

(** *** findNodeScript *)

(** [/#!\s*(?:\/usr\/bin\/env\s*node|\/usr\/local\/bin\/node|\/usr\/bin\/node)\s*\r?\n/i] *)
Definition interpreter : regex :=
  Alt (Cat (lit "/usr/bin/env") (Cat spaces (lit "node")))
      (Alt (lit "/usr/local/bin/node") (lit "/usr/bin/node")).

Definition shebang : regex :=
  Cat (lit "#!") (Cat spaces (Cat interpreter
    (Cat spaces (Cat (opt (lit CR)) (lit LF))))).

Definition js_truthy (v : JsVal) : bool :=
  match v with
  | JUndefined => false
  | JString s => nonempty s
  | JOther => true
  end.

Definition js_or (a b : JsVal) : JsVal := if js_truthy a then a else b.

(** The part of the directory branch that the [try] block guards:
    [require] of the manifest and [path.resolve] of its entry, which throws
    on anything but a string. *)
Definition manifest_target (existing : string) : option string :=
  match manifests out !! path_resolve existing "package.json" with
  | None => None
  | Some pkg =>
      match js_or (bin pkg) (js_or (main pkg) (JString "index.js")) with
      | JString t => Some (path_resolve existing t)
      | _ => None
      end
  end.

Definition script_ext (ext : string) : bool :=
  String.eqb ext ".js" || String.eqb ext ".cjs".

Fixpoint findNodeScript (fuel : nat) (existing : option string)
    (local : bool) : M (option string) :=
  match existing with
  | None => ret None
  | Some e =>
    if negb (nonempty e) then ret None else
    match fuel with
    | O => lift Hung
    | S fuel' =>
      let* stat := fs_stat e in
      if local && script_ext (path_extname e) then ret (Some e)
      else if local && is_dir stat then
        match manifest_target e with
        | Some target =>
            let* script := findNodeScript fuel' (Some target) local in
            if truthy script then ret script
            else throw (plain_error (msg_not_found target))
        | None => throw (plain_error (msg_not_found e))
        end
      else
        match platform with
        | Posix =>
            let* buf := fs_read_head 400 e in
            ret (if search shebang (Buffer_toString buf) then Some e else None)
        | Win32 =>
            let* buf := fs_read_head 1000 e in
            ret (match shim_capture (Buffer_toString buf) with
                 | Some m => Some (path_join [path_dirname e; m])
                 | None => None
                 end)
        end
    end
  end.

(** *** getExistingPath *)

Definition with_exitCode (e : Error) (c : Z) : Error :=
  mkError (message e) (code e) (Some c) (isOperational e).
Definition with_message (e : Error) (m : string) : Error :=
  mkError m (code e) (exitCode e) (isOperational e).

Definition is_ENOENT (e : Error) : bool :=
  match code e with Some c => String.eqb c "ENOENT" | None => false end.

Definition install_disabled (opts : Argv) : bool :=
  match install opts with Some false => true | _ => false end.

Definition getExistingPath (command : string) (opts : Argv)
  : M (option string) :=
  if isLocal opts then ret (Some command)
  else if cmdHadVersion opts || packageRequested opts || ignoreExisting opts
  then ret None
  else
    catch (let* p := which command in ret (Some p))
      (fun err =>
         if is_ENOENT err then
           if install_disabled opts then throw (with_exitCode err 127)
           else ret None
         else throw err).

(** *** getNpmCache, getEnv *)

(** The shared middle of [getNpmCache], [getEnv] and [installPackages]:
    when [opts.npm] is itself a node script, run it with the current node
    binary. *)
Definition npm_text (opts : Argv) : string := default "undefined" (npm opts).

Definition getNpmCache (fuel : nat) (opts : Argv) : M string :=
  let args :=
    ["config"; "get"; "cache"; "--parseable"]
    ++ match userconfig opts with
       | Some u => if nonempty u then ["--userconfig"; escapeArg u true] else []
       | None => []
       end in
  let* npmPath := findNodeScript fuel (npm opts) true in
  let* s := get in
  let* cache :=
    if truthy npmPath
    then exec (Some (argv0 s)) (escapeArg (npm_text opts) false :: args)
    else exec (npm opts) args in
  ret (trim cache).

Definition getEnv (fuel : nat) (opts : Argv) : M (list (string * string)) :=
  let args := ["run"; "env"; "--parseable"] in
  let* npmPath := findNodeScript fuel (npm opts) true in
  let* s := get in
  let* text :=
    if truthy npmPath
    then exec (Some (argv0 s)) (escapeArg (npm_text opts) false :: args)
    else exec (npm opts) args in
  ret (dotenv_parse text).

(** *** buildArgs, installPackages *)

Definition buildArgs (specs : list string) (prefix : string) (opts : Argv)
  : list string :=
  ("install" :: specs) ++ ["--global"; "--dir"; prefix]
  ++ match userconfig opts with
     | Some u => if nonempty u then ["--userconfig"; u] else []
     | None => []
     end.

Definition install_stdio (opts : Argv) : Stdio :=
  match installerStdio opts with
  | Some io => if nonempty io then StdioCustom io else StdioDefault (q opts)
  | None => StdioDefault (q opts)
  end.

Definition installPackages (fuel : nat) (specs : list string)
    (prefix : string) (opts : Argv) : M Parsed :=
  let args := buildArgs specs prefix opts in
  let* npmPath := findNodeScript fuel (npm opts) true in
  let* s := get in
  let '(cmd, args) :=
    if truthy npmPath
    then (Some (argv0 s),
          match platform with
          | Win32 => escapeArg (npm_text opts) false
          | Posix => npm_text opts
          end :: args)
    else (npm opts, args) in
  let cmd :=
    match platform with
    | Win32 => option_map (fun p => escapeArg p true) cmd
    | Posix => cmd
    end in
  then2 (spawn cmd args (install_stdio opts))
    (fun deets =>
       ret (if nonempty (stdout deets)
            then JSON_parse_report (stdout deets) else PNothing))
    (fun err =>
       throw (match exit_status err with
              | Some c => with_message err (msg_install_failed specs c)
              | None => err
              end)).

(** *** ensurePackages *)

Definition prefix_of_cache (cache : string) : string :=
  path_join [cache; "_npx"; pretty pid].

Definition bins_of_prefix (prefix : string) : string :=
  match platform with
  | Win32 => prefix
  | Posix => path_join [prefix; "bin"]
  end.

Definition ensurePackages (fuel : nat) (specs : list string) (opts : Argv)
  : M Info :=
  let* cache :=
    match cache opts with
    | Some c => if nonempty c then ret c else getNpmCache fuel opts
    | None => getNpmCache fuel opts
    end in
  let prefix := prefix_of_cache cache in
  let bins := bins_of_prefix prefix in
  fs_mkdirSync prefix ;;;
  process_on_exit prefix ;;;
  rimraf bins ;;;
  let* info := installPackages fuel specs prefix opts in
  prepend_PATH bins ;;;
  match info with
  | PObject r => ret (mkInfo (added r) (updated r) prefix bins)
  | PNothing => ret (mkInfo None None prefix bins)
  | PPrimitive what => throw (plain_error (msg_no_property what))
  end.

(** *** execCommand *)

Definition nodeArg_truthy (a : option NodeArg) : bool :=
  match a with
  | Some (NodeArgStr s) => nonempty s
  | Some (NodeArgList _) => true
  | None => false
  end.

(** [argv.nodeArg && argv.nodeArg.length] *)
Definition nodeArg_length_truthy (a : option NodeArg) : bool :=
  match a with
  | Some (NodeArgStr s) => nonempty s
  | Some (NodeArgList l) => negb (Nat.eqb (length l) 0)
  | None => false
  end.

(** [Array.isArray(cmdOpts) ? cmdOpts : [cmdOpts]], or [[]] when falsy. *)
Definition nodeArg_array (a : option NodeArg) : list string :=
  match a with
  | Some (NodeArgStr s) => if nonempty s then [s] else []
  | Some (NodeArgList l) => l
  | None => []
  end.

(** [cmdOpts.reduce((acc, arg) => acc.concat(arg.split(/\s+/)), [])] *)
Definition split_nodeArgs (l : list string) : list string :=
  fold_left (fun acc arg => acc ++ split_ws arg) l [].

(** [existing !== process.argv[1]], read where [existing] is a string. *)
Definition differs_from_argv1 (existing : option string) (s : State) : bool :=
  negb (bool_decide (existing = argv_rest s !! 0%nat)).

(** [process.argv[0]], escaped for the shell on Windows. *)
Definition node_binary (s : State) : string :=
  match platform with
  | Win32 => escapeArg (argv0 s) true
  | Posix => argv0 s
  end.

(** Lines 284-306: the command of the child and its arguments. *)
Definition child_command (existing : option string) (argv : Argv) (s : State)
  : option string * list string :=
  let argvCmdOpts := default [] (cmdOpts argv) in
  if truthy existing
  then (Some (node_binary s),
        split_nodeArgs (nodeArg_array (nodeArg argv))
        ++ default "" existing :: argvCmdOpts)
  else (existing, argvCmdOpts).

Definition execCommand (fuel : nat) (_existing : option string) (argv : Argv)
  : M unit :=
  let* existing := findNodeScript fuel _existing (isLocal argv) in
  let argvCmdOpts := default [] (cmdOpts argv) in
  let* s := get in
  if truthy existing && negb (alwaysSpawn argv)
     && negb (nodeArg_truthy (nodeArg argv)) && negb (truthy (shell argv))
     && differs_from_argv1 existing s
  then
    when (negb (noYargs argv)) (emit EYargsReset) ;;;
    modify (set_argv (argv0 s) (default "" existing :: argvCmdOpts)) ;;;
    emit ERunMain
  else if negb (truthy existing) && nodeArg_length_truthy (nodeArg argv)
  then throw (plain_error msg_node_arg)
  else
    let '(cmd, cmdOpts) := child_command existing argv s in
    catch (runCommand cmd (with_cmdOpts argv cmdOpts))
      (fun err =>
         match isOperational err, exit_status err with
         | true, Some c => modify (set_exit_code c)
         | _, _ => throw err
         end).

(** *** localBinPath

    [get-prefix.js] answers through [get_prefix]. *)
Definition localBinPath : M (option string) :=
  let* prefix := lift (get_prefix out) in
  ret (match prefix with
       | Some p => if nonempty p then Some (path_join [p; "node_modules"; ".bin"])
                   else prefix
       | None => None
       end).

(** *** npx *)

(** [bins[key]] for an array of strings: an element when [key] spells one
    of its indices, a number for ["length"], an inherited property for the
    names every array carries, [undefined] otherwise (and for the key
    [undefined]). *)
Definition array_prop (l : list string) (key : option string) : JsVal :=
  match key with
  | None => JUndefined
  | Some k =>
      match List.find (fun i => String.eqb (pretty i) k) (seq 0 (length l)) with
      | Some i => match l !! i with Some x => JString x | None => JUndefined end
      | None =>
          if String.eqb k "length"
          then (if Nat.eqb (length l) 0 then JUndefined else JOther)
          else if proto_property k then JOther else JUndefined
      end
  end.

Definition win32_keep (b : string) : bool :=
  negb (String.eqb b "etc") && negb (String.eqb b "node_modules").

(** Lines 95-113 of [npx]: the executable of the one package that was just
    installed. *)
Definition select_bin (command : string) (results_bin : string) : M string :=
  let* listing :=
    catch (fs_readdir results_bin)
      (fun err =>
         if is_ENOENT err then throw (plain_error (msg_not_found command))
         else throw err) in
  let bins :=
    match platform with
    | Win32 => List.filter win32_keep listing
    | Posix => listing
    end in
  if Nat.ltb (length bins) 1 then throw (plain_error (msg_not_found command))
  else
    match command_regexp command with
    | None => throw (plain_error "Invalid regular expression")
    | Some test =>
        let matching := List.find test bins in
        match js_or (array_prop bins matching) (array_prop bins (Some "0")) with
        | JString b => ret (path_resolve results_bin b)
        | _ => throw (plain_error "The path argument must be of type string")
        end
    end.

Definition assign_env (l : list (string * string)) (s : State) : State :=
  set_env (fold_left (fun e kv => <[kv.1 := kv.2]> e) l (env s)) s.

Definition msg_prompt (specs : list string) : string :=
  "Install the following package: " +:+ array_toString specs +:+ "?".

(** Lines 66-114 of [npx]: confirm, provision, and pick the executable. *)
Definition provision (fuel : nat) (existing : option string) (argv : Argv)
  : M (option string) :=
  (if no argv
   then emit (ELog (array_toString (package argv) +:+ " is not found")) ;;;
        process_exit 1
   else ret tt) ;;;
  (if negb (yes argv)
   then emit (EPrompt (msg_prompt (package argv))) ;;;
        let* allowInstall := lift (prompt_answer out) in
        if negb allowInstall then emit (ELog "Cancelled") ;;; process_exit 1
        else ret tt
   else ret tt) ;;;
  let* results := ensurePackages fuel (package argv) argv in
  (match info_added results, info_updated results with
   | Some a, Some u => when (negb (q argv)) (emit (EError (msg_installed (a + u))))
   | _, _ => ret tt
   end) ;;;
  if truthy (command argv) && negb (truthy existing)
     && negb (packageRequested argv) && Nat.eqb (length (package argv)) 1
  then
    let* b := select_bin (default "" (command argv)) (info_bin results) in
    ret (Some b)
  else ret existing.

(** Lines 41-45 of [npx]: the local project's binaries go first on the
    search path. *)
Definition use_local_bin : M (option string) :=
  let* local := localBinPath in
  when (truthy local) (prepend_PATH (default "" local)) ;;;
  ret local.

(** Lines 38-116 of [npx]: the body of the [try] block. *)
Definition npx_body (fuel : nat) (argv : Argv) : M unit :=
  let* local := use_local_bin in
  let* args :=
    all2
      (match command argv with
       | Some c => if nonempty c then getExistingPath c argv else ret (command argv)
       | None => ret None
       end)
      (if truthy (call argv) && truthy local
       then let* e := getEnv fuel argv in ret (Some e)
       else ret None) in
  let existing := args.1 in
  let newEnv := args.2 in
  (match newEnv with
   | Some e => modify (assign_env e)
   | None => ret tt
   end) ;;;
  let* existing :=
    if (negb (truthy existing) && negb (truthy (call argv)))
       || packageRequested argv
    then provision fuel existing argv
    else ret existing in
  execCommand fuel existing argv.

Definition npx (fuel : nat) (argv : Argv) : M unit :=
  match shell_auto_fallback argv with
  | Some shell =>
      let* s := get in
      match auto_fallback shell (env s !! "SHELL") argv with
      | Some fallback =>
          if nonempty fallback then emit (ELog fallback)
          else modify (set_exit_code 1)
      | None => modify (set_exit_code 1)
      end
  | None =>
      if negb (truthy (call argv)) && negb (truthy (command argv))
      then
        when (negb (q argv)) (emit (EError msg_no_command)) ;;;
        when (negb (q argv)) (emit EShowHelp) ;;;
        modify (set_exit_code 1)
      else
        catch (npx_body fuel argv)
          (fun err =>
             when (negb (q argv)) (emit (EError (message err))) ;;;
             modify (set_exit_code (default 1%Z (exit_status err))))
  end.

(** One run of the program to the end of the process: [npx(argv)], then
    the ['exit'] event unless [process.exit] already raised it. *)
Definition run (fuel : nat) (argv : Argv) : M unit := fun s =>
  match npx fuel argv s with
  | (Exited, s') => (Exited, s')
  | (Hung, s') => (Hung, s')
  | (_, s') => emit_exit s'
  end.

End Program.

(* ===================================================================== *)
(** ** Vocabulary of the properties                                      *)
(* ===================================================================== *)

(** The effects that happened between two states of one run. *)
Definition events_since (s s' : State) : list Event :=
  drop (length (trace s)) (trace s').

Definition is_spawn (e : Event) : bool :=
  match e with ESpawn _ _ _ => true | _ => false end.

Definition spawn_count (tr : list Event) : nat :=
  length (List.filter is_spawn tr).

Definition is_child (e : Event) : bool :=
  match e with
  | ESpawn _ _ _ | EExec _ _ | ERunCommand _ _ => true
  | _ => false
  end.

Definition with_nodeArg (a : Argv) (n : option NodeArg) : Argv :=
  mkArgv (shell_auto_fallback a) (call a) (command a) (package a) (q a)
    (no a) (yes a) (packageRequested a) (cache a) (isLocal a)
    (cmdHadVersion a) (ignoreExisting a) (install a) (userconfig a) (npm a)
    (installerStdio a) (alwaysSpawn a) n (shell a) (noYargs a) (cmdOpts a).

(** A computation that only adds to the history, and never a run of the
    installer. *)
Definition spawn_free {A} (m : M A) : Prop :=
  forall s r s', m s = (r, s') ->
    exists evs, trace s' = trace s ++ evs /\ spawn_count evs = 0.

(** A computation that runs the installer at most once, and rejects with
    an error of exit status [c] and message [msg] when it does. *)
Definition fails_when_installing {A} (c : Z) (msg : string) (m : M A) : Prop :=
  forall s r s', m s = (r, s') ->
    exists evs, trace s' = trace s ++ evs
      /\ (spawn_count evs = 0
          \/ spawn_count evs = 1
             /\ exists e, r = Throw e /\ exit_status e = Some c /\ message e = msg).

(** A computation that leaves the environment and the exit listeners
    alone. *)
Definition keeps_env {A} (m : M A) : Prop :=
  forall s r s', m s = (r, s') -> env s' = env s /\ on_exit s' = on_exit s.

(** A computation that leaves the state as it found it. *)
Definition pure_read {A} (m : M A) : Prop :=
  forall s r s', m s = (r, s') -> s' = s.

Module Directive.
Import Text Re.

(** [t] spells [l], letters in either case. *)
Definition ci_text (l : string) (t : text) : Prop :=
  Forall2 (fun a c => ci_eq a c = true) (units_of l) t.

Definition blank (t : text) : Prop := Forall (fun c => js_space c = true) t.

Definition names_interpreter (t : text) : Prop :=
  (exists a w b, t = a ++ w ++ b
                 /\ ci_text "/usr/bin/env" a /\ blank w /\ ci_text "node" b)
  \/ ci_text "/usr/local/bin/node" t
  \/ ci_text "/usr/bin/node" t.

(** Somewhere in [t]: [#!], blanks, an interpreter, blanks, an optional
    carriage return, a line feed. *)
Definition holds_directive (t : text) : Prop :=
  exists pre w1 i w2 cr post,
    t = pre ++ units_of "#!" ++ w1 ++ i ++ w2 ++ cr ++ [10%N] ++ post
    /\ blank w1 /\ names_interpreter i /\ blank w2
    /\ (cr = [] \/ cr = [13%N]).

(** The three directives, and the two line endings. *)
Definition accepted_forms : list string :=
  ["#!/usr/bin/env node"; "#!/usr/local/bin/node"; "#!/usr/bin/node"].
Definition line_endings : list string := [JsStr.LF; JsStr.CR +:+ JsStr.LF].

(** The reading under which only the first line counts: what precedes
    the first line feed of [t] is a directive, blanks around it allowed. *)
Fixpoint leading_line (t : text) : option text :=
  match t with
  | [] => None
  | c :: t' =>
      if (c =? 10)%N then Some [] else option_map (cons c) (leading_line t')
  end.

Definition directive_line : regex :=
  Cat spaces (Cat (lit "#!") (Cat spaces (Cat interpreter
    (Cat spaces (opt (lit JsStr.CR)))))).

Definition leading_directive (t : text) : bool :=
  match leading_line t with
  | Some l => accept directive_line l
  | None => false
  end.

End Directive.

(* ===================================================================== *)
(** ** A concrete POSIX host and quiet surroundings                      *)
(* ===================================================================== *)

Module Demo.

Definition lower (a : ascii) : ascii :=
  let n := nat_of_ascii a in
  if Nat.leb 65 n && Nat.leb n 90 then ascii_of_nat (n + 32) else a.

Definition lower_string (s : string) : string :=
  string_of_list_ascii (map lower (list_ascii_of_string s)).

(** The test [new RegExp(`^${c}(?:\\.cmd)?$`, 'i')] performs when [c] has
    no character that is special in a pattern. *)
Definition plain_name_test (c b : string) : bool :=
  String.eqb (lower_string b) (lower_string c)
  || String.eqb (lower_string b) (lower_string c +:+ ".cmd").

(** [path.resolve(a, b)] for paths already in normal form. *)
Definition resolve (a b : string) : string :=
  if String.prefix "/" b then b else a +:+ "/" +:+ b.

Fixpoint ext_rev (l : list ascii) (acc : list ascii) : list ascii :=
  match l with
  | [] => []
  | a :: l' =>
      if Ascii.eqb a "/" then []
      else if Ascii.eqb a "." then
        match l' with
        | [] => []
        | b :: _ => if Ascii.eqb b "/" then [] else a :: acc
        end
      else ext_rev l' (a :: acc)
  end.

Definition extname (p : string) : string :=
  string_of_list_ascii (ext_rev (rev (list_ascii_of_string p)) []).

Fixpoint drop_segment (l : list ascii) : list ascii :=
  match l with
  | [] => []
  | a :: l' => if Ascii.eqb a "/" then l' else drop_segment l'
  end.

Definition dirname (p : string) : string :=
  string_of_list_ascii (rev (drop_segment (rev (list_ascii_of_string p)))).

Definition array_builtins : list string :=
  ["constructor"; "at"; "concat"; "copyWithin"; "fill"; "find"; "findIndex";
   "lastIndexOf"; "pop"; "push"; "reverse"; "shift"; "unshift"; "slice";
   "sort"; "splice"; "includes"; "indexOf"; "join"; "keys"; "entries";
   "values"; "forEach"; "filter"; "flat"; "flatMap"; "map"; "every"; "some";
   "reduce"; "reduceRight"; "toLocaleString"; "toString"; "hasOwnProperty";
   "isPrototypeOf"; "propertyIsEnumerable"; "valueOf"; "__proto__"].

Definition posix : Host := {|
  platform := Posix;
  pid := 7;
  path_sep := "/";
  path_delimiter := ":"%char;
  path_join := String.concat "/";
  path_resolve := resolve;
  path_extname := extname;
  path_dirname := dirname;
  escapeArg := fun a _ => a;
  shim_capture := fun _ => None;
  command_regexp := fun c => Some (plain_name_test c);
  proto_property := fun k => existsb (String.eqb k) array_builtins;
  JSON_parse_report := fun _ => PNothing;
  dotenv_parse := fun _ => [];
  auto_fallback := fun _ _ _ => None;
  elapsed_seconds := "0"
|}.

(** Surroundings in which nothing goes wrong: the given manifests, no
    project prefix, an installer that creates [installed] and reports
    [outcome], children that end normally. *)
Definition outside (stuck : list string) (mf : gmap string Manifest)
    (installed : gmap string Node) (outcome : Res Deets)
    (child : Res unit) : Outside := {|
  sticky := stuck;
  manifests := mf;
  get_prefix := Ok None;
  which_fault := None;
  child_exec := fun _ _ => Ok "/cache";
  child_spawn := fun _ _ _ f => (outcome, installed ∪ f);
  child_runCommand := fun _ _ => child;
  prompt_answer := Ok true
|}.

Definition calm : Outside := outside [] ∅ ∅ (Ok (mkDeets "")) (Ok tt).

(** A fresh process; the package manager is a native executable. *)
Definition boot (f : gmap string Node) : State :=
  mkState (<["/usr/bin/pnpm" := File "ELF"]> f) {["PATH" := "/usr/bin"]}
    "/usr/bin/node" ["/usr/lib/npx.js"] None [] [].

(** [npx <command>] with the given cache and nothing else set. *)
Definition argv_for (cmd : string) (cache : option string) : Argv := {|
  shell_auto_fallback := None; call := None; command := Some cmd;
  package := [cmd]; q := false; no := false; yes := true;
  packageRequested := false; cache := cache; isLocal := false;
  cmdHadVersion := false; ignoreExisting := false; install := None;
  userconfig := None; npm := Some "/usr/bin/pnpm"; installerStdio := None;
  alwaysSpawn := false; nodeArg := None; shell := None; noYargs := false;
  cmdOpts := None
|}.

Definition failure (c : Z) : Error :=
  mkError "Command failed" None (Some c) true.

End Demo.

(** A path free of the separator of the search path. *)
Definition no_delimiter `{Host} (p : string) : bool :=
  forallb (fun a => negb (Ascii.eqb a path_delimiter)) (list_ascii_of_string p).

(* ===================================================================== *)
(** ** Further vocabulary                                                *)
(* ===================================================================== *)

(** A sequence in progress that can only end in a code point of U+0080 or
    above: the bounds of the next byte are those of a continuation byte,
    and either the code point so far is large enough or the lower bound
    excludes the over-long forms. *)
Definition pending_sane (p : Text.pending) : Prop :=
  (128 <= Text.plo p)%N /\ (Text.phi p <= 191)%N
  /\ (1 <= Text.pneed p)%nat
  /\ ((2 <= Text.pcp p)%N
      \/ ((1 <= Text.pcp p)%N /\ (2 <= Text.pneed p)%nat)
      \/ ((2 <= Text.pneed p)%nat /\ (144 <= Text.plo p)%N)).

(** A computation that never settles with a value. *)
Definition never_ok {A} (m : M A) : Prop :=
  forall s r s', m s = (r, s') -> is_ok r = false.

(** The events of a provisioning: the prompt and the four steps of
    [ensurePackages]. *)
Definition is_provisioning (e : Event) : bool :=
  match e with
  | EMkdir _ | EOnExit _ | ERimraf _ | ESpawn _ _ _ | EPrompt _ => true
  | _ => false
  end.

(** What goes to the standard error: [console.error] and the help. *)
Definition is_stderr (e : Event) : bool :=
  match e with EError _ | EShowHelp => true | _ => false end.

Section Catalogue.
Context {H : Host}.

(** When [npx] may provision: a package was asked for, or the request is
    neither a call nor marked local. *)
Definition provisioning_due (argv : Argv) : Prop :=
  packageRequested argv = true
  \/ (JsStr.truthy (call argv) = false /\ isLocal argv = false).

(** The cache directory in use is the one of the arguments, when they
    name one. *)
Definition cache_used (argv : Argv) (cachedir : string) : Prop :=
  JsStr.truthy (cache argv) = true -> cache argv = Some cachedir.

(** What a run of [npx] with the arguments [argv] may do, effect by
    effect; [late] tells the last stage, in which the command is run,
    from the stages before it. *)
Definition npx_may (late : bool) (argv : Argv) (e : Event) : Prop :=
  match e with
  | EError _ | EShowHelp => q argv = false
  | EPrompt _ =>
      yes argv = false /\ no argv = false /\ provisioning_due argv
  | EWhich c =>
      command argv = Some c /\ isLocal argv = false
      /\ cmdHadVersion argv || packageRequested argv || ignoreExisting argv
         = false
  | EExec _ args =>
      (JsStr.truthy (call argv) = true
       /\ exists pre, args = pre ++ ["run"; "env"; "--parseable"])
      \/ (JsStr.truthy (cache argv) = false
          /\ no argv = false
          /\ provisioning_due argv
          /\ exists pre rest,
               args = pre ++ ["config"; "get"; "cache"; "--parseable"] ++ rest)
  | EMkdir p | EOnExit p =>
      no argv = false
      /\ provisioning_due argv
      /\ exists cachedir,
           cache_used argv cachedir /\ p = prefix_of_cache cachedir
  | ERimraf p =>
      no argv = false
      /\ provisioning_due argv
      /\ exists cachedir,
           cache_used argv cachedir
           /\ p = bins_of_prefix (prefix_of_cache cachedir)
  | ESpawn _ args io =>
      no argv = false
      /\ provisioning_due argv
      /\ io = install_stdio argv
      /\ exists cachedir pre,
           cache_used argv cachedir
           /\ args = pre ++ buildArgs (package argv) (prefix_of_cache cachedir) argv
  | ERunCommand _ opts =>
      late = true /\ exists o, opts = with_cmdOpts argv o
  | EYargsReset => late = true /\ noYargs argv = false
  | ERunMain => late = true
  | ERmdir _ | ELog _ => True
  end.

(** Whether a computation was cut short by [process.exit]. *)
Definition exited {A} (r : Res A) : bool :=
  match r with Exited => true | _ => false end.

(** A computation whose every run relates the state before to the state
    after by [R], which is told whether the run was cut short. *)
Definition steps {A} (R : State -> bool -> State -> Prop) (m : M A) : Prop :=
  forall s r s', m s = (r, s') -> R s (exited r) s'.

(** A computation that only reads and never ends the process. *)
Definition quiet {A} (m : M A) : Prop :=
  forall s r s', m s = (r, s') -> s' = s /\ r <> Exited.

(** The events that come with no change of the state. *)
Definition is_plain (e : Event) : bool :=
  match e with
  | EError _ | EShowHelp | EPrompt _ | EYargsReset | ELog _ => true
  | _ => false
  end.

(** The steps by which a run of [npx] with the arguments [argv] changes
    the state or hears from its collaborators; everything else it does is
    a composition of these and of computations that only read. *)
Inductive Prim (out : Outside) (late : bool) (argv : Argv)
  : forall A, M A -> Prop :=
| P_emit e :
    is_plain e = true -> npx_may late argv e -> Prim out late argv unit (emit e)
| P_get_prefix : Prim out late argv (option string) (lift (get_prefix out))
| P_prompt_answer :
    yes argv = false -> Prim out late argv bool (lift (prompt_answer out))
| P_which c :
    npx_may late argv (EWhich c) -> Prim out late argv string (which out c)
| P_exec c a :
    npx_may late argv (EExec c a) -> Prim out late argv string (exec out c a)
| P_runCommand c o :
    npx_may late argv (ERunCommand c o) -> Prim out late argv unit (runCommand out c o)
| P_mkdir p :
    npx_may late argv (EMkdir p) -> Prim out late argv unit (fs_mkdirSync p)
| P_on_exit p :
    npx_may late argv (EOnExit p) -> Prim out late argv unit (process_on_exit p)
| P_rimraf p :
    npx_may late argv (ERimraf p) -> Prim out late argv unit (rimraf out p)
| P_spawn c a io :
    npx_may late argv (ESpawn c a io) -> Prim out late argv Deets (spawn out c a io)
| P_emit_exit : Prim out late argv unit (emit_exit out)
| P_process_exit A :
    provisioning_due argv -> no argv = true \/ yes argv = false ->
    Prim out late argv A (process_exit out 1)
| P_exit_code c :
    c <> 0%Z -> Prim out late argv unit (modify (set_exit_code c))
| P_takeover a rest :
    late = true ->
    Prim out late argv unit (modify (set_argv a rest) ;;; emit ERunMain)
| P_assign e :
    JsStr.truthy (call argv) = true ->
    Prim out late argv unit (modify (assign_env e))
| P_path p : Prim out late argv unit (prepend_PATH p).

(** The prefixes for which a cleanup was registered, in order. *)
Fixpoint registered (evs : list Event) : list string :=
  match evs with
  | [] => []
  | EOnExit p :: evs' => p :: registered evs'
  | _ :: evs' => registered evs'
  end.

(** The events that come with a change of the file system. *)
Definition changes_fs (e : Event) : bool :=
  match e with
  | EMkdir _ | ERimraf _ | ERmdir _ | ESpawn _ _ _ => true
  | _ => false
  end.

(** The events by which another program is started: the package manager
    for its output, the installer, the command. *)
Definition runs_a_program (e : Event) : bool :=
  match e with
  | EExec _ _ | ESpawn _ _ _ | ERunMain | ERunCommand _ _ => true
  | _ => false
  end.

(** The collaborators settle or reject; they do not end the process
    themselves. *)
Definition outside_returns (out : Outside) : Prop :=
  get_prefix out <> Exited
  /\ prompt_answer out <> Exited
  /\ (forall c a, child_exec out c a <> Exited)
  /\ (forall c a io f, (child_spawn out c a io f).1 <> Exited)
  /\ (forall c o, child_runCommand out c o <> Exited).

(** Nothing at or below [p] is held back by the system. *)
Definition removable (out : Outside) (p : string) : Prop :=
  forall k, In k (sticky out) -> under p k = false.

(** What a part of a run of [npx] does to the state: the events it adds
    are allowed by the arguments; the exit listeners grow by the cleanups
    registered; only registered prefixes are removed at the exit; the
    file system, [process.argv], the exit code and the environment change
    only as listed; and a part cut short by [process.exit] has run the
    exit listeners. *)
Definition npx_frame (out : Outside) (late : bool) (argv : Argv)
    (s : State) (cut : bool) (s' : State) : Prop :=
  exists evs,
    trace s' = trace s ++ evs
    /\ Forall (npx_may late argv) evs
    /\ on_exit s' = on_exit s ++ registered evs
    /\ Forall (fun e => match e with
                        | ERmdir p => In p (on_exit s')
                        | _ => True
                        end) evs
    /\ (Forall (fun e => changes_fs e = false) evs -> fs s' = fs s)
    /\ (~ In ERunMain evs ->
        argv0 s' = argv0 s /\ argv_rest s' = argv_rest s)
    /\ (exit_code s' = exit_code s
        \/ exists c, c <> 0%Z /\ exit_code s' = Some c)
    /\ (JsStr.truthy (call argv) = false ->
        (forall k, k <> "PATH" -> env s' !! k = env s !! k)
        /\ exists pre, PATH_text s' = pre +:+ PATH_text s)
    /\ (cut = true -> outside_returns out ->
        exit_code s' = Some 1%Z
        /\ provisioning_due argv
        /\ (no argv = true \/ yes argv = false)
        /\ forall p, In p (on_exit s') -> removable out p ->
                     fs s' !! p = None).

(** Lines 41-115 of [npx]: everything before the command is run. *)
Definition prepare (out : Outside) (fuel : nat) (argv : Argv)
  : M (option string) :=
  let* local := use_local_bin out in
  let* args :=
    all2
      (match command argv with
       | Some c =>
           if JsStr.nonempty c then getExistingPath out c argv
           else ret (command argv)
       | None => ret None
       end)
      (if JsStr.truthy (call argv) && JsStr.truthy local
       then let* e := getEnv out fuel argv in ret (Some e)
       else ret None) in
  (match args.2 with
   | Some e => modify (assign_env e)
   | None => ret tt
   end) ;;;
  if (negb (JsStr.truthy args.1) && negb (JsStr.truthy (call argv)))
     || packageRequested argv
  then provision out fuel args.1 argv
  else ret args.1.

(** The events by which the command is started. *)
Definition is_run (e : Event) : bool :=
  match e with ERunMain | ERunCommand _ _ => true | _ => false end.

End Catalogue.

(** The place of an event in the order of a run: the lookup of the
    command, the prompt, the four steps of the provisioning, the reset of
    the argument parser and the start of the command.  The other events
    (output, runs of the package manager for its output, removals at the
    exit) have no fixed place. *)
Definition rank (e : Event) : option nat :=
  match e with
  | EWhich _ => Some 0
  | EPrompt _ => Some 1
  | EMkdir _ => Some 2
  | EOnExit _ => Some 3
  | ERimraf _ => Some 4
  | ESpawn _ _ _ => Some 5
  | EYargsReset => Some 6
  | ERunMain | ERunCommand _ _ => Some 7
  | _ => None
  end.

Fixpoint ranks (evs : list Event) : list nat :=
  match evs with
  | [] => []
  | e :: evs' =>
      match rank e with
      | Some n => n :: ranks evs'
      | None => ranks evs'
      end
  end.

(** [l] climbs from [lo] to below [hi]: every number is at least [lo],
    greater than the one before it and less than [hi]. *)
Fixpoint climbs (lo hi : nat) (l : list nat) : Prop :=
  match l with
  | [] => lo <= hi
  | n :: l' => lo <= n /\ climbs (S n) hi l'
  end.

(** A computation whose ranked events climb from [lo] to below [hi]. *)
Definition in_stages {A} (lo hi : nat) (m : M A) : Prop :=
  forall s r s', m s = (r, s') ->
    exists evs, trace s' = trace s ++ evs /\ climbs lo hi (ranks evs).

(** A computation that adds exactly [evs] to the history. *)
Definition logs {A} (m : M A) (evs : list Event) : Prop :=
  forall s r s', m s = (r, s') -> trace s' = trace s ++ evs.

(** Requests for the examples: [npx <cmd>] with the switches given, the
    cache [/cache] and the package manager of [Demo.boot]. *)
Module Sample.

Definition request (cmd : string) (call0 : option string)
    (quiet refuse accept requested local : bool) (install0 : option bool)
  : Argv := {|
  shell_auto_fallback := None; call := call0; command := Some cmd;
  package := [cmd]; q := quiet; no := refuse; yes := accept;
  packageRequested := requested; cache := Some "/cache"; isLocal := local;
  cmdHadVersion := false; ignoreExisting := false; install := install0;
  userconfig := None; npm := Some "/usr/bin/pnpm"; installerStdio := None;
  alwaysSpawn := false; nodeArg := None; shell := None; noYargs := false;
  cmdOpts := None
|}.

(** The host of [Demo.posix], with a [JSON.parse] that makes [parsed] of
    the installer's output and a package manager environment that reads
    [vars]. *)
Definition host (parsed : Parsed) (vars : list (string * string)) : Host := {|
  platform := Posix;
  pid := 7;
  path_sep := "/";
  path_delimiter := ":"%char;
  path_join := String.concat "/";
  path_resolve := Demo.resolve;
  path_extname := Demo.extname;
  path_dirname := Demo.dirname;
  escapeArg := fun a _ => a;
  shim_capture := fun _ => None;
  command_regexp := fun c => Some (Demo.plain_name_test c);
  proto_property := fun k => existsb (String.eqb k) Demo.array_builtins;
  JSON_parse_report := fun _ => parsed;
  dotenv_parse := fun _ => vars;
  auto_fallback := fun _ _ _ => None;
  elapsed_seconds := "0"
|}.


(** A project with the prefix [/proj]; the package manager answers
    [text] when it is run for its output, the installer succeeds with
    the output [printed] and changes nothing. *)
Definition in_project (text printed : string) : Outside := {|
  sticky := []; manifests := ∅; get_prefix := Ok (Some "/proj");
  which_fault := None; child_exec := fun _ _ => Ok text;
  child_spawn := fun _ _ _ f => (Ok (mkDeets printed), f);
  child_runCommand := fun _ _ => Ok tt; prompt_answer := Ok true |}.

(** An installer that leaves one executable, a script, in the bin
    directory of the prefix. *)
Definition installs_cowsay : Outside :=
  Demo.outside [] ∅
    {[ "/cache/_npx/7/bin" := Dir ["cowsay"];
       "/cache/_npx/7/bin/cowsay" := File ("#!/usr/bin/env node" +:+ JsStr.LF) ]}
    (Ok (mkDeets "")) (Ok tt).

End Sample.
Module ReFacts.
Import Text Re.

Lemma nullable_matches r : nullable r = true <-> matches r [].
Proof.
  split.
  - induction r; simpl; intros Hn; try discriminate.
    + constructor.
    + apply andb_true_iff in Hn as [H1 H2].
      change (@nil N) with (@nil N ++ @nil N). constructor; auto.
    + apply orb_true_iff in Hn as [H1|H2]; [apply MAltL|apply MAltR]; auto.
    + constructor.
  - intros Hm. remember (@nil N) as s eqn:Hs.
    induction Hm; simpl; subst; auto; try discriminate.
    + apply app_eq_nil in Hs as [-> ->]. rewrite IHHm1, IHHm2; auto.
    + rewrite IHHm; auto.
    + rewrite IHHm; auto. apply orb_true_r.
Qed.

(** A non-empty word of a starred language starts with a non-empty word
    of the language itself. *)
Lemma matches_star_cons r c s :
  matches (Star r) (c :: s) ->
  exists s1 s2, s = s1 ++ s2 /\ matches r (c :: s1) /\ matches (Star r) s2.
Proof.
  intros Hm. remember (Star r) as r' eqn:Hr. remember (c :: s) as w eqn:Hw.
  revert c s Hw. induction Hm; intros c0 s0 Hw; try discriminate.
  injection Hr as ->.
  destruct s1 as [|c1 s1]; simpl in Hw.
  - apply IHHm2; auto.
  - injection Hw as -> <-. exists s1, s2. auto.
Qed.

Lemma deriv_matches c r s : matches (deriv c r) s <-> matches r (c :: s).
Proof.
  revert s. induction r; intros s; simpl.
  - split; intros Hm; inversion Hm.
  - split; intros Hm; inversion Hm.
  - destruct (b c) eqn:Hb; split; intros Hm; inversion Hm; subst.
    + change [c] with ([c] ++ []). constructor; auto.
    + constructor.
    + congruence.
  - split.
    + intros Hm.
      assert (Hcat : matches (Cat (deriv c r1) r2) s -> matches (Cat r1 r2) (c :: s)).
      { intros Hc. inversion Hc; subst.
        change (c :: s1 ++ s2) with ((c :: s1) ++ s2). constructor; auto.
        apply IHr1; auto. }
      destruct (nullable r1) eqn:Hn; auto.
      inversion Hm; subst; auto.
      change (c :: s) with ([] ++ c :: s). constructor.
      * apply nullable_matches; auto.
      * apply IHr2; auto.
    + intros Hm. inversion Hm; subst.
      destruct s1 as [|c1 s1]; simpl in *.
      * subst. assert (Hn : nullable r1 = true) by (apply nullable_matches; auto).
        rewrite Hn. apply MAltR. apply IHr2; auto.
      * match goal with Heq : _ :: _ = _ :: _ |- _ => injection Heq as -> <- end.
        assert (Hc : matches (Cat (deriv c r1) r2) (s1 ++ s2)).
        { constructor; auto. apply IHr1; auto. }
        destruct (nullable r1); auto. apply MAltL; auto.
  - split; intros Hm; inversion Hm; subst.
    + apply MAltL, IHr1; auto.
    + apply MAltR, IHr2; auto.
    + apply MAltL, IHr1; auto.
    + apply MAltR, IHr2; auto.
  - split.
    + intros Hm. inversion Hm; subst.
      change (c :: s1 ++ s2) with ((c :: s1) ++ s2). constructor; auto.
      apply IHr; auto.
    + intros Hm. apply matches_star_cons in Hm as (s1 & s2 & -> & H1 & H2).
      constructor; auto. apply IHr; auto.
Qed.

Lemma accept_matches r s : accept r s = true <-> matches r s.
Proof.
  revert r. induction s as [|c s IH]; intros r; simpl.
  - apply nullable_matches.
  - rewrite IH. apply deriv_matches.
Qed.

Lemma matches_any_star s : matches (Star any) s.
Proof.
  induction s as [|c s IH]; [constructor|].
  change (c :: s) with ([c] ++ s). constructor; auto. constructor. reflexivity.
Qed.

(** [search] finds exactly the texts with a substring in the language. *)
Lemma search_matches r s :
  search r s = true <->
  exists pre m post, s = pre ++ m ++ post /\ matches r m.
Proof.
  unfold search. rewrite accept_matches. split.
  - intros Hm. inversion Hm; subst.
    match goal with Hc : matches (Cat r _) _ |- _ => inversion Hc; subst end.
    eauto 6.
  - intros (pre & m & post & -> & Hm).
    constructor; [apply matches_any_star|].
    constructor; [auto|apply matches_any_star].
Qed.

Lemma matches_lit_ci l s :
  matches (lit_ci l) s <-> Forall2 (fun a c => ci_eq a c = true) l s.
Proof.
  revert s. induction l as [|a l IH]; intros s; simpl.
  - split; intros Hm; inversion Hm; constructor.
  - split; intros Hm; inversion Hm; subst.
    + match goal with Hc : matches (Chr _) _ |- _ => inversion Hc; subst end.
      simpl. constructor; auto. apply IH; auto.
    + match goal with |- matches _ (?y :: ?k) => change (y :: k) with ([y] ++ k) end.
      constructor; [constructor; auto|apply IH; auto].
Qed.

Lemma matches_spaces s : matches spaces s <-> Forall (fun c => js_space c = true) s.
Proof.
  unfold spaces. split.
  - intros Hm. remember (Star (Chr js_space)) as r eqn:Hr.
    induction Hm; try discriminate; [constructor|].
    injection Hr as ->. inversion Hm1; subst. simpl. constructor; auto.
  - induction 1 as [|c s Hc _ IH]; [constructor|].
    change (c :: s) with ([c] ++ s). constructor; auto. constructor; auto.
Qed.

End ReFacts.

(* ===================================================================== *)
(** ** The interpreter directive                                         *)
(* ===================================================================== *)

Module DirectiveFacts.
Import Text Re ReFacts Directive JsStr.

Lemma matches_cat r1 r2 s :
  matches (Cat r1 r2) s <->
  exists s1 s2, s = s1 ++ s2 /\ matches r1 s1 /\ matches r2 s2.
Proof.
  split.
  - intros Hm. inversion Hm; subst. eauto.
  - intros (s1 & s2 & -> & H1 & H2). constructor; auto.
Qed.

Lemma matches_alt r1 r2 s :
  matches (Alt r1 r2) s <-> matches r1 s \/ matches r2 s.
Proof.
  split.
  - intros Hm. inversion Hm; subst; auto.
  - intros [Hm|Hm]; [apply MAltL|apply MAltR]; auto.
Qed.

Lemma matches_eps s : matches Eps s <-> s = [].
Proof. split; [intros Hm; inversion Hm; auto|intros ->; constructor]. Qed.

Lemma matches_lit l s : matches (lit l) s <-> ci_text l s.
Proof. apply matches_lit_ci. Qed.

(** A character that is not a letter matches only itself. *)
Lemma ci_eq_exact a c :
  ((a <? 65) || (90 <? a) && (a <? 97) || (122 <? a))%N = true ->
  ci_eq a c = true -> c = a.
Proof.
  unfold ci_eq. intros Ha Hc.
  repeat (apply orb_true_iff in Hc as [Hc|Hc]).
  - apply N.eqb_eq in Hc; auto.
  - repeat (apply andb_true_iff in Hc as [Hc ?]).
    apply N.leb_le in Hc. exfalso.
    repeat (apply orb_true_iff in Ha as [Ha|Ha]);
      repeat (apply andb_true_iff in Ha as [Ha ?]);
      repeat match goal with
             | Hx : (_ <? _)%N = true |- _ => apply N.ltb_lt in Hx
             | Hx : (_ <=? _)%N = true |- _ => apply N.leb_le in Hx
             end; lia.
  - repeat (apply andb_true_iff in Hc as [Hc ?]).
    apply N.leb_le in Hc. exfalso.
    repeat (apply orb_true_iff in Ha as [Ha|Ha]);
      repeat (apply andb_true_iff in Ha as [Ha ?]);
      repeat match goal with
             | Hx : (_ <? _)%N = true |- _ => apply N.ltb_lt in Hx
             | Hx : (_ <=? _)%N = true |- _ => apply N.leb_le in Hx
             end; lia.
Qed.

Lemma ci_eq_refl a : ci_eq a a = true.
Proof. unfold ci_eq. rewrite N.eqb_refl. reflexivity. Qed.

Lemma matches_hashbang s : matches (lit "#!") s <-> s = units_of "#!".
Proof.
  rewrite matches_lit. unfold ci_text. split.
  - intros Hf. inversion Hf as [|a c l1 l2 H1 Hr]; subst.
    inversion Hr as [|a' c' l1' l2' H2 Hr']; subst.
    inversion Hr'; subst.
    apply ci_eq_exact in H1; [|reflexivity].
    apply ci_eq_exact in H2; [|reflexivity]. subst. reflexivity.
  - intros ->. repeat constructor.
Qed.

Lemma matches_LF s : matches (lit LF) s <-> s = [10%N].
Proof.
  rewrite matches_lit. unfold ci_text. split.
  - intros Hf. inversion Hf as [|a c l1 l2 H1 Hr]; subst.
    inversion Hr; subst.
    apply ci_eq_exact in H1; [|reflexivity]. subst. reflexivity.
  - intros ->. repeat constructor.
Qed.

Lemma matches_opt_CR s : matches (opt (lit CR)) s <-> s = [] \/ s = [13%N].
Proof.
  unfold opt. rewrite matches_alt, matches_eps, matches_lit. unfold ci_text.
  split.
  - intros [Hf|?]; auto. right.
    inversion Hf as [|a c l1 l2 H1 Hr]; subst. inversion Hr; subst.
    apply ci_eq_exact in H1; [|reflexivity]. subst. reflexivity.
  - intros [->| ->]; auto. left. repeat constructor.
Qed.

Lemma matches_interpreter s : matches interpreter s <-> names_interpreter s.
Proof.
  unfold interpreter, names_interpreter.
  rewrite !matches_alt, !matches_lit. split.
  - intros [Hm|[?|?]]; auto. left.
    apply matches_cat in Hm as (a & r & -> & Ha & Hr).
    apply matches_cat in Hr as (w & b & -> & Hw & Hb).
    exists a, w, b. split; [reflexivity|].
    split; [apply matches_lit; auto|].
    split; [apply matches_spaces; auto|apply matches_lit; auto].
  - intros [(a & w & b & -> & Ha & Hw & Hb)|[?|?]]; auto. left.
    apply matches_cat. exists a, (w ++ b). split; auto.
    split; [apply matches_lit; auto|].
    apply matches_cat. exists w, b. split; [reflexivity|].
    split; [apply matches_spaces; auto|apply matches_lit; auto].
Qed.

Lemma matches_shebang m :
  matches shebang m <->
  exists w1 i w2 cr,
    m = units_of "#!" ++ w1 ++ i ++ w2 ++ cr ++ [10%N]
    /\ blank w1 /\ names_interpreter i /\ blank w2
    /\ (cr = [] \/ cr = [13%N]).
Proof.
  unfold shebang. split.
  - intros Hm.
    apply matches_cat in Hm as (h & r1 & -> & Hh & Hm).
    apply matches_cat in Hm as (w1 & r2 & -> & Hw1 & Hm).
    apply matches_cat in Hm as (i & r3 & -> & Hi & Hm).
    apply matches_cat in Hm as (w2 & r4 & -> & Hw2 & Hm).
    apply matches_cat in Hm as (cr & nl & -> & Hcr & Hnl).
    apply matches_hashbang in Hh as ->. apply matches_LF in Hnl as ->.
    exists w1, i, w2, cr. split; [reflexivity|].
    split; [apply matches_spaces; auto|].
    split; [apply matches_interpreter; auto|].
    split; [apply matches_spaces; auto|apply matches_opt_CR; auto].
  - intros (w1 & i & w2 & cr & -> & Hw1 & Hi & Hw2 & Hcr).
    apply matches_cat. eexists _, _. split; [reflexivity|].
    split; [apply matches_hashbang; reflexivity|].
    apply matches_cat. eexists _, _. split; [reflexivity|].
    split; [apply matches_spaces; auto|].
    apply matches_cat. eexists _, _. split; [reflexivity|].
    split; [apply matches_interpreter; auto|].
    apply matches_cat. eexists _, _. split; [reflexivity|].
    split; [apply matches_spaces; auto|].
    apply matches_cat. eexists _, _. split; [reflexivity|].
    split; [apply matches_opt_CR; auto|apply matches_LF; reflexivity].
Qed.

(** The unanchored search succeeds exactly on the texts that hold a
    directive somewhere. *)
Lemma search_shebang t : search shebang t = true <-> holds_directive t.
Proof.
  rewrite search_matches. unfold holds_directive. split.
  - intros (pre & m & post & -> & Hm).
    apply matches_shebang in Hm as (w1 & i & w2 & cr & -> & Hrest).
    exists pre, w1, i, w2, cr, post. split; auto.
    rewrite <- !app_assoc. reflexivity.
  - intros (pre & w1 & i & w2 & cr & post & -> & Hrest).
    exists pre, (units_of "#!" ++ w1 ++ i ++ w2 ++ cr ++ [10%N]), post.
    split; [rewrite <- !app_assoc; reflexivity|].
    apply matches_shebang. exists w1, i, w2, cr. auto.
Qed.

(** ASCII bytes decode to themselves. *)
Lemma utf8_decode_ascii (a : list N) (r : list N) :
  Forall (fun b => (b <=? 127)%N = true) a ->
  utf8_decode None (a ++ r) = a ++ utf8_decode None r.
Proof.
  induction 1 as [|b a Hb _ IH]; [reflexivity|].
  simpl. unfold utf8_lead. rewrite Hb. simpl. rewrite IH. reflexivity.
Qed.

Lemma bytes_of_app a b : bytes_of (a +:+ b) = bytes_of a ++ bytes_of b.
Proof.
  unfold bytes_of. induction a as [|c a IH]; simpl; [reflexivity|].
  f_equal. apply IH.
Qed.

Lemma append_assoc (a b c : string) : (a +:+ b) +:+ c = a +:+ b +:+ c.
Proof.
  induction a as [|x a IH]; [reflexivity|].
  change ((String x a +:+ b) +:+ c) with (String x ((a +:+ b) +:+ c)).
  rewrite IH. reflexivity.
Qed.

End DirectiveFacts.

(* ===================================================================== *)
(** ** Running the monad                                                 *)
(* ===================================================================== *)

Module EffFacts.

Lemma bind_ok {A B} (m : M A) (k : A -> M B) s a s1 :
  m s = (Ok a, s1) -> bind m k s = k a s1.
Proof. unfold bind. intros ->. reflexivity. Qed.

Lemma bind_throw {A B} (m : M A) (k : A -> M B) s e s1 :
  m s = (Throw e, s1) -> bind m k s = (Throw e, s1).
Proof. unfold bind. intros ->. reflexivity. Qed.

(** What a sequence did, read off its result. *)
Lemma bind_inv {A B} (m : M A) (k : A -> M B) s r s' :
  bind m k s = (r, s') ->
  (exists a s1, m s = (Ok a, s1) /\ k a s1 = (r, s'))
  \/ (exists r0, m s = (r0, s') /\ is_ok r0 = false /\ r = carry r0).
Proof.
  unfold bind. destruct (m s) as [[a|e| |] s1]; intros Heq.
  - left. eauto.
  - right. injection Heq as <- <-. exists (Throw e). auto.
  - right. injection Heq as <- <-. exists Exited. auto.
  - right. injection Heq as <- <-. exists Hung. auto.
Qed.

Lemma catch_inv {A} (m : M A) (h : Error -> M A) s r s' :
  catch m h s = (r, s') ->
  (exists e s1, m s = (Throw e, s1) /\ h e s1 = (r, s'))
  \/ (m s = (r, s') /\ forall e, r <> Throw e).
Proof.
  unfold catch. destruct (m s) as [[a|e| |] s1]; intros Heq.
  - right. injection Heq as <- <-. split; [auto|discriminate].
  - left. eauto.
  - right. injection Heq as <- <-. split; [auto|discriminate].
  - right. injection Heq as <- <-. split; [auto|discriminate].
Qed.

Lemma trace_log e s : trace (log e s) = trace s ++ [e].
Proof. reflexivity. Qed.

Lemma events_since_app s s' evs :
  trace s' = trace s ++ evs -> events_since s s' = evs.
Proof.
  unfold events_since. intros ->. rewrite drop_app_length. reflexivity.
Qed.

Lemma events_since_refl s : events_since s s = [].
Proof. apply events_since_app. rewrite app_nil_r. reflexivity. Qed.

End EffFacts.

(* ===================================================================== *)
(** ** findNodeScript                                                    *)
(* ===================================================================== *)

Section FindNodeScript.
Context {H : Host} (out : Outside).
Import Text Re ReFacts Directive DirectiveFacts JsStr EffFacts.

(** Resolution only reads. *)
Lemma findNodeScript_pure fuel existing local :
  pure_read (findNodeScript out fuel existing local).
Proof.
  revert existing. induction fuel as [|fuel IH]; intros existing s r s'.
  - destruct existing as [e|]; simpl.
    + destruct (nonempty e); simpl; unfold ret, lift; intros [= _ <-]; auto.
    + unfold ret; intros [= _ <-]; auto.
  - destruct existing as [e|]; simpl; [|unfold ret; intros [= _ <-]; auto].
    destruct (nonempty e); simpl; [|unfold ret; intros [= _ <-]; auto].
    unfold bind at 1, fs_stat. destruct (fs s !! e) as [n|]; [|intros [= _ <-]; auto].
    destruct (local && script_ext (path_extname e));
      [unfold ret; intros [= _ <-]; auto|].
    destruct (local && is_dir n).
    + destruct (manifest_target out e) as [target|];
        [|unfold throw; intros [= _ <-]; auto].
      unfold bind.
      destruct (findNodeScript out fuel (Some target) local s) as [r1 s1] eqn:Hrec.
      apply IH in Hrec as ->.
      destruct r1 as [script|e1| |]; try (intros [= _ <-]; auto).
      destruct (truthy script); unfold ret, throw; intros [= _ <-]; auto.
    + destruct platform; unfold bind, fs_read_head;
        destruct (fs s !! e) as [[c|l]|]; unfold ret; intros [= _ <-]; auto.
Qed.

(** Fuel only bounds the chain of manifests: a resolution that settles
    settles the same way with more of it. *)
Lemma findNodeScript_more_fuel fuel existing local s r s' :
  findNodeScript out fuel existing local s = (r, s') -> r <> Hung ->
  findNodeScript out (S fuel) existing local s = (r, s').
Proof.
  revert existing r s'. induction fuel as [|fuel IH]; intros existing r s'.
  - destruct existing as [e|]; simpl; [|auto].
    destruct (nonempty e); simpl; [|auto].
    unfold lift. intros [= <- _] Hr. congruence.
  - destruct existing as [e|]; [|simpl; auto].
    intros Hrun Hr. revert Hrun.
    change (findNodeScript out (S (S fuel)) (Some e) local s)
      with ((if negb (nonempty e) then ret None else
             let* stat := fs_stat e in
             if local && script_ext (path_extname e) then ret (Some e)
             else if local && is_dir stat then
               match manifest_target out e with
               | Some target =>
                   let* script := findNodeScript out (S fuel) (Some target) local in
                   if truthy script then ret script
                   else throw (plain_error (msg_not_found target))
               | None => throw (plain_error (msg_not_found e))
               end
             else
               match platform with
               | Posix =>
                   let* buf := fs_read_head 400 e in
                   ret (if search shebang (Buffer_toString buf) then Some e else None)
               | Win32 =>
                   let* buf := fs_read_head 1000 e in
                   ret (match shim_capture (Buffer_toString buf) with
                        | Some m => Some (path_join [path_dirname e; m])
                        | None => None
                        end)
               end) s).
    change (findNodeScript out (S fuel) (Some e) local s)
      with ((if negb (nonempty e) then ret None else
             let* stat := fs_stat e in
             if local && script_ext (path_extname e) then ret (Some e)
             else if local && is_dir stat then
               match manifest_target out e with
               | Some target =>
                   let* script := findNodeScript out fuel (Some target) local in
                   if truthy script then ret script
                   else throw (plain_error (msg_not_found target))
               | None => throw (plain_error (msg_not_found e))
               end
             else
               match platform with
               | Posix =>
                   let* buf := fs_read_head 400 e in
                   ret (if search shebang (Buffer_toString buf) then Some e else None)
               | Win32 =>
                   let* buf := fs_read_head 1000 e in
                   ret (match shim_capture (Buffer_toString buf) with
                        | Some m => Some (path_join [path_dirname e; m])
                        | None => None
                        end)
               end) s).
    destruct (negb (nonempty e)); [auto|].
    unfold bind, fs_stat. destruct (fs s !! e) as [n|]; [|auto].
    destruct (local && script_ext (path_extname e)); [auto|].
    destruct (local && is_dir n); [|auto].
    destruct (manifest_target out e) as [target|]; [|auto].
    destruct (findNodeScript out fuel (Some target) local s) as [r1 s1] eqn:Hrec.
    destruct r1 as [script|e1| |];
      try (rewrite (IH _ _ _ Hrec) by discriminate; auto).
    intros [= <- _]. congruence.
Qed.

(** On a POSIX host a file that is not a local entry is read and
    searched. *)
Lemma findNodeScript_sniff fuel e c s :
  platform = Posix -> nonempty e = true -> fs s !! e = Some (File c) ->
  findNodeScript out (S fuel) (Some e) false s =
  (Ok (if search shebang (Buffer_toString (read_head 400 c))
       then Some e else None), s).
Proof.
  intros Hp He Hf. simpl. rewrite He. simpl.
  unfold bind, fs_stat. rewrite Hf. simpl. rewrite Hp.
  unfold fs_read_head. rewrite Hf. reflexivity.
Qed.

Lemma accepted_line_ascii form eol :
  In form accepted_forms -> In eol line_endings ->
  Forall (fun b => (b <=? 127)%N = true) (bytes_of (form +:+ eol))
  /\ accept shebang (bytes_of (form +:+ eol)) = true
  /\ length (bytes_of (form +:+ eol)) <= 400.
Proof.
  intros Hf He. simpl in Hf, He.
  destruct Hf as [<-|[<-|[<-|[]]]]; destruct He as [<-|[<-|[]]];
    (split; [repeat constructor|split; [vm_compute; reflexivity|vm_compute; lia]]).
Qed.

(** Each accepted form at the head of a file, with either line ending, is
    found. *)
Lemma leading_form_found form eol rest :
  In form accepted_forms -> In eol line_endings ->
  search shebang (Buffer_toString (read_head 400 (form +:+ eol +:+ rest))) = true.
Proof.
  intros Hf He.
  destruct (accepted_line_ascii form eol Hf He) as (Hascii & Hacc & Hlen).
  apply search_matches.
  exists [], (bytes_of (form +:+ eol)).
  unfold read_head, Buffer_toString.
  rewrite <- append_assoc.
  rewrite bytes_of_app, take_app, take_ge by lia.
  rewrite <- app_assoc.
  eexists. split.
  - simpl. apply utf8_decode_ascii. exact Hascii.
  - apply accept_matches. exact Hacc.
Qed.

End FindNodeScript.

Section Resolution.
Context {H : Host} (out : Outside).
Import Text Re ReFacts Directive DirectiveFacts JsStr EffFacts.

(** C3 (amended).  On a POSIX host, a readable file that is not a
    local-bin entry is classified as an interpreter script exactly when
    the first 400 bytes, decoded as UTF-8, hold somewhere [#!], optional
    white space, one of the three interpreters (letters in either case,
    optional white space between [env] and [node]), optional white space,
    an optional carriage return and a line feed; otherwise it is not a
    script.  In particular each of the three directives as the first line,
    ended by a line feed with or without a carriage return before it,
    makes the file a script. *)
Theorem sniff_finds_directive_anywhere fuel e c s :
  platform = Posix -> nonempty e = true -> fs s !! e = Some (File c) ->
  (holds_directive (Buffer_toString (read_head 400 c)) ->
     findNodeScript out (S fuel) (Some e) false s = (Ok (Some e), s))
  /\ (~ holds_directive (Buffer_toString (read_head 400 c)) ->
     findNodeScript out (S fuel) (Some e) false s = (Ok None, s))
  /\ (forall form eol rest,
        In form accepted_forms -> In eol line_endings ->
        c = form +:+ eol +:+ rest ->
        findNodeScript out (S fuel) (Some e) false s = (Ok (Some e), s)).
Proof.
  intros Hp He Hf. rewrite (findNodeScript_sniff out fuel e c s Hp He Hf).
  split; [|split].
  - intros Hd. apply search_shebang in Hd. rewrite Hd. reflexivity.
  - intros Hd.
    destruct (search shebang (Buffer_toString (read_head 400 c))) eqn:Hs;
      [|reflexivity].
    exfalso. apply Hd, search_shebang, Hs.
  - intros form eol rest Hform Heol ->.
    rewrite (leading_form_found form eol rest Hform Heol). reflexivity.
Qed.

(** A local-bin directory without a loadable manifest or usable entry. *)
Lemma findNodeScript_dir_no_target fuel e l s :
  nonempty e = true -> fs s !! e = Some (Dir l) ->
  script_ext (path_extname e) = false ->
  manifest_target out e = None ->
  findNodeScript out (S fuel) (Some e) true s =
  (Throw (plain_error (msg_not_found e)), s).
Proof.
  intros He Hf Hx Ht. simpl. rewrite He. simpl.
  unfold bind, fs_stat. rewrite Hf, Hx. simpl. rewrite Ht. reflexivity.
Qed.

(** A local-bin directory with an entry: one more resolution. *)
Lemma findNodeScript_dir_target fuel e l s target :
  nonempty e = true -> fs s !! e = Some (Dir l) ->
  script_ext (path_extname e) = false ->
  manifest_target out e = Some target ->
  findNodeScript out (S fuel) (Some e) true s =
  (let* script := findNodeScript out fuel (Some target) true in
   if truthy script then ret script
   else throw (plain_error (msg_not_found target))) s.
Proof.
  intros He Hf Hx Ht. simpl. rewrite He. simpl.
  unfold bind at 1, fs_stat. rewrite Hf, Hx. simpl. rewrite Ht. reflexivity.
Qed.

(** C4 (amended).  A local-bin directory whose name ends in [.js] or
    [.cjs] is returned itself and its manifest is not read.  For every
    other local-bin directory, resolution loads the manifest, takes as
    entry the first truthy of [bin], [main] and ["index.js"], resolves it
    against the directory and resolves the result once more.  It fails
    with "command not found" when the manifest cannot be loaded, when the
    entry is not a string, and when the further resolution yields no
    script; it yields the script the further resolution finds, and a
    rejection of the further resolution is passed on as it is.  A
    directory whose manifest has neither [bin] nor [main] resolves to its
    [index.js] when that file exists. *)
Theorem directory_resolves_through_manifest fuel e l s :
  nonempty e = true -> fs s !! e = Some (Dir l) ->
  (script_ext (path_extname e) = true ->
     findNodeScript out (S fuel) (Some e) true s = (Ok (Some e), s))
  /\ (script_ext (path_extname e) = false ->
      (manifests out !! path_resolve e "package.json" = None ->
         findNodeScript out (S fuel) (Some e) true s =
         (Throw (plain_error (msg_not_found e)), s))
      /\ (forall pkg,
          manifests out !! path_resolve e "package.json" = Some pkg ->
          match js_or (bin pkg) (js_or (main pkg) (JString "index.js")) with
          | JString t =>
              let target := path_resolve e t in
              (forall script,
                  findNodeScript out fuel (Some target) true s
                  = (Ok (Some script), s) ->
                  nonempty script = true ->
                  findNodeScript out (S fuel) (Some e) true s
                  = (Ok (Some script), s))
              /\ (forall r,
                  findNodeScript out fuel (Some target) true s = (Ok r, s) ->
                  truthy r = false ->
                  findNodeScript out (S fuel) (Some e) true s =
                  (Throw (plain_error (msg_not_found target)), s))
              /\ (forall r,
                  findNodeScript out fuel (Some target) true s = (r, s) ->
                  is_ok r = false ->
                  findNodeScript out (S fuel) (Some e) true s = (carry r, s))
          | _ =>
              findNodeScript out (S fuel) (Some e) true s =
              (Throw (plain_error (msg_not_found e)), s)
          end)
      /\ (forall pkg c,
          manifests out !! path_resolve e "package.json" = Some pkg ->
          js_truthy (bin pkg) = false -> js_truthy (main pkg) = false ->
          nonempty (path_resolve e "index.js") = true ->
          script_ext (path_extname (path_resolve e "index.js")) = true ->
          fs s !! path_resolve e "index.js" = Some (File c) ->
          findNodeScript out (S (S fuel)) (Some e) true s =
          (Ok (Some (path_resolve e "index.js")), s))).
Proof.
  intros He Hf. split.
  { intros Hx. simpl. rewrite He. simpl. unfold bind, fs_stat.
    rewrite Hf, Hx. reflexivity. }
  intros Hx. split; [|split].
  - intros Hm. apply (findNodeScript_dir_no_target fuel e l s He Hf Hx).
    unfold manifest_target. rewrite Hm. reflexivity.
  - intros pkg Hm.
    destruct (js_or (bin pkg) (js_or (main pkg) (JString "index.js")))
      as [|t|] eqn:Hentry.
    + apply (findNodeScript_dir_no_target fuel e l s He Hf Hx).
      unfold manifest_target. rewrite Hm, Hentry. reflexivity.
    + assert (Ht : manifest_target out e = Some (path_resolve e t)).
      { unfold manifest_target. rewrite Hm, Hentry. reflexivity. }
      cbv zeta. split; [|split].
      * intros script Hrec Hs.
        rewrite (findNodeScript_dir_target fuel e l s _ He Hf Hx Ht).
        unfold bind. rewrite Hrec. simpl. rewrite Hs. reflexivity.
      * intros r Hrec Hr.
        rewrite (findNodeScript_dir_target fuel e l s _ He Hf Hx Ht).
        unfold bind. rewrite Hrec. rewrite Hr. reflexivity.
      * intros r Hrec Hr.
        rewrite (findNodeScript_dir_target fuel e l s _ He Hf Hx Ht).
        unfold bind. rewrite Hrec.
        destruct r; [discriminate Hr|reflexivity|reflexivity|reflexivity].
    + apply (findNodeScript_dir_no_target fuel e l s He Hf Hx).
      unfold manifest_target. rewrite Hm, Hentry. reflexivity.
  - intros pkg c Hm Hb Hmn Hne Hext Hfile.
    assert (Ht : manifest_target out e = Some (path_resolve e "index.js")).
    { unfold manifest_target, js_or. rewrite Hm, Hb, Hmn. reflexivity. }
    rewrite (findNodeScript_dir_target (S fuel) e l s _ He Hf Hx Ht).
    unfold bind at 1.
    assert (Hrec : findNodeScript out (S fuel)
                     (Some (path_resolve e "index.js")) true s
                   = (Ok (Some (path_resolve e "index.js")), s)).
    { simpl. rewrite Hne. simpl. unfold bind, fs_stat.
      rewrite Hfile, Hext. reflexivity. }
    rewrite Hrec. simpl. rewrite Hne. reflexivity.
Qed.

End Resolution.

(** A file whose second line is a directive: the first line is not one,
    and the file is classified as a script all the same.  This refutes
    C3 as stated. *)
Lemma first_line_does_not_decide :
  let c := "echo hi" +:+ JsStr.LF +:+ "#!/usr/bin/node" +:+ JsStr.LF in
  let s := Demo.boot {[ "/bin/tool" := File c ]} in
  Directive.leading_directive (Text.Buffer_toString (Text.read_head 400 c))
  = false
  /\ findNodeScript (H := Demo.posix) Demo.calm 1 (Some "/bin/tool") false s
     = (Ok (Some "/bin/tool"), s).
Proof. split; vm_compute; reflexivity. Qed.

Lemma sniff_finds_directive_anywhere_witness :
  let c := "#!/usr/bin/env node" +:+ JsStr.LF +:+ "require('./cli')" in
  let s := Demo.boot {[ "/bin/tool" := File c ]} in
  findNodeScript (H := Demo.posix) Demo.calm 1 (Some "/bin/tool") false s
  = (Ok (Some "/bin/tool"), s).
Proof.
  intros c s.
  destruct (sniff_finds_directive_anywhere (H := Demo.posix) Demo.calm 0
              "/bin/tool" c s eq_refl eq_refl eq_refl) as (_ & _ & Hform).
  apply (Hform "#!/usr/bin/env node" JsStr.LF "require('./cli')").
  - simpl. auto.
  - simpl. auto.
  - reflexivity.
Defined.

(** A package directory whose manifest names neither [bin] nor [main] and
    which holds an [index.js]: resolution succeeds.  This refutes C4 as
    stated. *)
Lemma bare_manifest_resolves_to_index :
  let dir := "/proj/node_modules/.bin/tool" in
  let mf : gmap string Manifest :=
    {[ "/proj/node_modules/.bin/tool/package.json"
       := mkManifest JUndefined JUndefined ]} in
  let s := Demo.boot
    (<[ dir := Dir ["index.js"; "package.json"] ]>
       {[ "/proj/node_modules/.bin/tool/index.js" := File "main()" ]}) in
  findNodeScript (H := Demo.posix)
    (Demo.outside [] mf ∅ (Ok (mkDeets "")) (Ok tt)) 2 (Some dir) true s
  = (Ok (Some "/proj/node_modules/.bin/tool/index.js"), s).
Proof. vm_compute. reflexivity. Qed.

Lemma directory_resolves_through_manifest_witness :
  let dir := "/proj/node_modules/.bin/tool" in
  let mf : gmap string Manifest :=
    {[ "/proj/node_modules/.bin/tool/package.json"
       := mkManifest JUndefined JUndefined ]} in
  let s := Demo.boot
    (<[ dir := Dir ["index.js"; "package.json"] ]>
       {[ "/proj/node_modules/.bin/tool/index.js" := File "main()" ]}) in
  findNodeScript (H := Demo.posix)
    (Demo.outside [] mf ∅ (Ok (mkDeets "")) (Ok tt)) 2 (Some dir) true s
  = (Ok (Some "/proj/node_modules/.bin/tool/index.js"), s).
Proof.
  intros dir mf s.
  destruct (directory_resolves_through_manifest (H := Demo.posix)
              (Demo.outside [] mf ∅ (Ok (mkDeets "")) (Ok tt)) 0 dir
              ["index.js"; "package.json"] s eq_refl eq_refl)
    as (_ & Hplain).
  destruct (Hplain eq_refl) as (_ & _ & Hindex).
  apply (Hindex (mkManifest JUndefined JUndefined) "main()");
    reflexivity.
Defined.

(* ===================================================================== *)
(** ** getExistingPath                                                   *)
(* ===================================================================== *)

Section ExistenceCheck.
Context {H : Host} (out : Outside).
Import JsStr EffFacts.

Lemma which_result cmd s :
  which out cmd s =
  (match which_fault out with
   | Some e => Throw e
   | None =>
       match List.find (is_file (fs s)) (candidates cmd s) with
       | Some p => Ok p
       | None => Throw (not_found cmd)
       end
   end, log (EWhich cmd) s).
Proof.
  unfold which. destruct (which_fault out); [reflexivity|].
  change (fs (log (EWhich cmd) s)) with (fs s).
  change (candidates cmd (log (EWhich cmd) s)) with (candidates cmd s).
  destruct (List.find _ _); reflexivity.
Qed.


End ExistenceCheck.


(* ===================================================================== *)
(** ** execCommand                                                       *)
(* ===================================================================== *)

Module StrFacts.
Import JsStr.

Lemma nonempty_true s : nonempty s = true <-> s <> "".
Proof.
  unfold nonempty. rewrite negb_true_iff. apply String.eqb_neq.
Qed.

Lemma nonempty_false s : nonempty s = false <-> s = "".
Proof.
  unfold nonempty. rewrite negb_false_iff. apply String.eqb_eq.
Qed.


End StrFacts.

Section ExecCommand.
Context {H : Host} (out : Outside).
Import JsStr EffFacts StrFacts.


(** The three branches of [execCommand] once the target is resolved. *)
Lemma execCommand_resolved fuel ex argv s existing :
  findNodeScript out fuel ex (isLocal argv) s = (Ok existing, s) ->
  execCommand out fuel ex argv s =
  if truthy existing && negb (alwaysSpawn argv)
     && negb (nodeArg_truthy (nodeArg argv)) && negb (truthy (shell argv))
     && differs_from_argv1 existing s
  then
    (Ok tt,
     log ERunMain
       (set_argv (argv0 s) (default "" existing :: default [] (cmdOpts argv))
          (if noYargs argv then s else log EYargsReset s)))
  else if negb (truthy existing) && nodeArg_length_truthy (nodeArg argv)
  then (Throw (plain_error msg_node_arg), s)
  else
    let cc := child_command existing argv s in
    let s1 := log (ERunCommand cc.1 (with_cmdOpts argv cc.2)) s in
    match child_runCommand out cc.1 (with_cmdOpts argv cc.2) with
    | Throw err =>
        match isOperational err, exit_status err with
        | true, Some c => (Ok tt, set_exit_code c s1)
        | _, _ => (Throw err, s1)
        end
    | r => (r, s1)
    end.
Proof.
  intros Hfind. unfold execCommand.
  rewrite (bind_ok _ _ _ _ _ Hfind). unfold bind at 1, get.
  destruct (truthy existing && negb (alwaysSpawn argv)
            && negb (nodeArg_truthy (nodeArg argv)) && negb (truthy (shell argv))
            && differs_from_argv1 existing s).
  - destruct (noYargs argv); reflexivity.
  - destruct (negb (truthy existing) && nodeArg_length_truthy (nodeArg argv));
      [reflexivity|].
    destruct (child_command existing argv s) as [cmd cmdOpts]. simpl.
    unfold catch, runCommand, bind, emit, modify, lift.
    destruct (child_runCommand out cmd (with_cmdOpts argv cmdOpts))
      as [[]|err| |]; try reflexivity.
    destruct (isOperational err), (exit_status err); reflexivity.
Qed.

(** When resolution does not settle with a value, nothing else happens. *)
Lemma execCommand_unresolved fuel ex argv s r0 :
  findNodeScript out fuel ex (isLocal argv) s = (r0, s) ->
  is_ok r0 = false ->
  execCommand out fuel ex argv s = (carry r0, s).
Proof.
  intros Hfind Hr. unfold execCommand, bind. rewrite Hfind.
  destruct r0; try discriminate; reflexivity.
Qed.

Lemma differs_from_argv1_true script s :
  differs_from_argv1 (Some script) s = true <->
  argv_rest s !! 0%nat <> Some script.
Proof.
  unfold differs_from_argv1. rewrite negb_true_iff, bool_decide_eq_false.
  split; intros Hn Heq; apply Hn; congruence.
Qed.

(** C2.  [execCommand] takes over the process exactly when the target
    resolved to a script, spawning was not forced, no interpreter flags
    and no shell were requested, and the script is not the one already
    running.  It then leaves [process.argv] as the node binary, the script
    and the user's arguments, and starts no child. *)
Theorem takeover_iff_conditions fuel ex argv s r s' :
  execCommand out fuel ex argv s = (r, s') ->
  (In ERunMain (events_since s s') <->
   exists script,
     findNodeScript out fuel ex (isLocal argv) s = (Ok (Some script), s)
     /\ script <> ""
     /\ alwaysSpawn argv = false
     /\ nodeArg_truthy (nodeArg argv) = false
     /\ truthy (shell argv) = false
     /\ argv_rest s !! 0%nat <> Some script)
  /\ (In ERunMain (events_since s s') ->
      exists script,
        findNodeScript out fuel ex (isLocal argv) s = (Ok (Some script), s)
        /\ r = Ok tt
        /\ argv0 s' = argv0 s
        /\ argv_rest s' = script :: default [] (cmdOpts argv)
        /\ Forall (fun e => is_child e = false) (events_since s s')).
Proof.
  intros Hrun.
  destruct (findNodeScript out fuel ex (isLocal argv) s) as [r0 s0] eqn:Hfind.
  assert (s0 = s) as -> by (eapply findNodeScript_pure; eauto).
  destruct r0 as [existing|e0| |].
  2-4: (rewrite (execCommand_unresolved fuel ex argv s _ Hfind eq_refl) in Hrun;
        injection Hrun as <- <-; rewrite events_since_refl;
        split; [split; [intros []|intros (? & ? & _); discriminate]|intros []]).
  rewrite (execCommand_resolved fuel ex argv s existing Hfind) in Hrun.
  destruct (truthy existing && negb (alwaysSpawn argv)
            && negb (nodeArg_truthy (nodeArg argv)) && negb (truthy (shell argv))
            && differs_from_argv1 existing s) eqn:Hcond.
  - injection Hrun as <- <-.
    repeat (apply andb_true_iff in Hcond as [Hcond ?]).
    destruct existing as [script|]; [|discriminate]. simpl in Hcond.
    assert (Hev : events_since s
                    (log ERunMain
                       (set_argv (argv0 s) (script :: default [] (cmdOpts argv))
                          (if noYargs argv then s else log EYargsReset s)))
                  = (if noYargs argv then [] else [EYargsReset]) ++ [ERunMain]).
    { apply events_since_app. destruct (noYargs argv); simpl;
        rewrite <- ?app_assoc; reflexivity. }
    simpl default. rewrite Hev.
    assert (Hin : In ERunMain ((if noYargs argv then [] else [EYargsReset]) ++ [ERunMain])).
    { apply in_or_app. right. left. reflexivity. }
    split; [split|].
    + intros _. exists script.
      rewrite negb_true_iff in *. rewrite nonempty_true in Hcond.
      rewrite differs_from_argv1_true in *. auto 10.
    + intros _. exact Hin.
    + intros _. exists script. split; [reflexivity|]. split; [reflexivity|].
      split; [destruct (noYargs argv); reflexivity|].
      split; [destruct (noYargs argv); reflexivity|].
      destruct (noYargs argv); repeat constructor.
  - assert (Hno : ~ In ERunMain (events_since s s')).
    { destruct (negb (truthy existing) && nodeArg_length_truthy (nodeArg argv)).
      - injection Hrun as <- <-. rewrite events_since_refl. intros [].
      - cbv zeta in Hrun.
        set (cc := child_command existing argv s) in *.
        destruct (child_runCommand out cc.1 (with_cmdOpts argv cc.2))
          as [[]|err| |];
          try (injection Hrun as <- <-;
               erewrite events_since_app by reflexivity;
               intros [Hx|[]]; discriminate).
        destruct (isOperational err), (exit_status err);
          injection Hrun as <- <-;
          erewrite events_since_app by reflexivity;
          intros [Hx|[]]; discriminate. }
    split; [split|].
    + intros Hin. contradiction.
    + intros (script & Hf & Hne & Ha & Hn & Hs & Hd). exfalso.
      injection Hf as ->.
      apply nonempty_true in Hne. apply differs_from_argv1_true in Hd.
      simpl in Hcond. rewrite Hne, Ha, Hn, Hs, Hd in Hcond. discriminate.
    + intros Hin. contradiction.
Qed.



(** C9.  When the child that [execCommand] spawned fails with an
    operational error that carries an exit code, the process exit code
    becomes that code, the call ends normally and nothing more is
    reported; any other failure of the child is rethrown. *)
Theorem child_failure_translation fuel ex argv s r s' cmd opts err :
  execCommand out fuel ex argv s = (r, s') ->
  In (ERunCommand cmd opts) (events_since s s') ->
  child_runCommand out cmd opts = Throw err ->
  (forall c, isOperational err = true -> exit_status err = Some c ->
     r = Ok tt /\ exit_code s' = Some c
     /\ events_since s s' = [ERunCommand cmd opts])
  /\ (isOperational err = false \/ exit_status err = None ->
      r = Throw err /\ exit_code s' = exit_code s
      /\ events_since s s' = [ERunCommand cmd opts]).
Proof.
  intros Hrun Hin Hchild.
  destruct (findNodeScript out fuel ex (isLocal argv) s) as [r0 s0] eqn:Hfind.
  assert (s0 = s) as -> by (eapply findNodeScript_pure; eauto).
  destruct r0 as [existing|e0| |].
  2-4: (rewrite (execCommand_unresolved fuel ex argv s _ Hfind eq_refl) in Hrun;
        injection Hrun as <- <-; rewrite events_since_refl in Hin;
        destruct Hin).
  rewrite (execCommand_resolved fuel ex argv s existing Hfind) in Hrun.
  destruct (truthy existing && negb (alwaysSpawn argv)
            && negb (nodeArg_truthy (nodeArg argv)) && negb (truthy (shell argv))
            && differs_from_argv1 existing s).
  { injection Hrun as <- <-. exfalso.
    destruct (noYargs argv);
      erewrite events_since_app in Hin by (simpl; rewrite <- ?app_assoc; reflexivity);
      simpl in Hin; intuition discriminate. }
  destruct (negb (truthy existing) && nodeArg_length_truthy (nodeArg argv)).
  { injection Hrun as <- <-. rewrite events_since_refl in Hin. destruct Hin. }
  cbv zeta in Hrun. set (cc := child_command existing argv s) in *.
  assert (Hev : events_since s s' = [ERunCommand cc.1 (with_cmdOpts argv cc.2)]).
  { destruct (child_runCommand out cc.1 (with_cmdOpts argv cc.2)) as [[]|e1| |];
      try (injection Hrun as <- <-; erewrite events_since_app by reflexivity;
           reflexivity).
    destruct (isOperational e1), (exit_status e1);
      injection Hrun as <- <-; erewrite events_since_app by reflexivity;
      reflexivity. }
  rewrite Hev in Hin. destruct Hin as [Heq|[]].
  injection Heq as Hc Ho. rewrite Hc, Ho in Hrun, Hev. rewrite Hchild in Hrun.
  rewrite Hev. split.
  - intros c Hop Hst. rewrite Hop, Hst in Hrun. injection Hrun as <- <-. auto.
  - intros [Hop|Hst].
    + rewrite Hop in Hrun. injection Hrun as <- <-. auto.
    + rewrite Hst in Hrun. destruct (isOperational err);
        injection Hrun as <- <-; auto.
Qed.

End ExecCommand.

Lemma takeover_iff_conditions_witness :
  let s := Demo.boot {[ "/bin/tool" := File ("#!/usr/bin/env node" +:+ JsStr.LF) ]} in
  let run := execCommand (H := Demo.posix) Demo.calm 1 (Some "/bin/tool")
               (Demo.argv_for "tool" None) s in
  In ERunMain (events_since s run.2)
  /\ argv_rest run.2 = ["/bin/tool"].
Proof.
  intros s run.
  destruct (takeover_iff_conditions (H := Demo.posix) Demo.calm 1
              (Some "/bin/tool") (Demo.argv_for "tool" None) s run.1 run.2
              (surjective_pairing run)) as [Hiff Hargv].
  assert (Hin : In ERunMain (events_since s run.2)).
  { apply Hiff. exists "/bin/tool".
    split; [vm_compute; reflexivity|].
    split; [discriminate|].
    split; [reflexivity|]. split; [reflexivity|]. split; [reflexivity|].
    vm_compute. discriminate. }
  split; [exact Hin|].
  destruct (Hargv Hin) as (script & Hf & _ & _ & Hrest & _).
  rewrite Hrest. vm_compute in Hf. injection Hf as <-. reflexivity.
Defined.


Lemma child_failure_translation_witness :
  let s := Demo.boot ∅ in
  let out := Demo.outside [] ∅ ∅ (Ok (mkDeets "")) (Throw (Demo.failure 3)) in
  let argv := Demo.argv_for "false" None in
  let run := execCommand (H := Demo.posix) out 1 None argv s in
  run.1 = Ok tt /\ exit_code run.2 = Some 3%Z
  /\ events_since s run.2 = [ERunCommand None (with_cmdOpts argv [])].
Proof.
  intros s out argv run.
  destruct (child_failure_translation (H := Demo.posix) out 1 None argv s
              run.1 run.2 None (with_cmdOpts argv []) (Demo.failure 3)
              (surjective_pairing run)) as [Hop _].
  - vm_compute. left. reflexivity.
  - reflexivity.
  - apply (Hop 3%Z); reflexivity.
Defined.

(* ===================================================================== *)
(** ** The executable of a freshly installed package                     *)
(* ===================================================================== *)

Section SelectBin.
Context {H : Host}.
Import JsStr EffFacts StrFacts.

Lemma find_spelled_index m a n :
  (forall i, a <= i < a + n -> pretty i <> m) ->
  List.find (fun i => String.eqb (pretty i) m) (seq a n) = None.
Proof.
  revert a. induction n as [|n IH]; intros a Hno; [reflexivity|].
  simpl. destruct (String.eqb_spec (pretty a) m) as [Heq|_].
  - exfalso. apply (Hno a); [lia|exact Heq].
  - apply IH. intros i Hi. apply Hno. lia.
Qed.

Lemma find_spelled_index_at i a n :
  a <= i < a + n ->
  List.find (fun j => String.eqb (pretty j) (pretty i)) (seq a n) = Some i.
Proof.
  revert a. induction n as [|n IH]; intros a Hi; [lia|].
  simpl. destruct (String.eqb_spec (pretty a) (pretty i)) as [Heq|Hne].
  - apply (inj pretty) in Heq. subst. reflexivity.
  - apply IH. assert (a <> i) by (intros ->; apply Hne; reflexivity). lia.
Qed.

Lemma array_prop_index l i b :
  l !! i = Some b -> array_prop l (Some (pretty i)) = JString b.
Proof.
  intros Hb. unfold array_prop.
  rewrite (find_spelled_index_at i 0 (length l)).
  - rewrite Hb. reflexivity.
  - apply lookup_lt_Some in Hb. lia.
Qed.

Lemma array_prop_other l m :
  (forall i, i < length l -> pretty i <> m) ->
  m <> "length" -> proto_property m = false ->
  array_prop l (Some m) = JUndefined.
Proof.
  intros Hno Hlen Hproto. unfold array_prop.
  rewrite (find_spelled_index m 0 (length l)) by (intros i Hi; apply Hno; lia).
  apply String.eqb_neq in Hlen. rewrite Hlen, Hproto. reflexivity.
Qed.

(** [select_bin] once the directory is listed and the pattern compiled. *)
Lemma select_bin_listed command bin s listing test first rest :
  fs s !! bin = Some (Dir listing) ->
  command_regexp command = Some test ->
  match platform with
  | Win32 => List.filter win32_keep listing
  | Posix => listing
  end = first :: rest ->
  select_bin command bin s =
  match js_or (array_prop (first :: rest) (List.find test (first :: rest)))
          (JString first) with
  | JString b => (Ok (path_resolve bin b), s)
  | _ => (Throw (plain_error "The path argument must be of type string"), s)
  end.
Proof.
  intros Hfs Hre Hbins. unfold select_bin, bind, catch, fs_readdir.
  rewrite Hfs. rewrite Hbins. simpl Nat.ltb. cbv iota. rewrite Hre.
  assert (H0 : array_prop (first :: rest) (Some "0") = JString first)
    by exact (array_prop_index (first :: rest) 0 first eq_refl).
  rewrite H0. destruct (js_or _ _); reflexivity.
Qed.

(** C10 (amended).  After the installation of a single package, with the
    directory listed (on Windows without [etc] and [node_modules]) and not
    empty: the first remaining entry is selected when no entry matches the
    command, and also when the matching entry's name is neither the
    decimal spelling of a position in the listing nor the name of a
    property of arrays, whichever entry it is.  When the matching entry's
    name spells a position, the entry at that position is selected. *)
Theorem first_entry_unless_name_is_a_key command bin s listing test first rest :
  fs s !! bin = Some (Dir listing) ->
  command_regexp command = Some test ->
  match platform with
  | Win32 => List.filter win32_keep listing
  | Posix => listing
  end = first :: rest ->
  (List.find test (first :: rest) = None ->
     select_bin command bin s = (Ok (path_resolve bin first), s))
  /\ (forall m, List.find test (first :: rest) = Some m ->
      (forall i, i < length (first :: rest) -> pretty i <> m) ->
      m <> "length" -> proto_property m = false ->
      select_bin command bin s = (Ok (path_resolve bin first), s))
  /\ (forall i b, List.find test (first :: rest) = Some (pretty i) ->
      (first :: rest) !! i = Some b -> b <> "" ->
      select_bin command bin s = (Ok (path_resolve bin b), s)).
Proof.
  intros Hfs Hre Hbins.
  rewrite (select_bin_listed command bin s listing test first rest Hfs Hre Hbins).
  split; [|split].
  - intros ->. reflexivity.
  - intros m -> Hno Hlen Hproto.
    rewrite (array_prop_other (first :: rest) m Hno Hlen Hproto). reflexivity.
  - intros i b -> Hb Hne.
    rewrite (array_prop_index (first :: rest) i b Hb).
    unfold js_or. simpl js_truthy. apply nonempty_true in Hne. rewrite Hne.
    reflexivity.
Qed.

End SelectBin.

(** A listing whose second entry is named [1], and the command [1]: the
    match is the key of the second element, which is selected instead of
    the first.  This refutes C10 as stated. *)
Lemma entry_named_as_index_is_selected :
  let s := Demo.boot {[ "/c/_npx/7/bin" := Dir ["foo"; "1"] ]} in
  select_bin (H := Demo.posix) "1" "/c/_npx/7/bin" s
  = (Ok "/c/_npx/7/bin/1", s).
Proof. vm_compute. reflexivity. Qed.

Lemma first_entry_unless_name_is_a_key_witness :
  let s := Demo.boot {[ "/c/_npx/7/bin" := Dir ["cowthink"; "cowsay"] ]} in
  select_bin (H := Demo.posix) "cowsay" "/c/_npx/7/bin" s
  = (Ok "/c/_npx/7/bin/cowthink", s).
Proof.
  intros s.
  destruct (first_entry_unless_name_is_a_key (H := Demo.posix)
              "cowsay" "/c/_npx/7/bin" s ["cowthink"; "cowsay"]
              (Demo.plain_name_test "cowsay") "cowthink" ["cowsay"]
              eq_refl eq_refl eq_refl) as (_ & Hname & _).
  apply (Hname "cowsay").
  - vm_compute. reflexivity.
  - intros i Hi. simpl in Hi.
    destruct i as [|[|i]]; [discriminate|discriminate|lia].
  - discriminate.
  - reflexivity.
Defined.

(* ===================================================================== *)
(** ** Which computations run the installer                              *)
(* ===================================================================== *)

Module SpawnFacts.
Import EffFacts.

Lemma spawn_count_app l1 l2 :
  spawn_count (l1 ++ l2) = spawn_count l1 + spawn_count l2.
Proof. unfold spawn_count. rewrite List.filter_app, length_app. reflexivity. Qed.

Lemma spawn_free_same {A} (m : M A) :
  (forall s r s', m s = (r, s') -> trace s' = trace s) -> spawn_free m.
Proof.
  intros Hm s r s' Hrun. exists []. rewrite app_nil_r. split; [eauto|reflexivity].
Qed.

Lemma spawn_free_pure {A} (m : M A) : pure_read m -> spawn_free m.
Proof.
  intros Hm. apply spawn_free_same. intros s r s' Hrun.
  rewrite (Hm s r s' Hrun). reflexivity.
Qed.

Lemma spawn_free_ret {A} (a : A) : spawn_free (ret a).
Proof. apply spawn_free_same. intros s r s' [= _ <-]. reflexivity. Qed.

Lemma spawn_free_throw {A} e : spawn_free (@throw A e).
Proof. apply spawn_free_same. intros s r s' [= _ <-]. reflexivity. Qed.

Lemma spawn_free_lift {A} (r0 : Res A) : spawn_free (lift r0).
Proof. apply spawn_free_same. intros s r s' [= _ <-]. reflexivity. Qed.

Lemma spawn_free_get : spawn_free get.
Proof. apply spawn_free_same. intros s r s' [= _ <-]. reflexivity. Qed.

Lemma spawn_free_modify f :
  (forall s, trace (f s) = trace s) -> spawn_free (modify f).
Proof. intros Hf. apply spawn_free_same. intros s r s' [= _ <-]. apply Hf. Qed.

Lemma spawn_free_emit e : is_spawn e = false -> spawn_free (emit e).
Proof.
  intros He s r s' [= _ <-]. exists [e]. split; [reflexivity|].
  unfold spawn_count. simpl. rewrite He. reflexivity.
Qed.

Lemma spawn_free_bind {A B} (m : M A) (k : A -> M B) :
  spawn_free m -> (forall a, spawn_free (k a)) -> spawn_free (bind m k).
Proof.
  intros Hm Hk s r s' Hrun.
  apply bind_inv in Hrun as [(a & s1 & Hm1 & Hk1)|(r0 & Hm1 & _ & _)].
  - destruct (Hm _ _ _ Hm1) as (ev1 & Ht1 & Hc1).
    destruct (Hk a _ _ _ Hk1) as (ev2 & Ht2 & Hc2).
    exists (ev1 ++ ev2). rewrite Ht2, Ht1, <- app_assoc, spawn_count_app.
    split; [reflexivity|lia].
  - eapply Hm; eauto.
Qed.

Lemma spawn_free_catch {A} (m : M A) h :
  spawn_free m -> (forall e, spawn_free (h e)) -> spawn_free (catch m h).
Proof.
  intros Hm Hh s r s' Hrun.
  apply catch_inv in Hrun as [(e & s1 & Hm1 & Hh1)|(Hm1 & _)].
  - destruct (Hm _ _ _ Hm1) as (ev1 & Ht1 & Hc1).
    destruct (Hh e _ _ _ Hh1) as (ev2 & Ht2 & Hc2).
    exists (ev1 ++ ev2). rewrite Ht2, Ht1, <- app_assoc, spawn_count_app.
    split; [reflexivity|lia].
  - eapply Hm; eauto.
Qed.

Lemma spawn_free_all2 {A B} (m1 : M A) (m2 : M B) :
  spawn_free m1 -> spawn_free m2 -> spawn_free (all2 m1 m2).
Proof.
  intros H1 H2 s r s'. unfold all2.
  destruct (m1 s) as [r1 s1] eqn:E1.
  destruct (H1 _ _ _ E1) as (ev1 & Ht1 & Hc1).
  assert (Hboth : forall r2 s2, m2 s1 = (r2, s2) ->
            exists evs, trace s2 = trace s ++ evs /\ spawn_count evs = 0).
  { intros r2 s2 E2. destruct (H2 _ _ _ E2) as (ev2 & Ht2 & Hc2).
    exists (ev1 ++ ev2). rewrite Ht2, Ht1, <- app_assoc, spawn_count_app.
    split; [reflexivity|lia]. }
  destruct r1 as [a|e| |].
  3: { intros [= _ <-]. eauto. }
  all: destruct (m2 s1) as [r2 s2] eqn:E2;
    destruct r2 as [b|e2| |]; intros [= _ <-]; eapply Hboth; reflexivity.
Qed.

Lemma spawn_free_when b m : spawn_free m -> spawn_free (when b m).
Proof. destruct b; simpl; auto using spawn_free_ret. Qed.

Lemma spawn_free_fails {A} c msg (m : M A) :
  spawn_free m -> fails_when_installing c msg m.
Proof.
  intros Hm s r s' Hrun. destruct (Hm _ _ _ Hrun) as (evs & Ht & Hc).
  exists evs. auto.
Qed.

(** The installer ran in the first part, which then rejected, or it may
    still run in the second. *)
Lemma fails_bind {A B} c msg (m : M A) (k : A -> M B) :
  fails_when_installing c msg m ->
  (forall a, fails_when_installing c msg (k a)) ->
  fails_when_installing c msg (bind m k).
Proof.
  intros Hm Hk s r s' Hrun.
  apply bind_inv in Hrun as [(a & s1 & Hm1 & Hk1)|(r0 & Hm1 & Hok & ->)].
  - destruct (Hm _ _ _ Hm1) as (ev1 & Ht1 & [Hc1|(_ & e & He & _)]);
      [|discriminate].
    destruct (Hk a _ _ _ Hk1) as (ev2 & Ht2 & Hc2).
    exists (ev1 ++ ev2). rewrite Ht2, Ht1, <- app_assoc, spawn_count_app, Hc1.
    split; [reflexivity|exact Hc2].
  - destruct (Hm _ _ _ Hm1) as (ev1 & Ht1 & [Hc1|(Hc1 & e & -> & He)]).
    + exists ev1. auto.
    + exists ev1. split; [exact Ht1|]. right. split; [exact Hc1|].
      exists e. auto.
Qed.

End SpawnFacts.

(* ===================================================================== *)
(** ** Provisioning                                                      *)
(* ===================================================================== *)

Section SpawnFree.
Context {H : Host} (out : Outside).
Import JsStr EffFacts SpawnFacts.

Ltac one_event := intros [= _ <-]; eexists [_]; split; reflexivity.

Lemma spawn_free_stat p : spawn_free (fs_stat p).
Proof.
  apply spawn_free_pure. intros s r s'. unfold fs_stat.
  destruct (fs s !! p); intros [= _ <-]; reflexivity.
Qed.

Lemma spawn_free_readdir p : spawn_free (fs_readdir p).
Proof.
  apply spawn_free_pure. intros s r s'. unfold fs_readdir.
  destruct (fs s !! p) as [[c|l]|]; intros [= _ <-]; reflexivity.
Qed.

Lemma spawn_free_mkdirSync p : spawn_free (fs_mkdirSync p).
Proof.
  intros s r s'. unfold fs_mkdirSync. cbv zeta.
  destruct (fs (log (EMkdir p) s) !! p) as [[c|l]|]; one_event.
Qed.

Lemma spawn_free_rmdirSync p : spawn_free (fs_rmdirSync out p).
Proof.
  intros s r s'. unfold fs_rmdirSync. cbv zeta.
  destruct (refused out p (fs (log (ERmdir p) s))); [one_event|].
  destruct (fs (log (ERmdir p) s) !! p); one_event.
Qed.

Lemma spawn_free_rimraf p : spawn_free (rimraf out p).
Proof.
  intros s r s'. unfold rimraf. cbv zeta.
  destruct (refused out p (fs (log (ERimraf p) s))); one_event.
Qed.

Lemma spawn_free_on_exit p : spawn_free (process_on_exit p).
Proof. intros s r s'. unfold process_on_exit. one_event. Qed.

Lemma spawn_free_exit_listener p : spawn_free (exit_listener out p).
Proof.
  apply spawn_free_catch; [apply spawn_free_rmdirSync|].
  intros e. apply spawn_free_ret.
Qed.

Lemma spawn_free_run_listeners l : spawn_free (run_listeners out l).
Proof.
  induction l as [|p l IH]; simpl; [apply spawn_free_ret|].
  apply spawn_free_bind; [apply spawn_free_exit_listener|auto].
Qed.

Lemma spawn_free_emit_exit : spawn_free (emit_exit out).
Proof.
  apply spawn_free_bind; [apply spawn_free_get|].
  intros s. apply spawn_free_run_listeners.
Qed.

Lemma spawn_free_process_exit {A} c : spawn_free (@process_exit H out A c).
Proof.
  unfold process_exit.
  apply spawn_free_bind; [apply spawn_free_modify; reflexivity|intros _].
  apply spawn_free_bind; [apply spawn_free_emit_exit|intros _].
  apply spawn_free_lift.
Qed.

Lemma spawn_free_prepend_PATH d : spawn_free (prepend_PATH d).
Proof. apply spawn_free_modify. reflexivity. Qed.

Lemma spawn_free_which cmd : spawn_free (which out cmd).
Proof.
  intros s r s'. rewrite which_result. one_event.
Qed.

Lemma spawn_free_exec cmd args : spawn_free (exec out cmd args).
Proof.
  apply spawn_free_bind; [apply spawn_free_emit; reflexivity|intros _].
  apply spawn_free_lift.
Qed.

Lemma spawn_free_runCommand cmd opts : spawn_free (runCommand out cmd opts).
Proof.
  apply spawn_free_bind; [apply spawn_free_emit; reflexivity|intros _].
  apply spawn_free_lift.
Qed.

Lemma spawn_free_findNodeScript fuel e l :
  spawn_free (findNodeScript out fuel e l).
Proof. apply spawn_free_pure, findNodeScript_pure. Qed.

Lemma spawn_free_getNpmCache fuel opts : spawn_free (getNpmCache out fuel opts).
Proof.
  unfold getNpmCache.
  apply spawn_free_bind; [apply spawn_free_findNodeScript|intros npmPath].
  apply spawn_free_bind; [apply spawn_free_get|intros s].
  apply spawn_free_bind; [|intros c; apply spawn_free_ret].
  destruct (truthy npmPath); apply spawn_free_exec.
Qed.

Lemma spawn_free_getEnv fuel opts : spawn_free (getEnv out fuel opts).
Proof.
  unfold getEnv.
  apply spawn_free_bind; [apply spawn_free_findNodeScript|intros npmPath].
  apply spawn_free_bind; [apply spawn_free_get|intros s].
  apply spawn_free_bind; [|intros c; apply spawn_free_ret].
  destruct (truthy npmPath); apply spawn_free_exec.
Qed.

Lemma spawn_free_getExistingPath cmd opts :
  spawn_free (getExistingPath out cmd opts).
Proof.
  unfold getExistingPath.
  destruct (isLocal opts); [apply spawn_free_ret|].
  destruct (_ || _ || _); [apply spawn_free_ret|].
  apply spawn_free_catch.
  - apply spawn_free_bind; [apply spawn_free_which|intros p; apply spawn_free_ret].
  - intros e. destruct (is_ENOENT e); [|apply spawn_free_throw].
    destruct (install_disabled opts); [apply spawn_free_throw|apply spawn_free_ret].
Qed.

Lemma spawn_free_use_local_bin : spawn_free (use_local_bin out).
Proof.
  unfold use_local_bin, localBinPath.
  apply spawn_free_bind.
  - apply spawn_free_bind; [apply spawn_free_lift|intros p; apply spawn_free_ret].
  - intros local. apply spawn_free_bind; [|intros _; apply spawn_free_ret].
    apply spawn_free_when, spawn_free_prepend_PATH.
Qed.

Lemma spawn_free_select_bin cmd bin : spawn_free (select_bin cmd bin).
Proof.
  unfold select_bin. apply spawn_free_bind.
  - apply spawn_free_catch; [apply spawn_free_readdir|].
    intros e. destruct (is_ENOENT e); apply spawn_free_throw.
  - intros listing. destruct (Nat.ltb _ 1); [apply spawn_free_throw|].
    destruct (command_regexp cmd); [|apply spawn_free_throw].
    destruct (js_or _ _); first [apply spawn_free_ret|apply spawn_free_throw].
Qed.

Lemma spawn_free_execCommand fuel ex argv :
  spawn_free (execCommand out fuel ex argv).
Proof.
  unfold execCommand.
  apply spawn_free_bind; [apply spawn_free_findNodeScript|intros existing].
  apply spawn_free_bind; [apply spawn_free_get|intros s].
  destruct (_ && _ && _ && _ && _).
  - apply spawn_free_bind;
      [apply spawn_free_when, spawn_free_emit; reflexivity|intros _].
    apply spawn_free_bind; [apply spawn_free_modify; reflexivity|intros _].
    apply spawn_free_emit; reflexivity.
  - destruct (_ && _); [apply spawn_free_throw|].
    destruct (child_command existing argv s) as [cmd cmdOpts].
    apply spawn_free_catch; [apply spawn_free_runCommand|].
    intros e. destruct (isOperational e), (exit_status e);
      first [apply spawn_free_modify; reflexivity|apply spawn_free_throw].
Qed.

End SpawnFree.

Section InstallFailure.
Context {H : Host} (out : Outside).
Import JsStr EffFacts SpawnFacts.

Variables (err : Error) (c : Z).
Hypothesis installer_fails :
  forall cmd args io f, exists f', child_spawn out cmd args io f = (Throw err, f').
Hypothesis installer_status : exit_status err = Some c.

Lemma installPackages_fails fuel specs prefix opts :
  fails_when_installing c (msg_install_failed specs c)
    (installPackages out fuel specs prefix opts).
Proof.
  unfold installPackages.
  apply fails_bind;
    [apply spawn_free_fails, spawn_free_findNodeScript|intros npmPath].
  apply fails_bind; [apply spawn_free_fails, spawn_free_get|intros s0].
  destruct (if truthy npmPath then _ else _) as [cmd args].
  intros s r s'. unfold then2, spawn. cbv zeta.
  destruct (installer_fails
              match platform with
              | Posix => cmd
              | Win32 => option_map (fun p => escapeArg p true) cmd
              end args (install_stdio opts)
              (fs (log (ESpawn match platform with
                               | Posix => cmd
                               | Win32 => option_map (fun p => escapeArg p true) cmd
                               end args (install_stdio opts)) s)))
    as [f' Hf].
  rewrite Hf, installer_status. unfold throw. intros [= <- <-].
  eexists [_]. split; [reflexivity|]. right. split; [reflexivity|].
  eexists. split; [reflexivity|]. split; [exact installer_status|reflexivity].
Qed.

Lemma ensurePackages_fails fuel specs opts :
  fails_when_installing c (msg_install_failed specs c)
    (ensurePackages out fuel specs opts).
Proof.
  unfold ensurePackages. apply fails_bind.
  { apply spawn_free_fails.
    destruct (cache opts) as [d|];
      [destruct (nonempty d); [apply spawn_free_ret|]|];
      apply spawn_free_getNpmCache. }
  intros cachedir.
  apply fails_bind; [apply spawn_free_fails, spawn_free_mkdirSync|intros _].
  apply fails_bind; [apply spawn_free_fails, spawn_free_on_exit|intros _].
  apply fails_bind; [apply spawn_free_fails, spawn_free_rimraf|intros _].
  apply fails_bind; [apply installPackages_fails|intros info].
  apply fails_bind; [apply spawn_free_fails, spawn_free_prepend_PATH|intros _].
  apply spawn_free_fails.
  destruct info; first [apply spawn_free_ret|apply spawn_free_throw].
Qed.

Lemma provision_fails fuel existing argv :
  fails_when_installing c (msg_install_failed (package argv) c)
    (provision out fuel existing argv).
Proof.
  unfold provision. apply fails_bind.
  { apply spawn_free_fails. destruct (no argv); [|apply spawn_free_ret].
    apply spawn_free_bind; [apply spawn_free_emit; reflexivity|intros _].
    apply spawn_free_process_exit. }
  intros _. apply fails_bind.
  { apply spawn_free_fails. destruct (negb (yes argv)); [|apply spawn_free_ret].
    apply spawn_free_bind; [apply spawn_free_emit; reflexivity|intros _].
    apply spawn_free_bind; [apply spawn_free_lift|intros allow].
    destruct (negb allow); [|apply spawn_free_ret].
    apply spawn_free_bind; [apply spawn_free_emit; reflexivity|intros _].
    apply spawn_free_process_exit. }
  intros _. apply fails_bind; [apply ensurePackages_fails|intros results].
  apply fails_bind.
  { apply spawn_free_fails.
    destruct (info_added results), (info_updated results);
      try apply spawn_free_ret.
    apply spawn_free_when, spawn_free_emit. reflexivity. }
  intros _. apply spawn_free_fails.
  destruct (_ && _ && _ && _); [|apply spawn_free_ret].
  apply spawn_free_bind; [apply spawn_free_select_bin|intros b].
  apply spawn_free_ret.
Qed.

Lemma npx_body_fails fuel argv :
  fails_when_installing c (msg_install_failed (package argv) c)
    (npx_body out fuel argv).
Proof.
  unfold npx_body.
  apply fails_bind; [apply spawn_free_fails, spawn_free_use_local_bin|intros local].
  apply fails_bind.
  { apply spawn_free_fails, spawn_free_all2.
    - destruct (command argv) as [cmd|]; [|apply spawn_free_ret].
      destruct (nonempty cmd); [apply spawn_free_getExistingPath|apply spawn_free_ret].
    - destruct (_ && _); [|apply spawn_free_ret].
      apply spawn_free_bind; [apply spawn_free_getEnv|intros e; apply spawn_free_ret]. }
  intros args. apply fails_bind.
  { apply spawn_free_fails. destruct (args.2); [|apply spawn_free_ret].
    apply spawn_free_modify. reflexivity. }
  intros _. apply fails_bind.
  { destruct (_ || _); [apply provision_fails|].
    apply spawn_free_fails, spawn_free_ret. }
  intros existing. apply spawn_free_fails, spawn_free_execCommand.
Qed.

(** The installer's failure comes back with the new message. *)
Lemma installPackages_rethrows fuel specs prefix opts s r s' :
  installPackages out fuel specs prefix opts s = (r, s') ->
  spawn_count (events_since s s') <> 0 ->
  r = Throw (with_message err (msg_install_failed specs c)).
Proof.
  unfold installPackages. intros Hrun Hspawn.
  apply bind_inv in Hrun as [(npmPath & s1 & Hfind & Hrun)|(r0 & Hfind & _ & _)].
  2:{ exfalso. apply Hspawn. apply findNodeScript_pure in Hfind as ->.
      apply (f_equal spawn_count (events_since_refl s)). }
  apply findNodeScript_pure in Hfind as ->.
  unfold bind at 1, get in Hrun.
  destruct (if truthy npmPath then _ else _) as [cmd args].
  unfold then2, spawn in Hrun. cbv zeta in Hrun.
  destruct (installer_fails
              match platform with
              | Posix => cmd
              | Win32 => option_map (fun p => escapeArg p true) cmd
              end args (install_stdio opts)
              (fs (log (ESpawn match platform with
                               | Posix => cmd
                               | Win32 => option_map (fun p => escapeArg p true) cmd
                               end args (install_stdio opts)) s)))
    as [f' Hf].
  rewrite Hf, installer_status in Hrun. unfold throw in Hrun.
  injection Hrun as <- _. reflexivity.
Qed.

(** C7.  With a package manager that exits with the non-zero code [c]:
    a run of the installer is rejected with the installer's error under
    the message that names the requested packages and the code; and
    whenever a run of [npx] reaches the installation, that message is
    reported, the installer has been run exactly once, and [c] is the
    exit code of the process. *)
Theorem install_failure_sets_exit_code fuel argv s :
  (forall specs prefix r s',
      installPackages out fuel specs prefix argv s = (r, s') ->
      spawn_count (events_since s s') <> 0 ->
      r = Throw (with_message err (msg_install_failed specs c))
      /\ exit_status (with_message err (msg_install_failed specs c)) = Some c)
  /\ (forall r s',
      npx out fuel argv s = (r, s') ->
      spawn_count (events_since s s') <> 0 ->
      r = Ok tt
      /\ exit_code s' = Some c
      /\ spawn_count (events_since s s') = 1
      /\ (q argv = false ->
          In (EError (msg_install_failed (package argv) c)) (events_since s s'))).
Proof.
  split.
  { intros specs prefix r s' Hrun Hspawn. split; [|exact installer_status].
    eapply installPackages_rethrows; eauto. }
  unfold npx. intros r s' Hrun Hspawn.
  destruct (shell_auto_fallback argv) as [sh|].
  { exfalso. apply Hspawn. unfold bind, get in Hrun.
    destruct (auto_fallback sh (env s !! "SHELL") argv) as [fb|];
      [destruct (nonempty fb)|];
      injection Hrun as <- <-;
      first [apply (f_equal spawn_count (events_since_refl s))
            |erewrite events_since_app by reflexivity; reflexivity]. }
  destruct (negb (truthy (call argv)) && negb (truthy (command argv))).
  { exfalso. apply Hspawn.
    destruct (q argv); injection Hrun as <- <-;
      first [apply (f_equal spawn_count (events_since_refl s))
            |erewrite events_since_app
               by (simpl; rewrite <- ?app_assoc; reflexivity);
             reflexivity]. }
  unfold catch in Hrun.
  destruct (npx_body out fuel argv s) as [r1 s1] eqn:Hbody.
  destruct (npx_body_fails fuel argv s r1 s1 Hbody)
    as (evs & Ht & [Hc|(Hc & e & -> & Hst & Hmsg)]).
  - exfalso. apply Hspawn.
    destruct r1 as [[]|e| |];
      try (injection Hrun as <- <-; rewrite (events_since_app _ _ _ Ht); exact Hc).
    unfold bind, when, emit, modify, ret in Hrun.
    destruct (negb (q argv)); injection Hrun as <- <-;
      erewrite events_since_app
        by (simpl; rewrite Ht, <- ?app_assoc; reflexivity);
      rewrite ?spawn_count_app, Hc; reflexivity.
  - unfold bind, when, emit, modify, ret in Hrun. rewrite Hst, Hmsg in Hrun.
    destruct (q argv) eqn:Hq; simpl in Hrun; injection Hrun as <- <-.
    + rewrite (events_since_app s (set_exit_code c s1) evs Ht).
      repeat split; auto. discriminate.
    + erewrite events_since_app
        by (simpl; rewrite Ht, <- ?app_assoc; reflexivity).
      rewrite spawn_count_app, Hc.
      repeat split; auto. intros _. apply in_or_app. right. left. reflexivity.
Qed.

End InstallFailure.

Lemma install_failure_sets_exit_code_witness :
  let out := Demo.outside [] ∅ ∅ (Throw (Demo.failure 2)) (Ok tt) in
  let argv := Demo.argv_for "cowsay" (Some "/cache") in
  let run := npx (H := Demo.posix) out 1 argv (Demo.boot ∅) in
  run.1 = Ok tt
  /\ exit_code run.2 = Some 2%Z
  /\ spawn_count (events_since (Demo.boot ∅) run.2) = 1
  /\ In (EError "Install for cowsay failed with code 2")
        (events_since (Demo.boot ∅) run.2).
Proof.
  intros out argv run.
  destruct (install_failure_sets_exit_code (H := Demo.posix) out
              (Demo.failure 2) 2) with (fuel := 1) (argv := argv)
              (s := Demo.boot ∅) as [_ Hnpx].
  - intros cmd args io f. eexists. reflexivity.
  - reflexivity.
  - destruct (Hnpx run.1 run.2 (surjective_pairing run)) as (Hr & Hc & Hn & Hm).
    + vm_compute. discriminate.
    + split; [exact Hr|]. split; [exact Hc|]. split; [exact Hn|].
      apply Hm. reflexivity.
Defined.

Section EnsurePackages.
Context {H : Host} (out : Outside).
Import JsStr EffFacts SpawnFacts.

Lemma keeps_env_bind {A B} (m : M A) (k : A -> M B) :
  keeps_env m -> (forall a, keeps_env (k a)) -> keeps_env (bind m k).
Proof.
  intros Hm Hk s r s' Hrun.
  apply bind_inv in Hrun as [(a & s1 & Hm1 & Hk1)|(r0 & Hm1 & _ & _)].
  - destruct (Hm _ _ _ Hm1) as [He1 Ho1]. destruct (Hk a _ _ _ Hk1) as [He2 Ho2].
    split; congruence.
  - eapply Hm; eauto.
Qed.

Lemma keeps_env_pure {A} (m : M A) : pure_read m -> keeps_env m.
Proof. intros Hm s r s' Hrun. rewrite (Hm s r s' Hrun). auto. Qed.

Lemma keeps_env_exec cmd args : keeps_env (exec out cmd args).
Proof. intros s r s'. unfold exec, bind, emit, modify, lift. intros [= _ <-]. auto. Qed.

Lemma keeps_env_getNpmCache fuel opts : keeps_env (getNpmCache out fuel opts).
Proof.
  unfold getNpmCache.
  apply keeps_env_bind; [apply keeps_env_pure, findNodeScript_pure|intros npmPath].
  apply keeps_env_bind; [intros s r s' [= _ <-]; auto|intros s0].
  apply keeps_env_bind; [|intros cachedir s r s' [= _ <-]; auto].
  destruct (truthy npmPath); apply keeps_env_exec.
Qed.

(** The first stage of [ensurePackages]: the cache directory. *)
Lemma cache_stage_effect fuel opts s r s1 :
  match cache opts with
  | Some d => if nonempty d then ret d else getNpmCache out fuel opts
  | None => getNpmCache out fuel opts
  end s = (r, s1) ->
  env s1 = env s /\ on_exit s1 = on_exit s
  /\ exists evs, trace s1 = trace s ++ evs /\ spawn_count evs = 0.
Proof.
  intros Hrun.
  assert (Hcase : getNpmCache out fuel opts s = (r, s1) \/ s1 = s).
  { destruct (cache opts) as [d|]; [destruct (nonempty d)|]; auto.
    injection Hrun as _ <-. auto. }
  destruct Hcase as [Hnpm| ->].
  - destruct (keeps_env_getNpmCache fuel opts s r s1 Hnpm) as [He Ho].
    split; [exact He|]. split; [exact Ho|].
    apply (spawn_free_getNpmCache out fuel opts s r s1 Hnpm).
  - split; [reflexivity|]. split; [reflexivity|].
    exists []. rewrite app_nil_r. auto.
Qed.

Lemma installPackages_effect fuel specs prefix opts s r s' :
  installPackages out fuel specs prefix opts s = (r, s') ->
  env s' = env s /\ on_exit s' = on_exit s
  /\ ((s' = s /\ is_ok r = false)
      \/ exists cmd args, trace s' = trace s ++ [ESpawn cmd args (install_stdio opts)]).
Proof.
  unfold installPackages. intros Hrun.
  apply bind_inv in Hrun as [(npmPath & s1 & Hfind & Hrun)|(r0 & Hfind & Hok & ->)].
  2:{ apply findNodeScript_pure in Hfind as ->.
      split; [reflexivity|]. split; [reflexivity|]. left.
      split; [reflexivity|]. destruct r0; try discriminate; reflexivity. }
  apply findNodeScript_pure in Hfind as ->.
  unfold bind at 1, get in Hrun.
  destruct (if truthy npmPath then _ else _) as [cmd args].
  unfold then2, spawn in Hrun. cbv zeta in Hrun.
  destruct (child_spawn out _ args (install_stdio opts) _) as [dr f].
  assert (Hs : env s' = env s /\ on_exit s' = on_exit s
               /\ trace s' = trace s ++ [ESpawn
                    match platform with
                    | Posix => cmd
                    | Win32 => option_map (fun p => escapeArg p true) cmd
                    end args (install_stdio opts)]).
  { destruct dr as [d|e| |]; unfold ret, throw in Hrun;
      injection Hrun as _ <-; auto. }
  destruct Hs as (He & Ho & Ht). split; [exact He|]. split; [exact Ho|].
  right. eauto.
Qed.

(** Everything [ensurePackages] can do, stage by stage. *)
Lemma ensurePackages_effect fuel specs opts s r s' :
  ensurePackages out fuel specs opts s = (r, s') ->
  exists s1 evs0,
    env s1 = env s /\ on_exit s1 = on_exit s
    /\ trace s1 = trace s ++ evs0 /\ spawn_count evs0 = 0
    /\ ((s' = s1 /\ is_ok r = false)
        \/ exists cachedir tail,
             let prefix := prefix_of_cache cachedir in
             let bins := bins_of_prefix prefix in
             trace s' = trace s1 ++ tail
             /\ ((tail = [EMkdir prefix] /\ is_ok r = false)
                 \/ (tail = [EMkdir prefix; EOnExit prefix; ERimraf bins]
                     /\ is_ok r = false /\ env s' = env s1
                     /\ on_exit s' = on_exit s1 ++ [prefix])
                 \/ (exists cmd args,
                       tail = [EMkdir prefix; EOnExit prefix; ERimraf bins;
                               ESpawn cmd args (install_stdio opts)]
                       /\ on_exit s' = on_exit s1 ++ [prefix]
                       /\ ((is_ok r = false /\ env s' = env s1)
                           \/ (env s' = <["PATH" :=
                                    bins +:+ String path_delimiter ""
                                    +:+ PATH_text s1]> (env s1)
                               /\ ((exists info,
                                      r = Ok info /\ info_prefix info = prefix
                                      /\ info_bin info = bins)
                                   \/ exists what,
                                        r = Throw (plain_error
                                                     (msg_no_property what)))))))).
Proof.
  unfold ensurePackages. intros Hrun.
  apply bind_inv in Hrun as [(cachedir & s1 & Hcache & Hrun)|(r0 & Hcache & Hok & ->)].
  2:{ destruct (cache_stage_effect fuel opts s r0 s' Hcache) as (He & Ho & evs & Ht & Hc).
      exists s', evs. repeat (split; [assumption|]). left.
      split; [reflexivity|]. destruct r0; try discriminate; reflexivity. }
  destruct (cache_stage_effect fuel opts s _ s1 Hcache) as (He & Ho & evs & Ht & Hc).
  exists s1, evs. repeat (split; [assumption|]). right.
  exists cachedir. cbv zeta.
  set (prefix := prefix_of_cache cachedir) in *.
  set (bins := bins_of_prefix prefix) in *.
  (* mkdir *)
  unfold bind at 1, fs_mkdirSync in Hrun. cbv zeta in Hrun.
  change (fs (log (EMkdir prefix) s1)) with (fs s1) in Hrun.
  destruct (fs s1 !! prefix) as [[content|entries]|] eqn:Hp.
  { injection Hrun as <- <-. exists [EMkdir prefix]. split; [reflexivity|].
    left. auto. }
  all: unfold bind at 1, process_on_exit in Hrun;
    unfold bind at 1, rimraf in Hrun; cbv zeta in Hrun;
    lazymatch type of Hrun with
    | context [refused out ?b ?f] => destruct (refused out b f)
    end;
    [ injection Hrun as <- <-;
      exists [EMkdir prefix; EOnExit prefix; ERimraf bins];
      split; [simpl; rewrite <- !app_assoc; reflexivity|];
      right; left; repeat split; reflexivity
    | ].
  all: apply bind_inv in Hrun
         as [(info & s2 & Hinst & Hrun)|(r0 & Hinst & Hok & ->)];
    destruct (installPackages_effect _ _ _ _ _ _ _ Hinst)
      as (He2 & Ho2 & [[-> Hok2]|(cmd & args & Ht2)]);
    try discriminate.
  (* the installation did not settle with a value *)
  2,3,5,6:
    try (exists [EMkdir prefix; EOnExit prefix; ERimraf bins];
         split; [simpl; rewrite <- !app_assoc; reflexivity|];
         right; left; split; [reflexivity|];
         split; [destruct r0; try discriminate; reflexivity|];
         split; reflexivity);
    try (exists [EMkdir prefix; EOnExit prefix; ERimraf bins;
                 ESpawn cmd args (install_stdio opts)];
         split; [rewrite Ht2; simpl; rewrite <- !app_assoc; reflexivity|];
         right; right; exists cmd, args; split; [reflexivity|];
         split; [rewrite Ho2; reflexivity|];
         left; split; [destruct r0; try discriminate; reflexivity|];
         rewrite He2; reflexivity).
  all: unfold bind, prepend_PATH, modify in Hrun;
    destruct info as [|what|report]; unfold ret, throw in Hrun;
    injection Hrun as <- <-;
    exists [EMkdir prefix; EOnExit prefix; ERimraf bins;
            ESpawn cmd args (install_stdio opts)];
    (split; [simpl; rewrite Ht2; simpl; rewrite <- !app_assoc; reflexivity|]);
    right; right; exists cmd, args; (split; [reflexivity|]);
    (split; [simpl; rewrite Ho2; reflexivity|]);
    right;
    (split; [simpl; rewrite He2; unfold PATH_text; rewrite He2; reflexivity|]);
    first [left; eexists; repeat split; reflexivity
          |right; eexists; reflexivity].
Qed.

End EnsurePackages.

(* ===================================================================== *)
(** ** The exit listener                                                 *)
(* ===================================================================== *)

Section Cleanup.
Context {H : Host} (out : Outside).
Import JsStr EffFacts SpawnFacts.

Lemma under_self p : under p p = true.
Proof. unfold under. rewrite String.eqb_refl. reflexivity. Qed.

Lemma remove_tree_self p f : remove_tree p f !! p = None.
Proof.
  unfold remove_tree. apply map_lookup_filter_None. right.
  intros x _. simpl. rewrite under_self. discriminate.
Qed.

Lemma remove_tree_absent p f k : f !! k = None -> remove_tree p f !! k = None.
Proof.
  intros Hk. unfold remove_tree. apply map_lookup_filter_None. left. exact Hk.
Qed.

Lemma not_refused p f :
  (forall k, In k (sticky out) -> under p k = false) -> refused out p f = false.
Proof.
  intros Hfree. unfold refused.
  induction (sticky out) as [|k l IH]; [reflexivity|]. simpl.
  rewrite (Hfree k) by (left; reflexivity). simpl.
  apply IH. intros k' Hk'. apply Hfree. right. exact Hk'.
Qed.

(** The listener always returns; it removes the tree unless the system
    refuses, and it creates nothing. *)
Lemma exit_listener_effect p s :
  exists s1,
    exit_listener out p s = (Ok tt, s1)
    /\ on_exit s1 = on_exit s
    /\ (forall k, fs s !! k = None -> fs s1 !! k = None)
    /\ (refused out p (fs s) = false -> fs s1 !! p = None).
Proof.
  unfold exit_listener, catch, fs_rmdirSync. cbv zeta.
  change (fs (log (ERmdir p) s)) with (fs s).
  destruct (refused out p (fs s)) eqn:Href.
  - eexists. split; [reflexivity|]. split; [reflexivity|].
    split; [auto|discriminate].
  - destruct (fs s !! p) eqn:Hp.
    + eexists. split; [reflexivity|]. split; [reflexivity|]. simpl.
      split; [intros k Hk; apply remove_tree_absent, Hk|].
      intros _. apply remove_tree_self.
    + eexists. split; [reflexivity|]. split; [reflexivity|].
      split; [auto|]. intros _. exact Hp.
Qed.

Lemma run_listeners_effect l s :
  exists s1,
    run_listeners out l s = (Ok tt, s1)
    /\ (forall k, fs s !! k = None -> fs s1 !! k = None)
    /\ (forall p, In p l ->
          (forall k, In k (sticky out) -> under p k = false) ->
          fs s1 !! p = None).
Proof.
  revert s. induction l as [|p l IH]; intros s; simpl.
  - exists s. split; [reflexivity|]. split; [auto|intros p []].
  - destruct (exit_listener_effect p s) as (s1 & Hrun & _ & Hmono & Hgone).
    destruct (IH s1) as (s2 & Hrest & Hmono2 & Hgone2).
    exists s2. split; [unfold bind; rewrite Hrun; exact Hrest|].
    split; [auto|].
    intros p' [<-|Hin] Hfree.
    + apply Hmono2, Hgone, not_refused, Hfree.
    + apply Hgone2; assumption.
Qed.

(** C1 (amended).  In every run of [ensurePackages] that reaches the
    installer, the prefix [<cache>/_npx/<pid>] has been created and the
    exit listener that removes it has been registered before the
    installer is started, and the installer is started once.  The
    listener never throws.  Once the process has exited the prefix is
    gone, whatever the outcome of the installation, unless the system
    refuses the removal. *)
Theorem cleanup_registered_before_install fuel specs opts s r s' :
  ensurePackages out fuel specs opts s = (r, s') ->
  (forall p s0, exists s1, exit_listener out p s0 = (Ok tt, s1))
  /\ (spawn_count (events_since s s') <> 0 ->
      exists cachedir pre cmd args io,
        let prefix := prefix_of_cache cachedir in
        events_since s s'
        = pre ++ [EMkdir prefix; EOnExit prefix;
                  ERimraf (bins_of_prefix prefix); ESpawn cmd args io]
        /\ spawn_count pre = 0
        /\ In prefix (on_exit s')
        /\ ((forall k, In k (sticky out) -> under prefix k = false) ->
            exists s2, emit_exit out s' = (Ok tt, s2)
                       /\ fs s2 !! prefix = None)).
Proof.
  intros Hrun. split.
  { intros p s0. destruct (exit_listener_effect p s0) as (s1 & Hl & _). eauto. }
  intros Hspawn.
  destruct (ensurePackages_effect out fuel specs opts s r s' Hrun)
    as (s1 & evs0 & He & Ho & Ht & Hc & Hcases).
  destruct Hcases as [[-> _]|(cachedir & tail & Htail & Hcases)].
  { exfalso. apply Hspawn. rewrite (events_since_app _ _ _ Ht). exact Hc. }
  cbv zeta in Htail, Hcases.
  assert (Hev : events_since s s' = evs0 ++ tail).
  { apply events_since_app. rewrite Htail, Ht, <- app_assoc. reflexivity. }
  destruct Hcases as [[-> _]|[(-> & _)|(cmd & args & -> & Hexit & _)]].
  1,2: exfalso; apply Hspawn; rewrite Hev, spawn_count_app, Hc; reflexivity.
  exists cachedir, evs0, cmd, args, (install_stdio opts). cbv zeta.
  split; [exact Hev|]. split; [exact Hc|].
  assert (Hin : In (prefix_of_cache cachedir) (on_exit s')).
  { rewrite Hexit. apply in_or_app. right. left. reflexivity. }
  split; [exact Hin|].
  intros Hfree.
  destruct (run_listeners_effect (on_exit s') s') as (s2 & Hl & _ & Hgone).
  exists s2. split; [unfold emit_exit, bind, get; exact Hl|].
  apply Hgone; assumption.
Qed.

End Cleanup.

(** The installer leaves a directory that cannot be removed and fails:
    the listener swallows the refusal and the prefix is still there after
    the process has exited.  This refutes C1 as stated. *)
Lemma refused_removal_leaves_prefix :
  let out := Demo.outside ["/cache/_npx/7/store"] ∅
               {[ "/cache/_npx/7/store" := Dir [] ]}
               (Throw (Demo.failure 1)) (Ok tt) in
  let argv := Demo.argv_for "cowsay" (Some "/cache") in
  let installed := ensurePackages (H := Demo.posix) out 1 ["cowsay"] argv (Demo.boot ∅) in
  let ended := run (H := Demo.posix) out 1 argv (Demo.boot ∅) in
  (exists e, installed.1 = Throw e)
  /\ spawn_count (trace installed.2) = 1
  /\ ended.1 = Ok tt
  /\ In (ERmdir "/cache/_npx/7") (trace ended.2)
  /\ fs ended.2 !! "/cache/_npx/7" = Some (Dir []).
Proof.
  vm_compute. split; [eexists; reflexivity|]. repeat split; auto 10.
Qed.

Lemma cleanup_registered_before_install_witness :
  let out := Demo.outside [] ∅ {[ "/cache/_npx/7/store" := Dir [] ]}
               (Throw (Demo.failure 1)) (Ok tt) in
  let argv := Demo.argv_for "cowsay" (Some "/cache") in
  let s := Demo.boot ∅ in
  let installed := ensurePackages (H := Demo.posix) out 1 ["cowsay"] argv s in
  exists cachedir pre cmd args io,
    let prefix := prefix_of_cache (H := Demo.posix) cachedir in
    events_since s installed.2
    = pre ++ [EMkdir prefix; EOnExit prefix;
              ERimraf (bins_of_prefix (H := Demo.posix) prefix);
              ESpawn cmd args io]
    /\ spawn_count pre = 0
    /\ In prefix (on_exit installed.2)
    /\ ((forall k, In k (sticky out) -> under (H := Demo.posix) prefix k = false) ->
        exists s2, emit_exit (H := Demo.posix) out installed.2 = (Ok tt, s2)
                   /\ fs s2 !! prefix = None).
Proof.
  intros out argv s installed.
  apply (cleanup_registered_before_install (H := Demo.posix) out 1
           ["cowsay"] argv s installed.1 installed.2
           (surjective_pairing installed)).
  vm_compute. discriminate.
Defined.

(* ===================================================================== *)
(** ** The search path after provisioning                                *)
(* ===================================================================== *)

Section SearchPath.
Context {H : Host} (out : Outside).
Import JsStr EffFacts SpawnFacts StrFacts.

Lemma list_ascii_of_append a b :
  list_ascii_of_string (a +:+ b)
  = list_ascii_of_string a ++ list_ascii_of_string b.
Proof.
  induction a as [|x a IH]; [reflexivity|].
  change (String x a +:+ b) with (String x (a +:+ b)).
  simpl. rewrite IH. reflexivity.
Qed.

Lemma split_on_go_first d cur la lr :
  forallb (fun a => negb (Ascii.eqb a d)) la = true ->
  split_on_go d cur (la ++ d :: lr)
  = string_of_list_ascii (rev cur ++ la) :: split_on_go d [] lr.
Proof.
  revert cur. induction la as [|a la IH]; intros cur Hfree; simpl.
  - rewrite Ascii.eqb_refl, app_nil_r. reflexivity.
  - simpl in Hfree. apply andb_true_iff in Hfree as [Ha Hfree].
    apply negb_true_iff in Ha. rewrite Ha.
    rewrite (IH (a :: cur) Hfree). simpl. rewrite <- app_assoc. reflexivity.
Qed.

(** The first entry of a search path that starts with a directory free of
    the separator. *)
Lemma split_on_first dir rest :
  no_delimiter dir = true ->
  split_on path_delimiter (dir +:+ String path_delimiter "" +:+ rest)
  = dir :: split_on path_delimiter rest.
Proof.
  intros Hfree. unfold split_on.
  rewrite list_ascii_of_append.
  change (list_ascii_of_string (String path_delimiter "" +:+ rest))
    with (path_delimiter :: list_ascii_of_string rest).
  rewrite (split_on_go_first _ [] _ _ Hfree). simpl.
  rewrite string_of_list_ascii_of_string. reflexivity.
Qed.


End SearchPath.


(* ===================================================================== *)
(** ** More on resolution                                                *)
(* ===================================================================== *)

Module DecodeFacts.
Import Text.

(** The bits of a continuation byte sit below those of the code point
    shifted to make room for them. *)
Lemma continuation_value x b :
  N.lor (N.shiftl x 6) (N.land b 63) = (x * 64 + b mod 64)%N.
Proof.
  assert (Hdisj : N.land (N.shiftl x 6) (N.land b 63) = 0%N).
  { apply N.bits_inj. intros n. rewrite !N.land_spec, N.bits_0.
    destruct (N.lt_ge_cases n 6) as [Hlt|Hge].
    - rewrite N.shiftl_spec_low by exact Hlt. reflexivity.
    - change 63%N with (N.ones 6). rewrite N.ones_spec_high by exact Hge.
      rewrite !andb_false_r. reflexivity. }
  rewrite <- (N.lxor_lor _ _ Hdisj), <- (N.add_nocarry_lxor _ _ Hdisj).
  rewrite N.shiftl_mul_pow2. change 63%N with (N.ones 6).
  rewrite N.land_ones. reflexivity.
Qed.

Lemma mask_value b n : N.land b (N.ones n) = (b mod 2 ^ n)%N.
Proof. apply N.land_ones. Qed.

Lemma mod_block b n q :
  (n * q <= b < n * q + n)%N -> (b mod n = b - n * q)%N.
Proof.
  intros Hb. symmetry. apply (N.mod_unique b n q (b - n * q)); lia.
Qed.

(** The sequences a lead byte opens are sane. *)
Lemma utf8_lead_sane b out p :
  utf8_lead b = (out, Some p) -> out = [] /\ pending_sane p.
Proof.
  unfold utf8_lead.
  destruct (b <=? 127)%N; [discriminate|].
  destruct ((194 <=? b) && (b <=? 223))%N eqn:H2.
  { intros [= <- <-]. split; [reflexivity|].
    apply andb_true_iff in H2 as [Hlo Hhi].
    apply N.leb_le in Hlo, Hhi.
    unfold pending_sane. simpl.
    change 31%N with (N.ones 5). rewrite mask_value.
    change (2 ^ 5)%N with 32%N. rewrite (mod_block b 32 6) by lia.
    repeat split; try lia. }
  destruct ((224 <=? b) && (b <=? 239))%N eqn:H3.
  { intros [= <- <-]. split; [reflexivity|].
    apply andb_true_iff in H3 as [Hlo Hhi].
    apply N.leb_le in Hlo, Hhi.
    unfold pending_sane. simpl.
    change 15%N with (N.ones 4). rewrite mask_value.
    change (2 ^ 4)%N with 16%N. rewrite (mod_block b 16 14) by lia.
    destruct (N.eqb_spec b 224), (N.eqb_spec b 237); repeat split; try lia. }
  destruct ((240 <=? b) && (b <=? 244))%N eqn:H4; [|discriminate].
  intros [= <- <-]. split; [reflexivity|].
  apply andb_true_iff in H4 as [Hlo Hhi].
  apply N.leb_le in Hlo, Hhi.
  unfold pending_sane. simpl.
  change 7%N with (N.ones 3). rewrite mask_value.
  change (2 ^ 3)%N with 8%N. rewrite (mod_block b 8 30) by lia.
  destruct (N.eqb_spec b 240), (N.eqb_spec b 244); repeat split; try lia.
Qed.

(** A lead byte yields itself when it is ASCII, and nothing below U+0080
    otherwise. *)
Lemma utf8_lead_out b out st a :
  utf8_lead b = (out, st) -> In a out -> (a < 128)%N -> a = b.
Proof.
  unfold utf8_lead.
  destruct (b <=? 127)%N; [intros [= <- _] [<-|[]]; reflexivity|].
  destruct ((194 <=? b) && (b <=? 223))%N; [intros [= <- _] []|].
  destruct ((224 <=? b) && (b <=? 239))%N; [intros [= <- _] []|].
  destruct ((240 <=? b) && (b <=? 244))%N; [intros [= <- _] []|].
  intros [= <- _] [<-|[]] Ha. lia.
Qed.

Lemma utf16_units_high cp a :
  (128 <= cp)%N -> In a (utf16_units cp) -> (128 <= a)%N.
Proof.
  unfold utf16_units. destruct (cp <? 65536)%N.
  - intros Hcp [<-|[]]. exact Hcp.
  - intros _ [<-|[<-|[]]]; lia.
Qed.

(** Every code unit below U+0080 of the decoded text is a byte of the
    input. *)
Lemma utf8_decode_ascii_origin bs : forall st a,
  (forall p, st = Some p -> pending_sane p) ->
  (a < 128)%N -> In a (utf8_decode st bs) -> In a bs.
Proof.
  induction bs as [|b bs IH]; intros st a Hst Ha Hin.
  - destruct st; simpl in Hin; [destruct Hin as [<-|[]]; lia|destruct Hin].
  - simpl in Hin. destruct st as [p|].
    + destruct (Hst p eq_refl) as (Hlo & Hhi & Hneed & Hfloor).
      destruct ((plo p <=? b) && (b <=? phi p))%N eqn:Hrange.
      * apply andb_true_iff in Hrange as [Hb1 Hb2].
        apply N.leb_le in Hb1, Hb2.
        rewrite continuation_value in Hin.
        rewrite (mod_block b 64 2) in Hin by lia.
        destruct (pneed p) as [|[|n]] eqn:Hn; [lia| |].
        -- apply in_app_or in Hin as [Hin|Hin].
           ++ apply utf16_units_high in Hin; [lia|].
              destruct Hfloor as [?|[[_ ?]|[? _]]]; lia.
           ++ right. apply (IH None a); [discriminate|exact Ha|exact Hin].
        -- right. apply (IH _ a) in Hin; [exact Hin| |exact Ha].
           intros p' [= <-]. unfold pending_sane. simpl.
           repeat split; try lia;
             left; destruct Hfloor as [?|[[? _]|[_ ?]]]; lia.
      * destruct (utf8_lead b) as [out st'] eqn:Hlead.
        destruct Hin as [<-|Hin]; [lia|].
        apply in_app_or in Hin as [Hin|Hin].
        -- left. symmetry. apply (utf8_lead_out b out st' a Hlead Hin Ha).
        -- right. apply (IH st' a); [|exact Ha|exact Hin].
           intros p' ->. apply (utf8_lead_sane b out p' Hlead).
    + destruct (utf8_lead b) as [out st'] eqn:Hlead.
      apply in_app_or in Hin as [Hin|Hin].
      * left. symmetry. apply (utf8_lead_out b out st' a Hlead Hin Ha).
      * right. apply (IH st' a); [|exact Ha|exact Hin].
        intros p' ->. apply (utf8_lead_sane b out p' Hlead).
Qed.

(** An ASCII character of the text read from a file, other than NUL, is
    among the first [n] bytes of the file. *)
Lemma read_head_ascii_origin n c a :
  (a < 128)%N -> a <> 0%N ->
  In a (Buffer_toString (read_head n c)) -> In a (take n (bytes_of c)).
Proof.
  intros Ha Hnz Hin. unfold Buffer_toString, read_head in Hin.
  apply utf8_decode_ascii_origin in Hin; [|discriminate|exact Ha].
  apply in_app_or in Hin as [Hin|Hin]; [exact Hin|].
  apply list_elem_of_In, elem_of_replicate in Hin as [Hz _]. congruence.
Qed.

End DecodeFacts.

Section MoreResolution.
Context {H : Host} (out : Outside).
Import Text Re ReFacts Directive DirectiveFacts DecodeFacts JsStr EffFacts.

Lemma findNodeScript_never_exits fuel existing local s r s' :
  findNodeScript out fuel existing local s = (r, s') -> r <> Exited.
Proof.
  revert existing r s'. induction fuel as [|fuel IH]; intros existing r s'.
  - destruct existing as [e|]; simpl.
    + destruct (nonempty e); simpl; unfold ret, lift; intros [= <- _]; discriminate.
    + unfold ret; intros [= <- _]; discriminate.
  - destruct existing as [e|]; simpl;
      [|unfold ret; intros [= <- _]; discriminate].
    destruct (nonempty e); simpl;
      [|unfold ret; intros [= <- _]; discriminate].
    unfold bind at 1, fs_stat.
    destruct (fs s !! e) as [n|]; [|intros [= <- _]; discriminate].
    destruct (local && script_ext (path_extname e));
      [unfold ret; intros [= <- _]; discriminate|].
    destruct (local && is_dir n).
    + destruct (manifest_target out e) as [target|];
        [|unfold throw; intros [= <- _]; discriminate].
      unfold bind.
      destruct (findNodeScript out fuel (Some target) local s) as [r1 s1] eqn:Hrec.
      pose proof (IH _ _ _ Hrec) as Hne.
      destruct r1 as [script|e1| |]; try (intros [= <- _]; discriminate).
      * destruct (truthy script); unfold ret, throw; intros [= <- _]; discriminate.
      * congruence.
    + destruct platform; unfold bind, fs_read_head;
        destruct (fs s !! e) as [[c|l]|]; unfold ret; intros [= <- _]; discriminate.
Qed.

(** X1.  Resolution only reads: whatever path it is given and however it
    ends, it leaves the file system, the environment, the arguments, the
    exit code, the exit listeners and the history as they were, and it
    never ends the process. *)
Theorem resolution_reads_only fuel existing local s r s' :
  findNodeScript out fuel existing local s = (r, s') ->
  s' = s /\ r <> Exited.
Proof.
  intros Hrun. split.
  - apply (findNodeScript_pure out fuel existing local s r s' Hrun).
  - apply (findNodeScript_never_exits fuel existing local s r s' Hrun).
Qed.

Lemma findNodeScript_missing fuel e local s :
  nonempty e = true -> fs s !! e = None ->
  findNodeScript out (S fuel) (Some e) local s =
  (Throw (sys_error "ENOENT" "no such file or directory, stat" e), s).
Proof.
  intros He Hf. simpl. rewrite He. simpl. unfold bind, fs_stat.
  rewrite Hf. reflexivity.
Qed.

(** X2.  A path that does not exist is not "not a script": resolution
    rejects with the error of [fs.stat].  The same holds one level down:
    when the entry that the manifest of a local package directory names
    does not exist, the resolution of the directory rejects with the
    [ENOENT] of that entry, not with "command not found". *)
Theorem missing_entry_rejects_with_stat_error fuel dir l target s :
  nonempty dir = true -> fs s !! dir = Some (Dir l) ->
  script_ext (path_extname dir) = false ->
  manifest_target out dir = Some target ->
  nonempty target = true -> fs s !! target = None ->
  (forall local,
      findNodeScript out (S fuel) (Some target) local s =
      (Throw (sys_error "ENOENT" "no such file or directory, stat" target), s))
  /\ findNodeScript out (S (S fuel)) (Some dir) true s =
     (Throw (sys_error "ENOENT" "no such file or directory, stat" target), s).
Proof.
  intros Hd Hf Hx Ht Hne Hmiss. split.
  - intros local. apply findNodeScript_missing; assumption.
  - rewrite (findNodeScript_dir_target out (S fuel) dir l s target Hd Hf Hx Ht).
    unfold bind. rewrite (findNodeScript_missing fuel target true s Hne Hmiss).
    reflexivity.
Qed.

(** X3.  There is no guard against a manifest that leads back to its own
    directory: the resolution of such a directory never settles. *)
Theorem self_referring_manifest_never_settles e l s :
  nonempty e = true -> fs s !! e = Some (Dir l) ->
  script_ext (path_extname e) = false ->
  manifest_target out e = Some e ->
  forall fuel, findNodeScript out fuel (Some e) true s = (Hung, s).
Proof.
  intros He Hf Hx Ht fuel. induction fuel as [|fuel IH].
  - simpl. rewrite He. reflexivity.
  - rewrite (findNodeScript_dir_target out fuel e l s e He Hf Hx Ht).
    unfold bind. rewrite IH. reflexivity.
Qed.

(** A file that is not taken for a script by its name is read and
    searched, local or not. *)
Lemma findNodeScript_sniff_any fuel e c local s :
  platform = Posix -> nonempty e = true -> fs s !! e = Some (File c) ->
  local && script_ext (path_extname e) = false ->
  findNodeScript out (S fuel) (Some e) local s =
  (Ok (if search shebang (Buffer_toString (read_head 400 c))
       then Some e else None), s).
Proof.
  intros Hp He Hf Hx. simpl. rewrite He. simpl.
  unfold bind, fs_stat. rewrite Hf, Hx. simpl. rewrite andb_false_r, Hp.
  unfold fs_read_head. rewrite Hf. reflexivity.
Qed.

Lemma read_head_take n c1 c2 :
  take n (bytes_of c1) = take n (bytes_of c2) -> read_head n c1 = read_head n c2.
Proof. unfold read_head. intros ->. reflexivity. Qed.

(** X4.  On a POSIX host the classification of a file depends on its
    first 400 bytes only: two files that agree on them are classified
    alike, whatever follows. *)
Theorem classification_reads_400_bytes fuel e c1 c2 local s1 s2 :
  platform = Posix -> nonempty e = true ->
  local && script_ext (path_extname e) = false ->
  fs s1 !! e = Some (File c1) -> fs s2 !! e = Some (File c2) ->
  take 400 (bytes_of c1) = take 400 (bytes_of c2) ->
  (findNodeScript out (S fuel) (Some e) local s1).1
  = (findNodeScript out (S fuel) (Some e) local s2).1.
Proof.
  intros Hp He Hx H1 H2 Heq.
  rewrite (findNodeScript_sniff_any fuel e c1 local s1 Hp He H1 Hx).
  rewrite (findNodeScript_sniff_any fuel e c2 local s2 Hp He H2 Hx).
  rewrite (read_head_take 400 c1 c2 Heq). reflexivity.
Qed.

Lemma holds_directive_chars t :
  holds_directive t -> In 35%N t /\ In 10%N t.
Proof.
  intros (pre & w1 & i & w2 & cr & post & -> & _). split.
  - apply in_or_app. right. left. reflexivity.
  - apply in_or_app. right. apply in_or_app. right.
    apply in_or_app. right. apply in_or_app. right.
    apply in_or_app. right. apply in_or_app. right.
    apply in_or_app. left. left. reflexivity.
Qed.

(** X5.  On a POSIX host a file whose first 400 bytes hold no line feed,
    or no [#], is never a script: a directive that is not ended by a line
    feed within these bytes (a one-line file without a final newline, a
    directive after a long preamble) is not found. *)
Theorem no_line_feed_no_script fuel e c local s :
  platform = Posix -> nonempty e = true -> fs s !! e = Some (File c) ->
  local && script_ext (path_extname e) = false ->
  ~ In 10%N (take 400 (bytes_of c)) \/ ~ In 35%N (take 400 (bytes_of c)) ->
  findNodeScript out (S fuel) (Some e) local s = (Ok None, s).
Proof.
  intros Hp He Hf Hx Hno.
  rewrite (findNodeScript_sniff_any fuel e c local s Hp He Hf Hx).
  destruct (search shebang (Buffer_toString (read_head 400 c))) eqn:Hs;
    [|reflexivity].
  exfalso. apply search_shebang, holds_directive_chars in Hs as [H35 H10].
  destruct Hno as [Hno|Hno]; apply Hno.
  - apply (read_head_ascii_origin 400 c 10); [reflexivity|discriminate|exact H10].
  - apply (read_head_ascii_origin 400 c 35); [reflexivity|discriminate|exact H35].
Qed.

(** X6.  A local path with the extension [.js] or [.cjs] is returned as
    the script without being read: whatever the file holds, and also when
    the path is a directory, whose manifest is then not consulted. *)
Theorem local_script_extension_is_trusted fuel e n s :
  nonempty e = true -> fs s !! e = Some n ->
  script_ext (path_extname e) = true ->
  findNodeScript out (S fuel) (Some e) true s = (Ok (Some e), s).
Proof.
  intros He Hf Hx. simpl. rewrite He. simpl. unfold bind, fs_stat.
  rewrite Hf, Hx. reflexivity.
Qed.

(** X7.  A local package directory whose manifest entry is a file with an
    interpreter directive (and without a script extension) resolves, in
    one further step, to that file. *)
Theorem directory_resolves_to_directive_file fuel dir l pkg t c s :
  platform = Posix ->
  nonempty dir = true -> fs s !! dir = Some (Dir l) ->
  script_ext (path_extname dir) = false ->
  manifests out !! path_resolve dir "package.json" = Some pkg ->
  js_or (bin pkg) (js_or (main pkg) (JString "index.js")) = JString t ->
  nonempty (path_resolve dir t) = true ->
  script_ext (path_extname (path_resolve dir t)) = false ->
  fs s !! path_resolve dir t = Some (File c) ->
  holds_directive (Buffer_toString (read_head 400 c)) ->
  findNodeScript out (S (S fuel)) (Some dir) true s
  = (Ok (Some (path_resolve dir t)), s).
Proof.
  intros Hp Hd Hf Hx Hm Hentry Hne Hxt Hfile Hdir.
  assert (Ht : manifest_target out dir = Some (path_resolve dir t)).
  { unfold manifest_target. rewrite Hm, Hentry. reflexivity. }
  rewrite (findNodeScript_dir_target out (S fuel) dir l s _ Hd Hf Hx Ht).
  unfold bind.
  rewrite (findNodeScript_sniff_any fuel _ c true s Hp Hne Hfile)
    by (rewrite Hxt; reflexivity).
  apply search_shebang in Hdir. rewrite Hdir. simpl. rewrite Hne. reflexivity.
Qed.

End MoreResolution.

Lemma resolution_reads_only_witness :
  let s := Demo.boot {[ "/bin/tool" := File "data" ]} in
  let run := findNodeScript (H := Demo.posix) Demo.calm 1
               (Some "/bin/tool") false s in
  run.2 = s /\ run.1 <> Exited.
Proof.
  intros s run.
  apply (resolution_reads_only (H := Demo.posix) Demo.calm 1
           (Some "/bin/tool") false s run.1 run.2).
  apply surjective_pairing.
Defined.

Lemma missing_entry_rejects_with_stat_error_witness :
  let dir := "/proj/node_modules/.bin/tool" in
  let mf : gmap string Manifest :=
    {[ "/proj/node_modules/.bin/tool/package.json"
       := mkManifest (JString "cli") JUndefined ]} in
  let s := Demo.boot {[ dir := Dir ["package.json"] ]} in
  findNodeScript (H := Demo.posix)
    (Demo.outside [] mf ∅ (Ok (mkDeets "")) (Ok tt)) 2 (Some dir) true s
  = (Throw (sys_error "ENOENT" "no such file or directory, stat"
              "/proj/node_modules/.bin/tool/cli"), s).
Proof.
  intros dir mf s.
  apply (missing_entry_rejects_with_stat_error (H := Demo.posix)
           (Demo.outside [] mf ∅ (Ok (mkDeets "")) (Ok tt)) 0 dir
           ["package.json"] "/proj/node_modules/.bin/tool/cli" s);
    reflexivity.
Defined.

Lemma self_referring_manifest_never_settles_witness :
  let dir := "/proj/node_modules/.bin/tool" in
  let mf : gmap string Manifest :=
    {[ "/proj/node_modules/.bin/tool/package.json"
       := mkManifest (JString "/proj/node_modules/.bin/tool") JUndefined ]} in
  let s := Demo.boot {[ dir := Dir ["package.json"] ]} in
  findNodeScript (H := Demo.posix)
    (Demo.outside [] mf ∅ (Ok (mkDeets "")) (Ok tt)) 1000 (Some dir) true s
  = (Hung, s).
Proof.
  intros dir mf s.
  apply (self_referring_manifest_never_settles (H := Demo.posix)
           (Demo.outside [] mf ∅ (Ok (mkDeets "")) (Ok tt)) dir
           ["package.json"] s); reflexivity.
Defined.

Lemma classification_reads_400_bytes_witness :
  let head := String.concat "" (replicate 40 "// padding") in
  let c1 := head +:+ "#!/usr/bin/env node" +:+ JsStr.LF in
  let c2 := head +:+ "module.exports = 1" in
  (findNodeScript (H := Demo.posix) Demo.calm 1 (Some "/bin/tool") false
     (Demo.boot {[ "/bin/tool" := File c1 ]})).1
  = (findNodeScript (H := Demo.posix) Demo.calm 1 (Some "/bin/tool") false
       (Demo.boot {[ "/bin/tool" := File c2 ]})).1.
Proof.
  intros head c1 c2.
  apply (classification_reads_400_bytes (H := Demo.posix) Demo.calm 0
           "/bin/tool" c1 c2 false); reflexivity.
Defined.

Lemma no_line_feed_no_script_witness :
  let s := Demo.boot {[ "/bin/tool" := File "#!/usr/bin/env node" ]} in
  findNodeScript (H := Demo.posix) Demo.calm 1 (Some "/bin/tool") false s
  = (Ok None, s).
Proof.
  intros s.
  apply (no_line_feed_no_script (H := Demo.posix) Demo.calm 0 "/bin/tool"
           "#!/usr/bin/env node" false s); try reflexivity.
  left. vm_compute. intros Hin.
  repeat (destruct Hin as [Hin|Hin]; [discriminate Hin|]). exact Hin.
Defined.

Lemma local_script_extension_is_trusted_witness :
  let s := Demo.boot {[ "/proj/node_modules/.bin/tool.js" := File "garbage" ]} in
  findNodeScript (H := Demo.posix) Demo.calm 1
    (Some "/proj/node_modules/.bin/tool.js") true s
  = (Ok (Some "/proj/node_modules/.bin/tool.js"), s).
Proof.
  intros s.
  apply (local_script_extension_is_trusted (H := Demo.posix) Demo.calm 0
           "/proj/node_modules/.bin/tool.js" (File "garbage") s);
    reflexivity.
Defined.

Lemma directory_resolves_to_directive_file_witness :
  let dir := "/proj/node_modules/.bin/tool" in
  let mf : gmap string Manifest :=
    {[ "/proj/node_modules/.bin/tool/package.json"
       := mkManifest (JString "cli") JUndefined ]} in
  let c := "#!/usr/bin/env node" +:+ JsStr.LF +:+ "main()" in
  let s := Demo.boot
    (<[ dir := Dir ["cli"; "package.json"] ]>
       {[ "/proj/node_modules/.bin/tool/cli" := File c ]}) in
  findNodeScript (H := Demo.posix)
    (Demo.outside [] mf ∅ (Ok (mkDeets "")) (Ok tt)) 2 (Some dir) true s
  = (Ok (Some "/proj/node_modules/.bin/tool/cli"), s).
Proof.
  intros dir mf c s.
  apply (directory_resolves_to_directive_file (H := Demo.posix)
           (Demo.outside [] mf ∅ (Ok (mkDeets "")) (Ok tt)) 0 dir
           ["cli"; "package.json"] (mkManifest (JString "cli") JUndefined)
           "cli" c s); try reflexivity.
  apply DirectiveFacts.search_shebang. vm_compute. reflexivity.
Defined.

(* ===================================================================== *)
(** ** The steps of a run                                                *)
(* ===================================================================== *)

Module StepFacts.
Import EffFacts.

Section Closure.
Variable R : State -> bool -> State -> Prop.
Hypothesis R_refl : forall s, R s false s.
Hypothesis R_seq :
  forall s1 s2 s3 b, R s1 false s2 -> R s2 b s3 -> R s1 b s3.

Lemma st_quiet {A} (m : M A) : quiet m -> steps R m.
Proof.
  intros Hm s r s' Hrun. destruct (Hm s r s' Hrun) as [-> Hr].
  destruct r; try apply R_refl. congruence.
Qed.

Lemma st_ret {A} (a : A) : steps R (ret a).
Proof. intros s r s' [= <- <-]. apply R_refl. Qed.

Lemma st_throw {A} e : steps R (@throw A e).
Proof. intros s r s' [= <- <-]. apply R_refl. Qed.

Lemma st_get : steps R get.
Proof. intros s r s' [= <- <-]. apply R_refl. Qed.

Lemma exited_carry {A B} (r : Res A) :
  is_ok r = false -> exited (@carry A B r) = exited r.
Proof. destruct r; try discriminate; reflexivity. Qed.

(** A sequence, with what is known of the value handed on. *)
Lemma st_bind_post {A B} (m : M A) (k : A -> M B) (Q : A -> Prop) :
  steps R m ->
  (forall s a s1, m s = (Ok a, s1) -> Q a) ->
  (forall a, Q a -> steps R (k a)) ->
  steps R (bind m k).
Proof.
  intros Hm HQ Hk s r s' Hrun.
  apply bind_inv in Hrun as [(a & s1 & Hm1 & Hk1)|(r0 & Hm1 & Hok & ->)].
  - apply (R_seq _ s1); [apply (Hm _ _ _ Hm1)|].
    eapply (Hk a); eauto.
  - rewrite (exited_carry r0 Hok). apply (Hm _ _ _ Hm1).
Qed.

Lemma st_bind {A B} (m : M A) (k : A -> M B) :
  steps R m -> (forall a, steps R (k a)) -> steps R (bind m k).
Proof.
  intros Hm Hk. apply (st_bind_post m k (fun _ => True)); auto.
Qed.

(** What follows a computation that never yields a value does not run. *)
Lemma st_bind_never {A B} (m : M A) (k : A -> M B) :
  steps R m -> never_ok m -> steps R (bind m k).
Proof.
  intros Hm Hnever. apply (st_bind_post m k (fun _ => False)).
  - exact Hm.
  - intros s a s1 Hrun. apply Hnever in Hrun. discriminate.
  - intros a [].
Qed.

Lemma st_catch {A} (m : M A) h :
  steps R m -> (forall e, steps R (h e)) -> steps R (catch m h).
Proof.
  intros Hm Hh s r s' Hrun.
  apply catch_inv in Hrun as [(e & s1 & Hm1 & Hh1)|(Hm1 & _)].
  - apply (R_seq _ s1); [apply (Hm _ _ _ Hm1)|eapply Hh; eauto].
  - eapply Hm; eauto.
Qed.

Lemma st_then2 {A B} (m : M A) (onOk : A -> M B) onErr :
  steps R m -> (forall a, steps R (onOk a)) ->
  (forall e, steps R (onErr e)) -> steps R (then2 m onOk onErr).
Proof.
  intros Hm Hok Herr s r s'. unfold then2.
  destruct (m s) as [r1 s1] eqn:E1. pose proof (Hm _ _ _ E1) as H1.
  destruct r1 as [a|e| |].
  - intros Hrun. apply (R_seq _ s1); [exact H1|eapply Hok; eauto].
  - intros Hrun. apply (R_seq _ s1); [exact H1|eapply Herr; eauto].
  - intros [= <- <-]. exact H1.
  - intros [= <- <-]. exact H1.
Qed.

Lemma st_all2 {A B} (m1 : M A) (m2 : M B) :
  steps R m1 -> steps R m2 -> steps R (all2 m1 m2).
Proof.
  intros H1 H2 s r s'. unfold all2.
  destruct (m1 s) as [r1 s1] eqn:E1. pose proof (H1 _ _ _ E1) as Hfirst.
  destruct r1 as [a|e| |].
  3: { intros [= <- <-]. exact Hfirst. }
  all: destruct (m2 s1) as [r2 s2] eqn:E2;
    pose proof (H2 _ _ _ E2) as Hsecond;
    destruct r2 as [b|e2| |]; intros [= <- <-];
    apply (R_seq _ s1); assumption.
Qed.

Lemma st_when b m : steps R m -> steps R (when b m).
Proof. destruct b; simpl; auto using st_ret. Qed.

End Closure.

Lemma all2_ok {A B} (m1 : M A) (m2 : M B) s a b s' :
  all2 m1 m2 s = (Ok (a, b), s') ->
  exists s1, m1 s = (Ok a, s1) /\ m2 s1 = (Ok b, s').
Proof.
  unfold all2. destruct (m1 s) as [r1 s1].
  destruct r1 as [a1|e| |]; try discriminate;
    destruct (m2 s1) as [r2 s2] eqn:H2; destruct r2 as [b2|e2| |];
    try discriminate.
  intros Heq. injection Heq as <- <- <-. exists s1. split; [reflexivity|exact H2].
Qed.

Lemma never_ok_after {A B} (m : M A) (k : A -> M B) :
  (forall a, never_ok (k a)) -> never_ok (bind m k).
Proof.
  intros Hk s r s' Hrun.
  apply bind_inv in Hrun as [(a & s1 & _ & Hrun)|(r0 & Hm & Hok & ->)].
  - eapply Hk; eauto.
  - destruct r0; try discriminate; reflexivity.
Qed.

Lemma exit_status_nonzero e c : exit_status e = Some c -> c <> 0%Z.
Proof.
  unfold exit_status. destruct (exitCode e) as [c0|]; [|discriminate].
  destruct (c0 =? 0)%Z eqn:Hz; [discriminate|].
  intros [= <-]. apply Z.eqb_neq. exact Hz.
Qed.

Lemma exit_status_default e : default 1%Z (exit_status e) <> 0%Z.
Proof.
  destruct (exit_status e) as [c|] eqn:He; simpl; [|discriminate].
  apply (exit_status_nonzero e c He).
Qed.

End StepFacts.

(** Every run of [npx] is a composition of the steps of [Prim]: a
    relation between states that is reflexive and transitive and holds
    across each of them holds across the run. *)
Section StructureOfARun.
Context {H : Host} (out : Outside).
Variable argv : Argv.
Variable late : bool.
Variable R : State -> bool -> State -> Prop.
Hypothesis R_refl : forall s, R s false s.
Hypothesis R_seq :
  forall s1 s2 s3 b, R s1 false s2 -> R s2 b s3 -> R s1 b s3.
Hypothesis R_prim : forall A (m : M A), Prim out late argv A m -> steps R m.
Import JsStr EffFacts StepFacts.

Local Abbreviation may := (npx_may late argv).

Local Ltac seq := apply (st_bind R R_seq).
Local Ltac done_ret := apply (st_ret R R_refl).
Local Ltac done_throw := apply (st_throw R R_refl).
Local Ltac handle := apply (st_catch R R_seq).

Lemma st_emit e : is_plain e = true -> may e -> steps R (emit e).
Proof. intros Hp He. apply R_prim, P_emit; assumption. Qed.

Lemma st_exit_code c : c <> 0%Z -> steps R (modify (set_exit_code c)).
Proof. intros Hc. apply R_prim, P_exit_code, Hc. Qed.

Lemma st_findNodeScript fuel e l : steps R (findNodeScript out fuel e l).
Proof.
  apply (st_quiet R R_refl). intros s r s' Hrun. split.
  - apply (findNodeScript_pure out fuel e l s r s' Hrun).
  - apply (findNodeScript_never_exits out fuel e l s r s' Hrun).
Qed.

Lemma never_ok_process_exit {A} c : never_ok (@process_exit H out A c).
Proof.
  intros s r s'. unfold process_exit. intros Hrun.
  apply bind_inv in Hrun as [(a & s1 & _ & Hrun)|(r0 & Hm & Hok & ->)].
  - apply bind_inv in Hrun as [(a2 & s2 & _ & Hrun)|(r0 & Hm & Hok & ->)].
    + injection Hrun as <- _. reflexivity.
    + destruct r0; try discriminate; reflexivity.
  - destruct r0; try discriminate; reflexivity.
Qed.

Lemma st_use_local_bin : steps R (use_local_bin out).
Proof.
  unfold use_local_bin, localBinPath.
  seq.
  - seq; [apply R_prim, P_get_prefix|intros p; done_ret].
  - intros local. seq; [|intros _; done_ret].
    apply (st_when R R_refl), R_prim, P_path.
Qed.

Lemma st_getExistingPath c :
  command argv = Some c -> steps R (getExistingPath out c argv).
Proof.
  intros Hc. unfold getExistingPath.
  destruct (isLocal argv) eqn:Hl; [done_ret|].
  destruct (_ || _ || _) eqn:Hf; [done_ret|].
  handle.
  - seq; [|intros p; done_ret].
    apply R_prim, P_which. simpl. auto.
  - intros e. destruct (is_ENOENT e); [|done_throw].
    destruct (install_disabled argv); [done_throw|done_ret].
Qed.

Lemma st_exec cmd args :
  may (EExec cmd args) -> steps R (exec out cmd args).
Proof. intros Hc. apply R_prim, P_exec, Hc. Qed.

Lemma st_getEnv fuel :
  truthy (call argv) = true -> steps R (getEnv out fuel argv).
Proof.
  intros Hc. unfold getEnv.
  seq; [apply st_findNodeScript|intros npmPath].
  seq; [apply (st_get R R_refl)|intros s].
  seq; [|intros c; done_ret].
  destruct (truthy npmPath); apply st_exec; left; (split; [exact Hc|]).
  - exists [escapeArg (npm_text argv) false]. reflexivity.
  - exists []. reflexivity.
Qed.

Section Provisioned.
Hypothesis not_refused_by_user : no argv = false.
Hypothesis provisioning_is_due : provisioning_due argv.

Lemma st_getNpmCache fuel :
  truthy (cache argv) = false -> steps R (getNpmCache out fuel argv).
Proof.
  intros Hc. unfold getNpmCache.
  seq; [apply st_findNodeScript|intros npmPath].
  seq; [apply (st_get R R_refl)|intros s].
  seq; [|intros c; done_ret].
  destruct (truthy npmPath); apply st_exec; right;
    (split; [exact Hc|]); (split; [exact not_refused_by_user|]);
    (split; [exact provisioning_is_due|]).
  - eexists [escapeArg (npm_text argv) false], _. reflexivity.
  - eexists [], _. reflexivity.
Qed.

Lemma st_installPackages fuel cachedir :
  cache_used argv cachedir ->
  steps R
    (installPackages out fuel (package argv) (prefix_of_cache cachedir) argv).
Proof.
  intros Hcache. unfold installPackages.
  seq; [apply st_findNodeScript|intros npmPath].
  seq; [apply (st_get R R_refl)|intros s0].
  assert (Hargs : exists cmd pre,
            (if truthy npmPath
             then (Some (argv0 s0),
                   match platform with
                   | Win32 => escapeArg (npm_text argv) false
                   | Posix => npm_text argv
                   end :: buildArgs (package argv) (prefix_of_cache cachedir) argv)
             else (npm argv, buildArgs (package argv) (prefix_of_cache cachedir) argv))
            = (cmd, pre ++ buildArgs (package argv) (prefix_of_cache cachedir) argv)).
  { destruct (truthy npmPath).
    - eexists _, [_]. reflexivity.
    - eexists _, []. reflexivity. }
  destruct Hargs as (cmd & pre & ->).
  apply (st_then2 R R_seq).
  - apply R_prim, P_spawn. simpl.
    split; [exact not_refused_by_user|]. split; [exact provisioning_is_due|].
    split; [reflexivity|]. exists cachedir, pre. split; [exact Hcache|reflexivity].
  - intros deets. done_ret.
  - intros e. done_throw.
Qed.

Lemma st_ensurePackages fuel :
  steps R (ensurePackages out fuel (package argv) argv).
Proof.
  unfold ensurePackages.
  apply (st_bind_post R R_seq _ _ (cache_used argv)).
  { destruct (cache argv) as [d|] eqn:Hc.
    - destruct (nonempty d) eqn:Hd; [done_ret|].
      apply st_getNpmCache. rewrite Hc. exact Hd.
    - apply st_getNpmCache. rewrite Hc. reflexivity. }
  { intros s cachedir s1 Hrun Htruthy. revert Hrun.
    destruct (cache argv) as [d|]; [|discriminate].
    simpl in Htruthy. rewrite Htruthy. intros [= <- _]. reflexivity. }
  intros cachedir Hcache.
  seq; [apply R_prim, P_mkdir; simpl; eauto 6|intros _].
  seq; [apply R_prim, P_on_exit; simpl; eauto 6|intros _].
  seq; [apply R_prim, P_rimraf; simpl; eauto 6|intros _].
  seq; [apply st_installPackages, Hcache|intros info].
  seq; [apply R_prim, P_path|intros _].
  destruct info; first [done_ret|done_throw].
Qed.

End Provisioned.

Lemma st_select_bin cmd bin : steps R (select_bin cmd bin).
Proof.
  unfold select_bin. seq.
  - handle.
    + apply (st_quiet R R_refl). intros s r s'. unfold fs_readdir.
      destruct (fs s !! bin) as [[c|l]|]; intros [= <- <-];
        (split; [reflexivity|discriminate]).
    + intros e. destruct (is_ENOENT e); done_throw.
  - intros listing. destruct (Nat.ltb _ 1); [done_throw|].
    destruct (command_regexp cmd); [|done_throw].
    destruct (js_or _ _); first [done_ret|done_throw].
Qed.

Lemma st_provision fuel existing :
  provisioning_due argv -> steps R (provision out fuel existing argv).
Proof.
  intros Hdue. unfold provision.
  destruct (no argv) eqn:Hno.
  { apply (st_bind_never R R_seq).
    - seq; [apply st_emit; [reflexivity|exact I]|intros _].
      apply R_prim, P_process_exit; auto.
    - apply never_ok_after. intros _. apply never_ok_process_exit. }
  seq; [done_ret|intros _].
  seq.
  { destruct (negb (yes argv)) eqn:Hyes; [|done_ret].
    apply negb_true_iff in Hyes.
    seq; [apply st_emit; [reflexivity|simpl; auto]|intros _].
    seq; [apply R_prim, P_prompt_answer, Hyes|intros allow].
    destruct (negb allow); [|done_ret].
    seq; [apply st_emit; [reflexivity|exact I]|intros _].
    apply R_prim, P_process_exit; auto. }
  intros _. seq; [apply st_ensurePackages; assumption|intros results].
  seq.
  { destruct (info_added results), (info_updated results); try done_ret.
    destruct (q argv) eqn:Hq; simpl; [done_ret|].
    apply st_emit; [reflexivity|exact Hq]. }
  intros _. destruct (_ && _ && _ && _); [|done_ret].
  seq; [apply st_select_bin|intros b; done_ret].
Qed.

Lemma st_execCommand fuel ex :
  late = true -> steps R (execCommand out fuel ex argv).
Proof.
  intros Hlate. unfold execCommand.
  seq; [apply st_findNodeScript|intros existing].
  seq; [apply (st_get R R_refl)|intros s].
  destruct (_ && _ && _ && _ && _).
  - seq.
    { destruct (noYargs argv) eqn:Hy; simpl; [done_ret|].
      apply st_emit; [reflexivity|split; [exact Hlate|exact Hy]]. }
    intros _. apply R_prim, P_takeover, Hlate.
  - destruct (_ && _); [done_throw|].
    destruct (child_command existing argv s) as [cmd cmdOpts].
    handle.
    + apply R_prim, P_runCommand. simpl. eauto.
    + intros e. destruct (isOperational e); [|done_throw].
      destruct (exit_status e) as [c|] eqn:Hc; [|done_throw].
      apply st_exit_code, (exit_status_nonzero e c Hc).
Qed.

Lemma st_prepare fuel :
  truthy (call argv) = true \/ truthy (command argv) = true ->
  steps R (prepare out fuel argv).
Proof.
  intros Hguard. unfold prepare.
  seq; [apply st_use_local_bin|intros local].
  apply (st_bind_post R R_seq _ _
           (fun args => truthy (call argv) = false ->
                        args.2 = None
                        /\ (isLocal argv = true -> truthy args.1 = true))).
  { apply (st_all2 R R_seq).
    - destruct (command argv) as [cmd|] eqn:Hc; [|done_ret].
      destruct (nonempty cmd); [apply st_getExistingPath; exact Hc|done_ret].
    - destruct (truthy (call argv)) eqn:Hcall; simpl; [|done_ret].
      destruct (truthy local); [|done_ret].
      seq; [apply st_getEnv; exact Hcall|intros e; done_ret]. }
  { intros s [a b] s1 Hall Hcall.
    apply all2_ok in Hall as (s0 & Hfirst & Hsecond).
    rewrite Hcall in Hsecond. simpl in Hsecond.
    split; [injection Hsecond as <- _; reflexivity|].
    intros Hlocal.
    destruct Hguard as [Hg|Hg]; [congruence|].
    destruct (command argv) as [cmd|]; [|discriminate].
    simpl in Hg. rewrite Hg in Hfirst.
    unfold getExistingPath in Hfirst. rewrite Hlocal in Hfirst.
    injection Hfirst as <- _. exact Hg. }
  intros args Hargs. seq.
  { destruct (args.2) eqn:Henv; [|done_ret].
    apply R_prim, P_assign.
    destruct (truthy (call argv)); [reflexivity|].
    destruct (Hargs eq_refl) as [Hnone _]. discriminate. }
  intros _.
  destruct ((negb (truthy args.1) && negb (truthy (call argv)))
            || packageRequested argv) eqn:Hcond; [|done_ret].
  apply st_provision.
  apply orb_true_iff in Hcond as [Hcond|Hcond]; [|left; exact Hcond].
  apply andb_true_iff in Hcond as [Hex Hcall].
  apply negb_true_iff in Hex, Hcall. right. split; [exact Hcall|].
  destruct (isLocal argv) eqn:Hl; [|reflexivity].
  destruct (Hargs Hcall) as [_ Hexisting].
  rewrite (Hexisting eq_refl) in Hex. discriminate.
Qed.

(** [npx_body] is [prepare] followed by [execCommand]. *)
Lemma npx_body_prepare fuel s :
  npx_body out fuel argv s
  = bind (prepare out fuel argv) (fun ex => execCommand out fuel ex argv) s.
Proof.
  unfold npx_body, prepare, bind.
  destruct (use_local_bin out s) as [[local|e| |] s1]; try reflexivity.
  destruct (all2 _ _ s1) as [[args|e| |] s2]; try reflexivity.
  destruct (args.2) as [e|]; reflexivity.
Qed.

Lemma st_npx_body fuel :
  late = true ->
  truthy (call argv) = true \/ truthy (command argv) = true ->
  steps R (npx_body out fuel argv).
Proof.
  intros Hlate Hguard s r s'. rewrite npx_body_prepare. revert s r s'.
  seq; [apply st_prepare, Hguard|intros ex; apply st_execCommand, Hlate].
Qed.

Lemma npx_steps fuel : late = true -> steps R (npx out fuel argv).
Proof.
  intros Hlate. unfold npx. destruct (shell_auto_fallback argv) as [sh|].
  { seq; [apply (st_get R R_refl)|intros s].
    destruct (auto_fallback sh (env s !! "SHELL") argv) as [fb|];
      [destruct (nonempty fb)|];
      first [apply st_emit; [reflexivity|exact I]
            |apply st_exit_code; discriminate]. }
  destruct (negb (truthy (call argv)) && negb (truthy (command argv)))
    eqn:Hguard.
  { destruct (q argv) eqn:Hq; simpl.
    - seq; [done_ret|intros _].
      seq; [done_ret|intros _]. apply st_exit_code. discriminate.
    - seq; [apply st_emit; [reflexivity|exact Hq]|intros _].
      seq; [apply st_emit; [reflexivity|exact Hq]|intros _].
      apply st_exit_code. discriminate. }
  handle; [apply st_npx_body; [exact Hlate|]|intros e].
  { apply andb_false_iff in Hguard as [Hg|Hg];
      apply negb_false_iff in Hg; auto. }
  seq; [|intros _; apply st_exit_code, exit_status_default].
  destruct (q argv) eqn:Hq; simpl; [done_ret|].
  apply st_emit; [reflexivity|exact Hq].
Qed.

Lemma run_steps fuel : late = true -> steps R (run out fuel argv).
Proof.
  intros Hlate s r s'. unfold run.
  destruct (npx out fuel argv s) as [r1 s1] eqn:Hnpx.
  pose proof (npx_steps fuel Hlate s r1 s1 Hnpx) as Hfirst.
  destruct r1 as [[]|e| |]; try (intros [= <- <-]; exact Hfirst);
    intros Hexit; apply (R_seq _ s1);
    [exact Hfirst|apply (R_prim _ _ (P_emit_exit out late argv) s1 r s' Hexit)
    |exact Hfirst|apply (R_prim _ _ (P_emit_exit out late argv) s1 r s' Hexit)].
Qed.

End StructureOfARun.

(* ===================================================================== *)
(** ** The frame of a run                                                *)
(* ===================================================================== *)

Module FrameFacts.
Import EffFacts.

Lemma registered_app evs1 evs2 :
  registered (evs1 ++ evs2) = registered evs1 ++ registered evs2.
Proof.
  induction evs1 as [|e evs1 IH]; [reflexivity|].
  destruct e; simpl; rewrite IH; reflexivity.
Qed.

Lemma registered_rmdir l : registered (map ERmdir l) = [].
Proof. induction l as [|p l IH]; [reflexivity|exact IH]. Qed.

Lemma registered_In p evs : In p (registered evs) <-> In (EOnExit p) evs.
Proof.
  induction evs as [|e evs IH]; [reflexivity|].
  destruct e; simpl; rewrite IH; split;
    try (intros [Heq|Hin]; [discriminate Heq|exact Hin]);
    try (intros Hin; right; exact Hin).
  - intros [->|Hin]; [left; reflexivity|right; exact Hin].
  - intros [[= ->]|Hin]; [left; reflexivity|right; exact Hin].
Qed.

End FrameFacts.

Section Frame.
Context {H : Host} (out : Outside).
Variable late : bool.
Variable argv : Argv.
Import JsStr EffFacts StepFacts FrameFacts DirectiveFacts.

Lemma frame_refl s : npx_frame out late argv s false s.
Proof.
  exists []. rewrite !app_nil_r.
  split; [reflexivity|]. split; [constructor|]. split; [reflexivity|].
  split; [constructor|]. split; [reflexivity|]. split; [auto|].
  split; [left; reflexivity|]. split; [|discriminate].
  intros _. split; [reflexivity|]. exists "". reflexivity.
Qed.

Lemma frame_seq s1 s2 s3 b :
  npx_frame out late argv s1 false s2 -> npx_frame out late argv s2 b s3 ->
  npx_frame out late argv s1 b s3.
Proof.
  intros (ev1 & Ht1 & Hm1 & Ho1 & Hr1 & Hf1 & Ha1 & Hc1 & He1 & _)
         (ev2 & Ht2 & Hm2 & Ho2 & Hr2 & Hf2 & Ha2 & Hc2 & He2 & Hx2).
  exists (ev1 ++ ev2).
  split; [rewrite Ht2, Ht1, <- app_assoc; reflexivity|].
  split; [apply Forall_app; auto|].
  split; [rewrite Ho2, Ho1, registered_app, <- app_assoc; reflexivity|].
  split.
  { apply Forall_app. split; [|exact Hr2].
    eapply Forall_impl; [exact Hr1|]. intros [] Hin; try exact I.
    rewrite Ho2. apply in_or_app. left. exact Hin. }
  split.
  { intros Hall. apply Forall_app in Hall as [Hq1 Hq2].
    rewrite (Hf2 Hq2). apply Hf1, Hq1. }
  split.
  { intros Hno.
    destruct Ha1 as [Ha1 Hb1]; [intros Hin; apply Hno, in_or_app; auto|].
    destruct Ha2 as [Ha2 Hb2]; [intros Hin; apply Hno, in_or_app; auto|].
    split; congruence. }
  split.
  { destruct Hc2 as [Hc2|Hc2]; [|right; exact Hc2].
    rewrite Hc2. exact Hc1. }
  split; [|exact Hx2].
  intros Hcall. destruct (He1 Hcall) as [Hk1 [pre1 Hp1]].
  destruct (He2 Hcall) as [Hk2 [pre2 Hp2]]. split.
  - intros k Hk. rewrite (Hk2 k Hk). apply Hk1, Hk.
  - exists (pre2 +:+ pre1). rewrite Hp2, Hp1. symmetry. apply append_assoc.
Qed.

(** The exit listeners: one [rmdir] each, in order; nothing but the file
    system is touched, and what can be removed is. *)
Lemma listeners_frame l s :
  exists s1,
    run_listeners out l s = (Ok tt, s1)
    /\ trace s1 = trace s ++ map ERmdir l
    /\ on_exit s1 = on_exit s /\ env s1 = env s
    /\ argv0 s1 = argv0 s /\ argv_rest s1 = argv_rest s
    /\ exit_code s1 = exit_code s
    /\ (l = [] -> fs s1 = fs s)
    /\ (forall p, In p l -> removable out p -> fs s1 !! p = None).
Proof.
  destruct (run_listeners_effect out l s) as (s1 & Hrun & _ & Hgone).
  exists s1. split; [exact Hrun|].
  assert (Hframe : trace s1 = trace s ++ map ERmdir l
                   /\ on_exit s1 = on_exit s /\ env s1 = env s
                   /\ argv0 s1 = argv0 s /\ argv_rest s1 = argv_rest s
                   /\ exit_code s1 = exit_code s
                   /\ (l = [] -> fs s1 = fs s)).
  { clear Hgone. revert s s1 Hrun.
    induction l as [|p l IH]; intros s s1 Hrun.
    - injection Hrun as <-. rewrite app_nil_r. repeat split; reflexivity.
    - simpl in Hrun. unfold bind in Hrun.
      destruct (exit_listener out p s) as [r0 s0] eqn:Hl.
      assert (Hstep : r0 = Ok tt /\ trace s0 = trace s ++ [ERmdir p]
                      /\ on_exit s0 = on_exit s /\ env s0 = env s
                      /\ argv0 s0 = argv0 s /\ argv_rest s0 = argv_rest s
                      /\ exit_code s0 = exit_code s).
      { revert Hl. unfold exit_listener, catch, fs_rmdirSync. cbv zeta.
        destruct (refused out p (fs (log (ERmdir p) s)));
          [|destruct (fs (log (ERmdir p) s) !! p)];
          intros [= <- <-]; repeat split; reflexivity. }
      destruct Hstep as (-> & Ht0 & Ho0 & He0 & Ha0 & Hb0 & Hc0).
      destruct (IH s0 s1 Hrun) as (Ht & Ho & He & Ha & Hb & Hc & _).
      rewrite Ht, Ht0, Ho, Ho0, He, He0, Ha, Ha0, Hb, Hb0, Hc, Hc0.
      simpl. rewrite <- app_assoc.
      repeat split; try reflexivity. discriminate. }
  destruct Hframe as (Ht & Ho & He & Ha & Hb & Hc & Hf).
  repeat split; assumption.
Qed.

Lemma Forall_rmdir l (l' : list string) :
  (forall p, In p l -> In p l') ->
  Forall (fun e => match e with ERmdir p => In p l' | _ => True end)
    (map ERmdir l).
Proof.
  intros Hsub. apply Forall_forall. intros e Hin.
  apply list_elem_of_In, in_map_iff in Hin as (p & <- & Hp). auto.
Qed.

Lemma Forall_rmdir_may l : Forall (npx_may late argv) (map ERmdir l).
Proof.
  apply Forall_forall. intros e Hin.
  apply list_elem_of_In, in_map_iff in Hin as (p & <- & Hp). exact I.
Qed.

Lemma Forall_rmdir_fs l :
  Forall (fun e => changes_fs e = false) (map ERmdir l) -> l = [].
Proof. destruct l as [|p l]; [reflexivity|]. intros Hall. inversion Hall. discriminate. Qed.

Local Ltac frame_clauses :=
  split; [simpl; rewrite ?app_nil_r; reflexivity|];
  split; [first [apply List.Forall_nil
                |apply List.Forall_cons;
                 [first [assumption|exact I]|apply List.Forall_nil]]|];
  split; [simpl; rewrite ?app_nil_r; reflexivity|];
  split; [repeat constructor|];
  split; [intros Hall; first [reflexivity|inversion Hall; discriminate]|];
  split; [intros Hno;
          first [split; reflexivity
                |exfalso; apply Hno; left; reflexivity]|];
  split; [first [left; reflexivity
                |right; eexists; split; [eassumption|reflexivity]]|];
  split; [intros Hcall; split;
          [intros k Hk; reflexivity|exists ""; reflexivity]|].

(** Each step of [Prim] keeps the frame. *)
Lemma frame_prim A (m : M A) :
  Prim out late argv A m -> steps (npx_frame out late argv) m.
Proof.
  intros Hp. destruct Hp as
    [e Hplain Hmay| |Hyes|c Hmay|c a Hmay|c o Hmay|p Hmay|p Hmay|p Hmay
    |c a io Hmay| |A Hdue Hrefuse|c Hc|a rest Hlate|e Hcall|p];
    intros s r s' Hrun.
  - (* emit *)
    injection Hrun as <- <-.
    destruct e; try discriminate Hplain;
      (eexists [_]; frame_clauses; discriminate).
  - (* get_prefix *)
    injection Hrun as <- <-. exists []. frame_clauses.
    intros Hcut (Hret & _). destruct (get_prefix out); try discriminate.
    congruence.
  - (* prompt answer *)
    injection Hrun as <- <-. exists []. frame_clauses.
    intros Hcut (_ & Hret & _). destruct (prompt_answer out); try discriminate.
    congruence.
  - (* which *)
    rewrite which_result in Hrun. injection Hrun as <- <-.
    exists [EWhich c]. frame_clauses.
    destruct (which_fault out); [discriminate|].
    destruct (List.find _ _); discriminate.
  - (* exec *)
    injection Hrun as <- <-. exists [EExec c a]. frame_clauses.
    intros Hcut (_ & _ & Hret & _). specialize (Hret c a).
    destruct (child_exec out c a); try discriminate. congruence.
  - (* runCommand *)
    injection Hrun as <- <-. exists [ERunCommand c o]. frame_clauses.
    intros Hcut (_ & _ & _ & _ & Hret). specialize (Hret c o).
    destruct (child_runCommand out c o); try discriminate. congruence.
  - (* mkdir *)
    revert Hrun. unfold fs_mkdirSync. cbv zeta.
    destruct (fs (log (EMkdir p) s) !! p) as [[c|l]|];
      intros [= <- <-]; exists [EMkdir p]; frame_clauses; discriminate.
  - (* process.on('exit') *)
    injection Hrun as <- <-. exists [EOnExit p]. frame_clauses. discriminate.
  - (* rimraf *)
    revert Hrun. unfold rimraf. cbv zeta.
    destruct (refused out p (fs (log (ERimraf p) s)));
      intros [= <- <-]; exists [ERimraf p]; frame_clauses; discriminate.
  - (* spawn *)
    revert Hrun. unfold spawn. cbv zeta.
    destruct (child_spawn out c a io (fs (log (ESpawn c a io) s)))
      as [r0 f] eqn:Hsp.
    intros [= <- <-]. exists [ESpawn c a io]. frame_clauses.
    intros Hcut (_ & _ & _ & Hret & _).
    specialize (Hret c a io (fs (log (ESpawn c a io) s))).
    rewrite Hsp in Hret. simpl in Hret.
    destruct r0; try discriminate. congruence.
  - (* the exit event *)
    unfold emit_exit, bind, get in Hrun.
    destruct (listeners_frame (on_exit s) s)
      as (s1 & Hl & Ht & Ho & He & Ha & Hb & Hc & Hf & _).
    rewrite Hl in Hrun. injection Hrun as <- <-.
    exists (map ERmdir (on_exit s)).
    split; [exact Ht|]. split; [apply Forall_rmdir_may|].
    split; [rewrite registered_rmdir, app_nil_r; exact Ho|].
    split; [apply Forall_rmdir; rewrite Ho; auto|].
    split; [intros Hall; apply Hf, Forall_rmdir_fs, Hall|].
    split; [auto|]. split; [left; exact Hc|].
    split; [|discriminate].
    intros _. split; [intros k _; rewrite He; reflexivity|].
    exists "". unfold PATH_text. rewrite He. reflexivity.
  - (* process.exit *)
    unfold process_exit, emit_exit, bind, modify, get, lift in Hrun.
    destruct (listeners_frame (on_exit (set_exit_code 1 s)) (set_exit_code 1 s))
      as (s1 & Hl & Ht & Ho & He & Ha & Hb & Hc & Hf & Hgone).
    rewrite Hl in Hrun. injection Hrun as <- <-.
    exists (map ERmdir (on_exit s)).
    split; [exact Ht|]. split; [apply Forall_rmdir_may|].
    split; [rewrite registered_rmdir, app_nil_r; exact Ho|].
    split; [apply Forall_rmdir; rewrite Ho; auto|].
    split; [intros Hall; apply Hf, Forall_rmdir_fs, Hall|].
    split; [auto|].
    split; [right; exists 1%Z; split; [discriminate|exact Hc]|].
    split.
    { intros _. split; [intros k _; rewrite He; reflexivity|].
      exists "". unfold PATH_text. rewrite He. reflexivity. }
    intros _ _. split; [exact Hc|]. split; [exact Hdue|].
    split; [exact Hrefuse|].
    intros p Hin Hfree. apply Hgone; [|exact Hfree].
    rewrite Ho in Hin. exact Hin.
  - (* process.exitCode *)
    injection Hrun as <- <-. exists []. frame_clauses. discriminate.
  - (* taking over the process *)
    injection Hrun as <- <-. exists [ERunMain]. frame_clauses. discriminate.
  - (* Object.assign(process.env, newEnv) *)
    injection Hrun as <- <-. exists [].
    split; [simpl; rewrite app_nil_r; reflexivity|].
    split; [constructor|].
    split; [simpl; rewrite app_nil_r; reflexivity|].
    split; [constructor|]. split; [reflexivity|]. split; [auto|].
    split; [left; reflexivity|]. split; [congruence|discriminate].
  - (* the search path *)
    injection Hrun as <- <-. exists [].
    split; [simpl; rewrite app_nil_r; reflexivity|].
    split; [constructor|].
    split; [simpl; rewrite app_nil_r; reflexivity|].
    split; [constructor|]. split; [reflexivity|]. split; [auto|].
    split; [left; reflexivity|]. split; [|discriminate].
    intros _. split.
    + intros k Hk. simpl. apply lookup_insert_ne. congruence.
    + exists (p +:+ String path_delimiter "").
      unfold PATH_text at 1. simpl. rewrite lookup_insert_eq. simpl.
      symmetry. apply append_assoc.
Qed.

End Frame.

Section FrameOfARun.
Context {H : Host} (out : Outside).
Variable argv : Argv.

(** The frame holds across every run of [npx], and of the program. *)
Lemma npx_frame_holds fuel s r s' :
  npx out fuel argv s = (r, s') -> npx_frame out true argv s (exited r) s'.
Proof.
  apply (npx_steps out argv true (npx_frame out true argv)
           (frame_refl out true argv) (frame_seq out true argv)
           (frame_prim out true argv) fuel eq_refl).
Qed.

Lemma run_frame_holds fuel s r s' :
  run out fuel argv s = (r, s') -> npx_frame out true argv s (exited r) s'.
Proof.
  apply (run_steps out argv true (npx_frame out true argv)
           (frame_refl out true argv) (frame_seq out true argv)
           (frame_prim out true argv) fuel eq_refl).
Qed.

End FrameOfARun.

(* ===================================================================== *)
(** ** What a run does, and what it never does                           *)
(* ===================================================================== *)

Section RunProfile.
Context {H : Host} (out : Outside).
Import JsStr EffFacts StepFacts FrameFacts.

Lemma npx_events fuel argv s r s' e :
  npx out fuel argv s = (r, s') -> In e (events_since s s') ->
  npx_may true argv e.
Proof.
  intros Hrun Hin.
  destruct (npx_frame_holds out argv fuel s r s' Hrun) as (evs & Ht & Hall & _).
  rewrite (events_since_app _ _ _ Ht) in Hin.
  rewrite Forall_forall in Hall. apply Hall, list_elem_of_In, Hin.
Qed.

(** X8.  With [-q] a run of [npx] writes nothing to the standard error
    and does not show the help, however it ends. *)
Theorem quiet_run_keeps_stderr_clean fuel argv s r s' e :
  q argv = true ->
  npx out fuel argv s = (r, s') -> In e (events_since s s') ->
  is_stderr e = false.
Proof.
  intros Hq Hrun Hin. pose proof (npx_events fuel argv s r s' e Hrun Hin) as He.
  destruct e; try reflexivity; simpl in He; congruence.
Qed.

(** X9.  [npx] prompts, creates the prefix, registers the cleanup, clears
    the bin directory and starts the installer only when [--no] is not
    given and there is a reason to install: a package was asked for with
    [-p], or the request is neither a [-c] call nor marked local.  It
    prompts only without [--yes]. *)
Theorem provisioning_needs_a_reason fuel argv s r s' e :
  npx out fuel argv s = (r, s') -> In e (events_since s s') ->
  is_provisioning e = true ->
  no argv = false
  /\ (packageRequested argv = true
      \/ (truthy (call argv) = false /\ isLocal argv = false))
  /\ (forall msg, e = EPrompt msg -> yes argv = false).
Proof.
  intros Hrun Hin Hprov.
  pose proof (npx_events fuel argv s r s' e Hrun Hin) as He.
  destruct e; try discriminate Hprov; simpl in He.
  - destruct He as (Hno & Hdue & _). repeat split; try assumption. discriminate.
  - destruct He as (Hno & Hdue & _). repeat split; try assumption. discriminate.
  - destruct He as (Hno & Hdue & _). repeat split; try assumption. discriminate.
  - destruct He as (Hno & Hdue & _). repeat split; try assumption. discriminate.
  - destruct He as (Hyes & Hno & Hdue). repeat split; try assumption.
    intros msg0 _. exact Hyes.
Qed.

(** X10.  The search path is consulted only for the command of the
    arguments, and only when the command is not marked local, carries no
    version, no package was asked for and existing commands are not to be
    ignored. *)
Theorem path_lookup_only_for_plain_requests fuel argv s r s' c :
  npx out fuel argv s = (r, s') -> In (EWhich c) (events_since s s') ->
  command argv = Some c /\ isLocal argv = false
  /\ cmdHadVersion argv = false /\ packageRequested argv = false
  /\ ignoreExisting argv = false.
Proof.
  intros Hrun Hin.
  destruct (npx_events fuel argv s r s' _ Hrun Hin) as (Hc & Hl & Hflags).
  apply orb_false_iff in Hflags as [Hflags Hi].
  apply orb_false_iff in Hflags as [Hv Hp]. auto.
Qed.

(** X11.  [npx] runs the package manager for its output in two cases
    only: in a [-c] call, and then the arguments end with
    [run env --parseable]; and when the arguments name no cache, [--no]
    is not given and an installation is due, and then the arguments hold
    [config get cache --parseable]. *)
Theorem package_manager_asked_for_env_or_cache fuel argv s r s' cmd args :
  npx out fuel argv s = (r, s') -> In (EExec cmd args) (events_since s s') ->
  (truthy (call argv) = true
   /\ exists pre, args = pre ++ ["run"; "env"; "--parseable"])
  \/ (truthy (cache argv) = false /\ no argv = false
      /\ (packageRequested argv = true
          \/ (truthy (call argv) = false /\ isLocal argv = false))
      /\ exists pre rest,
           args = pre ++ ["config"; "get"; "cache"; "--parseable"] ++ rest).
Proof.
  intros Hrun Hin.
  destruct (npx_events fuel argv s r s' _ Hrun Hin)
    as [Hcall|(Hc & Hno & Hdue & Hargs)]; [left; exact Hcall|right; auto].
Qed.

(** X12.  The only path [npx] calls [fs.mkdirSync] for, and the only one
    for which it registers a cleanup, is [<cache>/_npx/<pid>] (the call
    is recursive: what is missing above that path is made with it, and
    no cleanup is registered for it); the only path it calls [rimraf]
    for is the bin directory below it; the installer is given the
    arguments of [buildArgs] for that prefix, after the path of the
    package manager if that is a script, and the standard streams of the
    arguments.  The cache is the one the arguments name, if they name
    one. *)
Theorem only_the_ephemeral_prefix_is_prepared fuel argv s r s' e :
  npx out fuel argv s = (r, s') -> In e (events_since s s') ->
  match e with
  | EMkdir p | EOnExit p =>
      exists cachedir,
        (truthy (cache argv) = true -> cache argv = Some cachedir)
        /\ p = prefix_of_cache cachedir
  | ERimraf p =>
      exists cachedir,
        (truthy (cache argv) = true -> cache argv = Some cachedir)
        /\ p = bins_of_prefix (prefix_of_cache cachedir)
  | ESpawn _ args io =>
      io = install_stdio argv
      /\ exists cachedir pre,
           (truthy (cache argv) = true -> cache argv = Some cachedir)
           /\ args = pre ++ buildArgs (package argv)
                               (prefix_of_cache cachedir) argv
  | _ => True
  end.
Proof.
  intros Hrun Hin. pose proof (npx_events fuel argv s r s' e Hrun Hin) as He.
  destruct e; try exact I; simpl in He.
  - destruct He as (_ & _ & He). exact He.
  - destruct He as (_ & _ & He). exact He.
  - destruct He as (_ & _ & He). exact He.
  - destruct He as (_ & _ & Hio & He). split; [exact Hio|exact He].
Qed.

(** X13.  A run of the program that has no reason to install, or is told
    [--no], takes none of the steps by which [npx] itself changes the
    file system (no exit listener being registered beforehand): it
    makes no directory, clears and removes none, and does not run the
    installer.  What the programs it starts do to the file system is
    their own affair: when the run starts none, neither the package
    manager nor the command, the file system is at the end as it was at
    the start. *)
Theorem run_without_provisioning_leaves_files fuel argv s r s' :
  run out fuel argv s = (r, s') -> on_exit s = [] ->
  no argv = true
  \/ (packageRequested argv = false
      /\ (truthy (call argv) = true \/ isLocal argv = true)) ->
  Forall (fun e => changes_fs e = false) (events_since s s')
  /\ (Forall (fun e => runs_a_program e = false) (events_since s s') ->
      fs s' = fs s).
Proof.
  intros Hrun Hnone Hidle.
  destruct (run_frame_holds out argv fuel s r s' Hrun)
    as (evs & Ht & Hmay & Hexit & Hrm & Hfs & _).
  assert (Hnot : no argv = false -> provisioning_due argv -> False).
  { intros Hno [Hp|[Hc Hl]]; destruct Hidle as [Hn|(Hq & [Hd|Hd])]; congruence. }
  rewrite (events_since_app _ _ _ Ht).
  assert (Hown : Forall (fun e => changes_fs e = false) evs);
    [|split; [exact Hown|intros _; exact (Hfs Hown)]].
  rewrite Hnone in Hexit. simpl in Hexit.
  rewrite Forall_forall in Hmay, Hrm. apply Forall_forall. intros e Hin.
  pose proof (Hmay e Hin) as He. pose proof (Hrm e Hin) as Hr.
  destruct e; try reflexivity; simpl in He; exfalso.
  - destruct He as (Hno & Hdue & _). exact (Hnot Hno Hdue).
  - destruct He as (Hno & Hdue & _). exact (Hnot Hno Hdue).
  - rewrite Hexit in Hr. apply registered_In in Hr.
    apply list_elem_of_In in Hr. destruct (Hmay _ Hr) as (Hno & Hdue & _).
    exact (Hnot Hno Hdue).
  - destruct He as (Hno & Hdue & _). exact (Hnot Hno Hdue).
Qed.

(** X14.  [npx] replaces [process.argv] only when it lets the command
    take over the process: in a run that does not reach
    [Module.runMain()] the arguments of the process are as before. *)
Theorem argv_replaced_only_on_takeover fuel argv s r s' :
  npx out fuel argv s = (r, s') -> ~ In ERunMain (events_since s s') ->
  argv0 s' = argv0 s /\ argv_rest s' = argv_rest s.
Proof.
  intros Hrun Hno.
  destruct (npx_frame_holds out argv fuel s r s' Hrun)
    as (evs & Ht & _ & _ & _ & _ & Ha & _).
  rewrite (events_since_app _ _ _ Ht) in Hno. exact (Ha Hno).
Qed.

Lemma npx_no_throw fuel argv s r s' :
  npx out fuel argv s = (r, s') -> forall e, r <> Throw e.
Proof.
  unfold npx. destruct (shell_auto_fallback argv) as [sh|].
  { unfold bind, get.
    destruct (auto_fallback sh (env s !! "SHELL") argv) as [fb|];
      [destruct (nonempty fb)|]; intros [= <- _]; discriminate. }
  destruct (negb (truthy (call argv)) && negb (truthy (command argv))).
  { destruct (q argv); intros [= <- _]; discriminate. }
  intros Hrun. apply catch_inv in Hrun as [(e & s1 & _ & Hh)|(_ & Hne)];
    [|exact Hne].
  revert Hh. destruct (q argv); intros [= <- _]; discriminate.
Qed.

(** X15.  [npx] never rejects: what fails inside the [try] block is
    caught, and what is outside of it (the fallback script, the messages)
    is taken not to throw.  It never sets the exit code to zero itself:
    after a run that did not hand the process over to the script (which
    then runs in the process and may set the exit code as it likes), the
    exit code is what it was, or it is not zero. *)
Theorem failures_become_exit_codes fuel argv s r s' :
  npx out fuel argv s = (r, s') ->
  (forall e, r <> Throw e)
  /\ (~ In ERunMain (events_since s s') ->
      exit_code s' = exit_code s
      \/ exists c, c <> 0%Z /\ exit_code s' = Some c).
Proof.
  intros Hrun. split; [exact (npx_no_throw fuel argv s r s' Hrun)|].
  intros _.
  destruct (npx_frame_holds out argv fuel s r s' Hrun)
    as (evs & _ & _ & _ & _ & _ & _ & Hc & _).
  exact Hc.
Qed.

(** X16.  Outside a [-c] call, and in a run that does not hand the
    process over to the script (which then runs in the process and may
    assign to the environment), the only variable of the environment
    that [npx] changes is [PATH], and it only puts directories in front:
    the search path of before is the end of the search path of after. *)
Theorem environment_only_gains_search_path_entries fuel argv s r s' :
  truthy (call argv) = false ->
  npx out fuel argv s = (r, s') ->
  ~ In ERunMain (events_since s s') ->
  (forall k, k <> "PATH" -> env s' !! k = env s !! k)
  /\ exists pre, PATH_text s' = pre +:+ PATH_text s.
Proof.
  intros Hcall Hrun _.
  destruct (npx_frame_holds out argv fuel s r s' Hrun)
    as (evs & _ & _ & _ & _ & _ & _ & _ & He & _).
  exact (He Hcall).
Qed.

(** X17.  [npx] ends the process itself only when an installation is due
    and refused, by [--no] or, without [--yes], at the prompt; the exit
    code is then 1.  (The collaborators are taken not to end the process
    themselves.) *)
Theorem process_ended_only_on_refusal fuel argv s s' :
  outside_returns out ->
  npx out fuel argv s = (Exited, s') ->
  exit_code s' = Some 1%Z
  /\ (packageRequested argv = true
      \/ (truthy (call argv) = false /\ isLocal argv = false))
  /\ (no argv = true \/ yes argv = false).
Proof.
  intros Hret Hrun.
  destruct (npx_frame_holds out argv fuel s _ s' Hrun)
    as (evs & _ & _ & _ & _ & _ & _ & _ & _ & Hcut).
  destruct (Hcut eq_refl Hret) as (Hc & Hdue & Hrefuse & _). auto.
Qed.

(** X18.  However a run of the program ends, every prefix for which a
    cleanup was registered during the run is gone from the file system
    afterwards, unless the system holds something below it back.  (The
    collaborators are taken not to end the process themselves.) *)
Theorem registered_prefixes_removed_at_exit fuel argv s r s' p :
  outside_returns out ->
  run out fuel argv s = (r, s') -> r <> Hung ->
  In (EOnExit p) (events_since s s') -> removable out p ->
  fs s' !! p = None.
Proof.
  intros Hret Hrun Hend Hin Hfree. unfold run in Hrun.
  destruct (npx out fuel argv s) as [r1 s1] eqn:Hnpx.
  destruct (npx_frame_holds out argv fuel s r1 s1 Hnpx)
    as (evs & Ht & _ & Ho & _ & _ & _ & _ & _ & Hcut).
  assert (Hlisten : forall s2,
            emit_exit out s1 = (r, s2) ->
            In (EOnExit p) (events_since s s2) -> fs s2 !! p = None).
  { intros s2 Hexit Hin2. unfold emit_exit, bind, get in Hexit.
    destruct (listeners_frame out (on_exit s1) s1)
      as (s3 & Hl & Ht3 & _ & _ & _ & _ & _ & _ & Hgone).
    rewrite Hl in Hexit. injection Hexit as _ <-.
    apply Hgone; [|exact Hfree].
    rewrite Ho. apply in_or_app. right. apply registered_In.
    erewrite events_since_app in Hin2
      by (rewrite Ht3, Ht, <- app_assoc; reflexivity).
    apply in_app_or in Hin2 as [Hin2|Hin2]; [exact Hin2|].
    apply in_map_iff in Hin2 as (p' & Heq & _). discriminate. }
  destruct r1 as [[]|e| |].
  - apply Hlisten; assumption.
  - apply Hlisten; assumption.
  - injection Hrun as <- <-.
    destruct (Hcut eq_refl Hret) as (_ & _ & _ & Hgone).
    apply Hgone; [|exact Hfree].
    rewrite Ho. apply in_or_app. right. apply registered_In.
    rewrite (events_since_app _ _ _ Ht) in Hin. exact Hin.
  - injection Hrun as <- _. congruence.
Qed.

Lemma prepare_starts_nothing fuel argv s r s1 :
  truthy (call argv) = true \/ truthy (command argv) = true ->
  prepare out fuel argv s = (r, s1) ->
  exists evs, trace s1 = trace s ++ evs
              /\ Forall (fun e => is_run e = false) evs.
Proof.
  intros Hguard Hrun.
  destruct (st_prepare out argv false (npx_frame out false argv)
              (frame_refl out false argv) (frame_seq out false argv)
              (frame_prim out false argv) fuel Hguard s r s1 Hrun)
    as (evs & Ht & Hmay & _).
  exists evs. split; [exact Ht|].
  eapply Forall_impl; [exact Hmay|].
  intros e He. destruct e; try reflexivity; simpl in He.
  - destruct He as [He _]. discriminate He.
  - discriminate He.
Qed.

Lemma execCommand_starts_once fuel ex argv s r s' :
  execCommand out fuel ex argv s = (r, s') ->
  exists pre post,
    trace s' = trace s ++ pre ++ post
    /\ Forall (fun e => is_run e = false) pre
    /\ (post = [] \/ exists e, post = [e] /\ is_run e = true).
Proof.
  intros Hrun.
  destruct (findNodeScript out fuel ex (isLocal argv) s) as [r0 s0] eqn:Hfind.
  pose proof (findNodeScript_pure out fuel ex (isLocal argv) s r0 s0 Hfind)
    as ->.
  destruct r0 as [existing|e| |].
  2-4: rewrite (execCommand_unresolved out fuel ex argv s _ Hfind eq_refl)
         in Hrun;
       injection Hrun as _ <-; exists [], []; rewrite app_nil_r;
       (split; [reflexivity|split; [constructor|left; reflexivity]]).
  rewrite (execCommand_resolved out fuel ex argv s existing Hfind) in Hrun.
  destruct (_ && _ && _ && _ && _).
  { injection Hrun as _ <-. destruct (noYargs argv).
    - exists [], [ERunMain].
      split; [reflexivity|]. split; [constructor|]. right. eauto.
    - exists [EYargsReset], [ERunMain].
      split; [simpl; rewrite <- app_assoc; reflexivity|].
      split; [repeat constructor|]. right. eauto. }
  destruct (_ && _).
  { injection Hrun as _ <-. exists [], []. rewrite app_nil_r.
    split; [reflexivity|]. split; [constructor|left; reflexivity]. }
  cbv zeta in Hrun.
  assert (Hshape : trace s' =
                   trace s ++ [ERunCommand (child_command existing argv s).1
                                 (with_cmdOpts argv
                                    (child_command existing argv s).2)]).
  { destruct (child_runCommand out _ _) as [[]|e| |];
      [| destruct (isOperational e); [destruct (exit_status e)|] | |];
      injection Hrun as _ <-; reflexivity. }
  exists [], [ERunCommand (child_command existing argv s).1
                (with_cmdOpts argv (child_command existing argv s).2)].
  split; [exact Hshape|]. split; [constructor|]. right. eauto.
Qed.

Lemma npx_body_starts_once fuel argv s r s' :
  truthy (call argv) = true \/ truthy (command argv) = true ->
  npx_body out fuel argv s = (r, s') ->
  exists pre post,
    trace s' = trace s ++ pre ++ post
    /\ Forall (fun e => is_run e = false) pre
    /\ (post = [] \/ exists e, post = [e] /\ is_run e = true).
Proof.
  intros Hguard Hrun. rewrite npx_body_prepare in Hrun.
  apply bind_inv in Hrun as [(ex & s1 & Hprep & Hexec)|(r0 & Hprep & _ & _)].
  - destruct (prepare_starts_nothing fuel argv s _ s1 Hguard Hprep)
      as (evs & Ht & Hno).
    destruct (execCommand_starts_once fuel ex argv s1 r s' Hexec)
      as (pre & post & Ht' & Hpre & Hpost).
    exists (evs ++ pre), post.
    split; [rewrite Ht', Ht, <- !app_assoc; reflexivity|].
    split; [apply Forall_app; auto|exact Hpost].
  - destruct (prepare_starts_nothing fuel argv s _ s' Hguard Hprep)
      as (evs & Ht & Hno).
    exists evs, []. rewrite app_nil_r. auto.
Qed.

(** X26.  [npx] starts the command at most once, and it does so last:
    the lookup, the prompt, the installation and everything else it does
    itself come before, and once the command has been started nothing
    follows but the report of its failure. *)
Theorem command_started_once_and_last fuel argv s r s' :
  npx out fuel argv s = (r, s') ->
  exists pre post,
    events_since s s' = pre ++ post
    /\ Forall (fun e => is_run e = false) pre
    /\ (post = []
        \/ exists e tail,
             post = e :: tail /\ is_run e = true
             /\ Forall (fun e' => is_stderr e' = true) tail).
Proof.
  unfold npx. destruct (shell_auto_fallback argv) as [sh|].
  { unfold bind, get.
    destruct (auto_fallback sh (env s !! "SHELL") argv) as [fb|];
      [destruct (nonempty fb)|]; intros [= _ <-];
      [exists [ELog fb], []|exists [], []|exists [], []];
      (split; [apply events_since_app; simpl; rewrite ?app_nil_r; reflexivity|]);
      (split; [repeat constructor|left; reflexivity]). }
  destruct (negb (truthy (call argv)) && negb (truthy (command argv)))
    eqn:Hguard.
  { destruct (q argv); intros [= _ <-];
      [exists [], []|exists [EError msg_no_command; EShowHelp], []];
      (split; [apply events_since_app; simpl;
               rewrite ?app_nil_r, <- ?app_assoc; reflexivity|]);
      (split; [repeat constructor|left; reflexivity]). }
  assert (Hg : truthy (call argv) = true \/ truthy (command argv) = true).
  { apply andb_false_iff in Hguard as [Hg|Hg];
      apply negb_false_iff in Hg; auto. }
  intros Hrun.
  apply catch_inv in Hrun as [(e & s1 & Hbody & Hh)|(Hbody & _)].
  - destruct (npx_body_starts_once fuel argv s _ s1 Hg Hbody)
      as (pre & post & Ht & Hpre & Hpost).
    assert (Hreport : exists report,
              trace s' = trace s1 ++ report
              /\ Forall (fun e' => is_stderr e' = true) report
              /\ Forall (fun e' => is_run e' = false) report).
    { revert Hh. destruct (q argv); intros [= _ <-].
      - exists []. rewrite app_nil_r. repeat split; constructor.
      - exists [EError (message e)]. repeat split; repeat constructor. }
    destruct Hreport as (report & Ht' & Herr & Hnorun).
    destruct Hpost as [-> |(e0 & -> & He0)].
    + exists (pre ++ report), [].
      split; [apply events_since_app;
              rewrite Ht', Ht, !app_nil_r, <- app_assoc; reflexivity|].
      split; [apply Forall_app; auto|left; reflexivity].
    + exists pre, (e0 :: report).
      split; [apply events_since_app;
              rewrite Ht', Ht, <- !app_assoc; reflexivity|].
      split; [exact Hpre|]. right. exists e0, report. auto.
  - destruct (npx_body_starts_once fuel argv s _ s' Hg Hbody)
      as (pre & post & Ht & Hpre & Hpost).
    exists pre, post. split; [apply events_since_app, Ht|].
    split; [exact Hpre|].
    destruct Hpost as [-> |(e0 & -> & He0)]; [left; reflexivity|].
    right. exists e0, []. repeat split; [exact He0|constructor].
Qed.

End RunProfile.

Lemma quiet_run_keeps_stderr_clean_witness :
  let out := Demo.outside [] ∅ ∅ (Throw (Demo.failure 2)) (Ok tt) in
  let argv := Sample.request "cowsay" None true false true false false None in
  let s := Demo.boot ∅ in
  let run := npx (H := Demo.posix) out 1 argv s in
  exit_code run.2 = Some 2%Z
  /\ Forall (fun e => is_stderr e = false) (events_since s run.2).
Proof.
  intros out argv s run. split; [vm_compute; reflexivity|].
  apply Forall_forall. intros e Hin. apply list_elem_of_In in Hin.
  exact (quiet_run_keeps_stderr_clean (H := Demo.posix) out 1 argv s
           run.1 run.2 e eq_refl (surjective_pairing run) Hin).
Defined.

Lemma provisioning_needs_a_reason_witness :
  let argv := Demo.argv_for "cowsay" (Some "/cache") in
  let s := Demo.boot ∅ in
  let run := npx (H := Demo.posix) Sample.installs_cowsay 3 argv s in
  In (EMkdir "/cache/_npx/7") (events_since s run.2)
  /\ no argv = false
  /\ (packageRequested argv = true
      \/ (JsStr.truthy (call argv) = false /\ isLocal argv = false)).
Proof.
  intros argv s run.
  assert (Hin : In (EMkdir "/cache/_npx/7") (events_since s run.2)).
  { vm_compute. right. left. reflexivity. }
  split; [exact Hin|].
  destruct (provisioning_needs_a_reason (H := Demo.posix)
              Sample.installs_cowsay 3 argv s run.1 run.2
              (EMkdir "/cache/_npx/7") (surjective_pairing run) Hin eq_refl)
    as (Hno & Hdue & _).
  split; [exact Hno|exact Hdue].
Defined.

Lemma path_lookup_only_for_plain_requests_witness :
  let argv := Demo.argv_for "cowsay" (Some "/cache") in
  let s := Demo.boot ∅ in
  let run := npx (H := Demo.posix) Sample.installs_cowsay 3 argv s in
  command argv = Some "cowsay" /\ isLocal argv = false
  /\ cmdHadVersion argv = false /\ packageRequested argv = false
  /\ ignoreExisting argv = false.
Proof.
  intros argv s run.
  apply (path_lookup_only_for_plain_requests (H := Demo.posix)
           Sample.installs_cowsay 3 argv s run.1 run.2 "cowsay"
           (surjective_pairing run)).
  vm_compute. left. reflexivity.
Defined.

Lemma package_manager_asked_for_env_or_cache_witness :
  let argv := Demo.argv_for "cowsay" None in
  let s := Demo.boot ∅ in
  let run := npx (H := Demo.posix) Sample.installs_cowsay 3 argv s in
  let args := ["config"; "get"; "cache"; "--parseable"] in
  (JsStr.truthy (call argv) = true
   /\ exists pre, args = pre ++ ["run"; "env"; "--parseable"])
  \/ (JsStr.truthy (cache argv) = false /\ no argv = false
      /\ (packageRequested argv = true
          \/ (JsStr.truthy (call argv) = false /\ isLocal argv = false))
      /\ exists pre rest,
           args = pre ++ ["config"; "get"; "cache"; "--parseable"] ++ rest).
Proof.
  intros argv s run args.
  apply (package_manager_asked_for_env_or_cache (H := Demo.posix)
           Sample.installs_cowsay 3 argv s run.1 run.2
           (Some "/usr/bin/pnpm") args (surjective_pairing run)).
  vm_compute. right. left. reflexivity.
Defined.

Lemma only_the_ephemeral_prefix_is_prepared_witness :
  let argv := Demo.argv_for "cowsay" (Some "/cache") in
  let s := Demo.boot ∅ in
  let run := npx (H := Demo.posix) Sample.installs_cowsay 3 argv s in
  exists cachedir,
    (JsStr.truthy (cache argv) = true -> cache argv = Some cachedir)
    /\ "/cache/_npx/7/bin"
       = bins_of_prefix (H := Demo.posix)
           (prefix_of_cache (H := Demo.posix) cachedir).
Proof.
  intros argv s run.
  apply (only_the_ephemeral_prefix_is_prepared (H := Demo.posix)
           Sample.installs_cowsay 3 argv s run.1 run.2
           (ERimraf "/cache/_npx/7/bin") (surjective_pairing run)).
  vm_compute. right. right. right. left. reflexivity.
Defined.

Lemma run_without_provisioning_leaves_files_witness :
  let argv := Sample.request "cowsay" None false true false false false None in
  let s := Demo.boot {[ "/cache/_npx/7" := Dir [] ]} in
  let done := run (H := Demo.posix) Sample.installs_cowsay 3 argv s in
  done.1 = Exited
  /\ Forall (fun e => changes_fs e = false) (events_since s done.2)
  /\ fs done.2 = fs s.
Proof.
  intros argv s done. split; [vm_compute; reflexivity|].
  destruct (run_without_provisioning_leaves_files (H := Demo.posix)
              Sample.installs_cowsay 3 argv s done.1 done.2
              (surjective_pairing done)) as [Hown Hfs].
  - reflexivity.
  - left. reflexivity.
  - split; [exact Hown|]. apply Hfs.
    vm_compute. repeat constructor.
Defined.

Lemma argv_replaced_only_on_takeover_witness :
  let out := Demo.outside [] ∅ ∅ (Throw (Demo.failure 2)) (Ok tt) in
  let argv := Demo.argv_for "cowsay" (Some "/cache") in
  let s := Demo.boot ∅ in
  let run := npx (H := Demo.posix) out 1 argv s in
  argv0 run.2 = argv0 s /\ argv_rest run.2 = argv_rest s.
Proof.
  intros out argv s run.
  apply (argv_replaced_only_on_takeover (H := Demo.posix) out 1 argv s
           run.1 run.2 (surjective_pairing run)).
  vm_compute. intros Hin.
  repeat (destruct Hin as [Hin|Hin]; [discriminate Hin|]). exact Hin.
Defined.

Lemma failures_become_exit_codes_witness :
  let out := Demo.outside [] ∅ ∅ (Throw (Demo.failure 2)) (Ok tt) in
  let argv := Demo.argv_for "cowsay" (Some "/cache") in
  let s := Demo.boot ∅ in
  let run := npx (H := Demo.posix) out 1 argv s in
  (forall e, run.1 <> Throw e)
  /\ (exit_code run.2 = exit_code s
      \/ exists c, c <> 0%Z /\ exit_code run.2 = Some c).
Proof.
  intros out argv s run.
  destruct (failures_become_exit_codes (H := Demo.posix) out 1 argv s
              run.1 run.2 (surjective_pairing run)) as [Hno Hcode].
  split; [exact Hno|]. apply Hcode.
  vm_compute. intros Hin.
  repeat (destruct Hin as [Hin|Hin]; [discriminate Hin|]). exact Hin.
Defined.

Lemma environment_only_gains_search_path_entries_witness :
  let out := {|
    sticky := []; manifests := ∅; get_prefix := Ok (Some "/proj");
    which_fault := None; child_exec := fun _ _ => Ok "/cache";
    child_spawn := fun _ _ _ f => (Ok (mkDeets ""), f);
    child_runCommand := fun _ _ => Ok tt; prompt_answer := Ok true |} in
  let argv := Demo.argv_for "cowsay" (Some "/cache") in
  let s := Demo.boot ∅ in
  let run := npx (H := Demo.posix) out 1 argv s in
  env run.2 !! "PATH"
  = Some "/cache/_npx/7/bin:/proj/node_modules/.bin:/usr/bin"
  /\ (forall k, k <> "PATH" -> env run.2 !! k = env s !! k)
  /\ exists pre, PATH_text run.2 = pre +:+ PATH_text s.
Proof.
  intros out argv s run. split; [vm_compute; reflexivity|].
  apply (environment_only_gains_search_path_entries (H := Demo.posix) out 1
           argv s run.1 run.2 eq_refl (surjective_pairing run)).
  vm_compute. intros Hin.
  repeat (destruct Hin as [Hin|Hin]; [discriminate Hin|]). exact Hin.
Defined.


Lemma process_ended_only_on_refusal_witness :
  let argv := Sample.request "cowsay" None false true false false false None in
  let s := Demo.boot ∅ in
  let run := npx (H := Demo.posix) Sample.installs_cowsay 3 argv s in
  exit_code run.2 = Some 1%Z
  /\ (packageRequested argv = true
      \/ (JsStr.truthy (call argv) = false /\ isLocal argv = false))
  /\ (no argv = true \/ yes argv = false).
Proof.
  intros argv s run.
  apply (process_ended_only_on_refusal (H := Demo.posix)
           Sample.installs_cowsay 3 argv s run.2).
  - repeat split; intros; discriminate.
  - vm_compute. reflexivity.
Defined.

Lemma registered_prefixes_removed_at_exit_witness :
  let argv := Demo.argv_for "cowsay" (Some "/cache") in
  let s := Demo.boot ∅ in
  let done := run (H := Demo.posix) Sample.installs_cowsay 3 argv s in
  argv_rest done.2 = ["/cache/_npx/7/bin/cowsay"]
  /\ fs done.2 !! "/cache/_npx/7" = None.
Proof.
  intros argv s done. split; [vm_compute; reflexivity|].
  apply (registered_prefixes_removed_at_exit (H := Demo.posix)
           Sample.installs_cowsay 3 argv s done.1 done.2 "/cache/_npx/7").
  - repeat split; intros; discriminate.
  - apply surjective_pairing.
  - vm_compute. discriminate.
  - vm_compute. right. right. left. reflexivity.
  - intros k [].
Defined.

Lemma command_started_once_and_last_witness :
  let argv := Demo.argv_for "cowsay" (Some "/cache") in
  let s := Demo.boot ∅ in
  let run := npx (H := Demo.posix) Sample.installs_cowsay 3 argv s in
  exists pre post,
    events_since s run.2 = pre ++ post
    /\ Forall (fun e => is_run e = false) pre
    /\ (post = []
        \/ exists e tail,
             post = e :: tail /\ is_run e = true
             /\ Forall (fun e' => is_stderr e' = true) tail).
Proof.
  intros argv s run.
  exact (command_started_once_and_last (H := Demo.posix)
           Sample.installs_cowsay 3 argv s run.1 run.2
           (surjective_pairing run)).
Defined.

(* ===================================================================== *)
(** ** Failures and edges                                                *)
(* ===================================================================== *)

Section Edges.
Context {H : Host} (out : Outside).
Import Text JsStr EffFacts StepFacts.

(** X19.  With [--no-install], a command that is in no directory of the
    search path ends the run with exit code 127: the lookup's error is
    reported (unless [-q]), nothing is installed and nothing is run. *)
Theorem missing_command_without_install_exits_127 fuel argv c s local s1 :
  shell_auto_fallback argv = None -> truthy (call argv) = false ->
  command argv = Some c -> nonempty c = true ->
  isLocal argv = false -> cmdHadVersion argv = false ->
  packageRequested argv = false -> ignoreExisting argv = false ->
  install argv = Some false ->
  use_local_bin out s = (Ok local, s1) ->
  which_fault out = None ->
  List.find (is_file (fs s1)) (candidates c s1) = None ->
  npx out fuel argv s
  = (Ok tt,
     set_exit_code 127
       (if q argv then log (EWhich c) s1
        else log (EError ("not found: " +:+ c)) (log (EWhich c) s1))).
Proof.
  intros Hfb Hcall Hc Hne Hl Hv Hp Hi Hinst Huse Hfault Hfind.
  assert (Hbody : npx_body out fuel argv s
                  = (Throw (with_exitCode (not_found c) 127),
                     log (EWhich c) s1)).
  { unfold npx_body. rewrite (bind_ok _ _ _ _ _ Huse).
    unfold bind at 1, all2. rewrite Hc, Hne.
    unfold getExistingPath. rewrite Hl, Hv, Hp, Hi. simpl.
    unfold catch, bind. rewrite which_result, Hfault, Hfind.
    unfold install_disabled. rewrite Hinst.
    change (is_ENOENT (not_found c)) with true. cbv iota.
    unfold throw. rewrite Hcall. reflexivity. }
  unfold npx. rewrite Hfb, Hcall, Hc. simpl. rewrite Hne. simpl.
  unfold catch. rewrite Hbody.
  destruct (q argv); reflexivity.
Qed.

Lemma filter_win32_none l :
  Forall (fun b => b = "etc" \/ b = "node_modules") l ->
  List.filter win32_keep l = [].
Proof.
  induction 1 as [|b l [-> | ->] _ IH]; [reflexivity|exact IH|exact IH].
Qed.

(** X20.  The selection of the executable fails with "command not found"
    for the command when the bin directory of the prefix does not exist
    and when it holds no executable (on Windows: nothing but [etc] and
    [node_modules]); any other failure to list it, as for a bin path that
    is a file, is passed on unchanged. *)
Theorem select_bin_failures command bin s :
  (fs s !! bin = None ->
     select_bin command bin s
     = (Throw (plain_error (msg_not_found command)), s))
  /\ (forall c, fs s !! bin = Some (File c) ->
      select_bin command bin s
      = (Throw (sys_error "ENOTDIR" "not a directory, scandir" bin), s))
  /\ (forall l, fs s !! bin = Some (Dir l) ->
      match platform with
      | Win32 => Forall (fun b => b = "etc" \/ b = "node_modules") l
      | Posix => l = []
      end ->
      select_bin command bin s
      = (Throw (plain_error (msg_not_found command)), s)).
Proof.
  split; [|split].
  - intros Hf. unfold select_bin, bind, catch, fs_readdir. rewrite Hf.
    reflexivity.
  - intros c Hf. unfold select_bin, bind, catch, fs_readdir. rewrite Hf.
    reflexivity.
  - intros l Hf Hempty. unfold select_bin, bind, catch, fs_readdir.
    rewrite Hf. destruct platform.
    + rewrite Hempty. reflexivity.
    + rewrite (filter_win32_none l Hempty). reflexivity.
Qed.

(** X21.  When the entry that matches the command is named like a
    property that every array has ([length], [map], [constructor], ...)
    and its name spells no position of the listing, the selection does
    not fall back to the first entry: it fails, with an error that
    carries no exit code. *)
Theorem entry_named_as_array_property_is_rejected
    command bin s listing test first rest m :
  fs s !! bin = Some (Dir listing) ->
  command_regexp command = Some test ->
  match platform with
  | Win32 => List.filter win32_keep listing
  | Posix => listing
  end = first :: rest ->
  List.find test (first :: rest) = Some m ->
  (forall i, i < length (first :: rest) -> pretty i <> m) ->
  m = "length" \/ proto_property m = true ->
  exists msg, select_bin command bin s = (Throw (plain_error msg), s).
Proof.
  intros Hf Ht Hl Hfind Hnot Hprop.
  rewrite (select_bin_listed command bin s listing test first rest Hf Ht Hl).
  rewrite Hfind.
  assert (Hother : array_prop (first :: rest) (Some m) = JOther).
  { unfold array_prop.
    rewrite (find_spelled_index m 0 (length (first :: rest)))
      by (intros i Hi; apply Hnot; lia).
    destruct Hprop as [-> |Hp]; [reflexivity|].
    destruct (String.eqb m "length"); [reflexivity|].
    rewrite Hp. reflexivity. }
  rewrite Hother. eexists. reflexivity.
Qed.

(** X22.  When the target is not a node script, interpreter flags are a
    usage error: [execCommand] rejects with it and starts nothing.
    Without flags (none, an empty string, an empty list) the child is
    started with the unresolved command and the arguments of the user. *)
Theorem node_arg_needs_a_node_script fuel ex argv s r0 :
  findNodeScript out fuel ex (isLocal argv) s = (Ok r0, s) ->
  truthy r0 = false ->
  (nodeArg_length_truthy (nodeArg argv) = true ->
     execCommand out fuel ex argv s = (Throw (plain_error msg_node_arg), s))
  /\ (nodeArg_length_truthy (nodeArg argv) = false ->
      exists r s',
        execCommand out fuel ex argv s = (r, s')
        /\ events_since s s'
           = [ERunCommand r0 (with_cmdOpts argv (default [] (cmdOpts argv)))]).
Proof.
  intros Hfind Hfalsy.
  rewrite (execCommand_resolved out fuel ex argv s r0 Hfind).
  rewrite Hfalsy. split; intros Hflags; rewrite Hflags; [reflexivity|].
  cbn [andb negb]. cbv zeta. unfold child_command. rewrite Hfalsy.
  cbn [fst snd].
  destruct (child_runCommand out r0 _) as [[]|e| |];
    [| destruct (isOperational e); [destruct (exit_status e)|] | |];
    eexists _, _; (split; [reflexivity|]);
    apply events_since_app; reflexivity.
Qed.





Lemma installPackages_value fuel specs prefix opts s info s' :
  installPackages out fuel specs prefix opts s = (Ok info, s') ->
  exists text,
    info = if nonempty text then JSON_parse_report text else PNothing.
Proof.
  unfold installPackages. intros Hrun.
  apply bind_inv in Hrun as [(npmPath & s1 & _ & Hrun)|(r0 & _ & Hok & Hr)];
    [|destruct r0; discriminate].
  apply bind_inv in Hrun as [(s0 & s2 & _ & Hrun)|(r0 & _ & Hok & Hr)];
    [|destruct r0; discriminate].
  destruct (if truthy npmPath then _ else _) as [cmd args].
  unfold then2 in Hrun.
  destruct (spawn out _ _ _ s2) as [[deets|e| |] s3]; try discriminate.
  injection Hrun as <- _. exists (stdout deets). reflexivity.
Qed.

(** X24.  A provisioning that fails leaves the environment as it was,
    with one exception.  The bin directory of the prefix is put on the
    search path once the installer has succeeded, and the assignment
    [info.prefix = prefix] that follows throws when the output of the
    installer parses to a truthy primitive: that run is rejected with the
    search path already changed. *)
Theorem environment_after_failed_provisioning fuel specs opts s r s' :
  ensurePackages out fuel specs opts s = (r, s') -> is_ok r = false ->
  env s' = env s
  \/ exists cachedir text what,
       nonempty text = true /\ JSON_parse_report text = PPrimitive what
       /\ r = Throw (plain_error (msg_no_property what))
       /\ env s'
          = <["PATH" := bins_of_prefix (prefix_of_cache cachedir)
                        +:+ String path_delimiter "" +:+ PATH_text s]> (env s).
Proof.
  intros Hrun Hfail. unfold ensurePackages in Hrun.
  apply bind_inv in Hrun as [(cachedir & s1 & Hcache & Hrun)|(r0 & Hcache & _ & _)].
  2: { left. apply (cache_stage_effect out fuel opts s r0 s' Hcache). }
  destruct (cache_stage_effect out fuel opts s _ s1 Hcache) as (He1 & _).
  apply bind_inv in Hrun as [([] & s2 & Hmk & Hrun)|(r0 & Hmk & _ & _)].
  2: { left. revert Hmk. unfold fs_mkdirSync. cbv zeta.
       destruct (fs _ !! _) as [[c|l]|]; intros [= _ <-]; exact He1. }
  assert (He2 : env s2 = env s).
  { revert Hmk. unfold fs_mkdirSync. cbv zeta.
    destruct (fs _ !! _) as [[c|l]|]; intros [= <-]; exact He1. }
  apply bind_inv in Hrun as [([] & s3 & Hon & Hrun)|(r0 & Hon & Hok & _)].
  2: { injection Hon as <- _. discriminate. }
  injection Hon as <-.
  apply bind_inv in Hrun as [([] & s4 & Hrim & Hrun)|(r0 & Hrim & _ & _)].
  2: { left. revert Hrim. unfold rimraf. cbv zeta.
       destruct (refused out _ _); intros [= _ <-]; exact He2. }
  assert (He4 : env s4 = env s).
  { revert Hrim. unfold rimraf. cbv zeta.
    destruct (refused out _ _); intros [= <-]; exact He2. }
  apply bind_inv in Hrun as [(info & s5 & Hinst & Hrun)|(r0 & Hinst & _ & _)].
  2: { left.
       destruct (installPackages_effect out fuel specs _ opts s4 r0 s' Hinst)
         as (He5 & _). congruence. }
  destruct (installPackages_effect out fuel specs _ opts s4 _ s5 Hinst)
    as (He5 & _).
  destruct (installPackages_value fuel specs _ opts s4 info s5 Hinst)
    as (text & Hinfo).
  unfold bind, prepend_PATH, modify in Hrun.
  destruct info as [|what|report]; unfold ret, throw in Hrun;
    injection Hrun as <- <-; try discriminate.
  right. exists cachedir, text, what.
  destruct (nonempty text); [|discriminate].
  split; [reflexivity|]. split; [symmetry; exact Hinfo|].
  split; [reflexivity|].
  simpl. unfold PATH_text. rewrite He5, He4. reflexivity.
Qed.


Lemma split_on_go_plain d l : forall cur,
  forallb (fun a => negb (Ascii.eqb a d)) l = true ->
  split_on_go d cur l = [string_of_list_ascii (rev cur ++ l)].
Proof.
  induction l as [|a l IH]; intros cur Hl; simpl.
  - rewrite app_nil_r. reflexivity.
  - simpl in Hl. apply andb_true_iff in Hl as [Ha Hl].
    apply negb_true_iff in Ha. rewrite Ha.
    rewrite (IH (a :: cur) Hl). simpl. rewrite <- app_assoc. reflexivity.
Qed.

(** X25.  When [PATH] is not set and the project has a prefix, the search
    path becomes the local bin directory followed by the word
    [undefined]: a command is then looked up in the local bin directory
    and in a directory of that name. *)
Theorem unset_search_path_reads_undefined s prefix c :
  get_prefix out = Ok (Some prefix) -> nonempty prefix = true ->
  env s !! "PATH" = None ->
  let local := path_join [prefix; "node_modules"; ".bin"] in
  nonempty local = true -> no_delimiter local = true ->
  no_delimiter "undefined" = true -> has_slash c = false ->
  exists s1,
    use_local_bin out s = (Ok (Some local), s1)
    /\ env s1 !! "PATH"
       = Some (local +:+ String path_delimiter "" +:+ "undefined")
    /\ candidates c s1 = [path_join [local; c]; path_join ["undefined"; c]].
Proof.
  intros Hprefix Hne Hunset local Hlocal Hd Hu Hslash.
  eexists. split.
  { unfold use_local_bin, localBinPath, bind, lift, ret.
    rewrite Hprefix, Hne. fold local. simpl. rewrite Hlocal. reflexivity. }
  simpl. unfold PATH_text. rewrite Hunset. simpl.
  split; [apply lookup_insert_eq|].
  unfold candidates. rewrite Hslash. simpl.
  rewrite lookup_insert_eq. simpl.
  rewrite (split_on_first local "undefined" Hd).
  unfold split_on. rewrite (split_on_go_plain _ _ [] Hu). simpl.
  reflexivity.
Qed.

End Edges.

Lemma missing_command_without_install_exits_127_witness :
  let argv :=
    Sample.request "cowsay" None false false true false false (Some false) in
  let s := Demo.boot ∅ in
  npx (H := Demo.posix) Demo.calm 1 argv s
  = (Ok tt,
     set_exit_code 127
       (log (EError "not found: cowsay") (log (EWhich "cowsay") s))).
Proof.
  intros argv s.
  apply (missing_command_without_install_exits_127 (H := Demo.posix)
           Demo.calm 1 argv "cowsay" s None s); reflexivity.
Defined.

Lemma select_bin_failures_witness :
  let s := Demo.boot (<[ "/cache/_npx/7/bin" := Dir [] ]>
                        {[ "/cache/_npx/7/lib" := File "x" ]}) in
  select_bin (H := Demo.posix) "cowsay" "/cache/_npx/7/none" s
  = (Throw (plain_error "command not found: cowsay"), s)
  /\ select_bin (H := Demo.posix) "cowsay" "/cache/_npx/7/lib" s
     = (Throw (sys_error "ENOTDIR" "not a directory, scandir"
                 "/cache/_npx/7/lib"), s)
  /\ select_bin (H := Demo.posix) "cowsay" "/cache/_npx/7/bin" s
     = (Throw (plain_error "command not found: cowsay"), s).
Proof.
  intros s.
  split; [|split].
  - apply (select_bin_failures (H := Demo.posix) "cowsay"
             "/cache/_npx/7/none" s). reflexivity.
  - apply (select_bin_failures (H := Demo.posix) "cowsay"
             "/cache/_npx/7/lib" s) with (c := "x"). reflexivity.
  - apply (select_bin_failures (H := Demo.posix) "cowsay"
             "/cache/_npx/7/bin" s) with (l := []); reflexivity.
Defined.

Lemma entry_named_as_array_property_is_rejected_witness :
  let s := Demo.boot {[ "/cache/_npx/7/bin" := Dir ["map"] ]} in
  exists msg,
    select_bin (H := Demo.posix) "map" "/cache/_npx/7/bin" s
    = (Throw (plain_error msg), s).
Proof.
  intros s.
  apply (entry_named_as_array_property_is_rejected (H := Demo.posix)
           "map" "/cache/_npx/7/bin" s ["map"] (Demo.plain_name_test "map")
           "map" [] "map"); try reflexivity.
  - intros i Hi. assert (i = 0) as -> by (simpl in Hi; lia).
    vm_compute. discriminate.
  - right. reflexivity.
Defined.

Lemma node_arg_needs_a_node_script_witness :
  let argv :=
    with_nodeArg (Demo.argv_for "ls" (Some "/cache"))
      (Some (NodeArgStr "--inspect")) in
  let s := Demo.boot {[ "/bin/ls" := File "ELF" ]} in
  execCommand (H := Demo.posix) Demo.calm 1 (Some "/bin/ls") argv s
  = (Throw (plain_error
              "ERROR: --node-arg/-n can only be used on packages with node scripts."),
     s).
Proof.
  intros argv s.
  destruct (node_arg_needs_a_node_script (H := Demo.posix) Demo.calm 1
              (Some "/bin/ls") argv s None) as [Husage _].
  - reflexivity.
  - reflexivity.
  - apply Husage. reflexivity.
Defined.


Lemma environment_after_failed_provisioning_witness :
  let H0 := Sample.host (PPrimitive "number '1'") [] in
  let argv := Demo.argv_for "cowsay" (Some "/cache") in
  let s := Demo.boot ∅ in
  let installed :=
    ensurePackages (H := H0) (Sample.in_project "" "1") 1 ["cowsay"] argv s in
  installed.1
  = Throw (plain_error "Cannot create property 'prefix' on number '1'")
  /\ env installed.2 !! "PATH" = Some "/cache/_npx/7/bin:/usr/bin"
  /\ (env installed.2 = env s
      \/ exists cachedir text what,
           JsStr.nonempty text = true
           /\ JSON_parse_report (Host := H0) text = PPrimitive what
           /\ installed.1 = Throw (plain_error (msg_no_property what))
           /\ env installed.2
              = <["PATH" := bins_of_prefix (H := H0)
                              (prefix_of_cache (H := H0) cachedir)
                            +:+ ":" +:+ PATH_text s]> (env s)).
Proof.
  intros H0 argv s installed.
  split; [vm_compute; reflexivity|]. split; [vm_compute; reflexivity|].
  apply (environment_after_failed_provisioning (H := H0)
           (Sample.in_project "" "1") 1 ["cowsay"] argv s
           installed.1 installed.2 (surjective_pairing installed)).
  vm_compute. reflexivity.
Defined.

Lemma unset_search_path_reads_undefined_witness :
  let out := {|
    sticky := []; manifests := ∅; get_prefix := Ok (Some "/proj");
    which_fault := None; child_exec := fun _ _ => Ok "/cache";
    child_spawn := fun _ _ _ f => (Ok (mkDeets ""), f);
    child_runCommand := fun _ _ => Ok tt; prompt_answer := Ok true |} in
  let s := mkState ∅ ∅ "/usr/bin/node" ["/usr/lib/npx.js"] None [] [] in
  exists s1,
    use_local_bin (H := Demo.posix) out s
    = (Ok (Some "/proj/node_modules/.bin"), s1)
    /\ env s1 !! "PATH" = Some "/proj/node_modules/.bin:undefined"
    /\ candidates (H := Demo.posix) "cowsay" s1
       = ["/proj/node_modules/.bin/cowsay"; "undefined/cowsay"].
Proof.
  intros out s.
  apply (unset_search_path_reads_undefined (H := Demo.posix) out s "/proj"
           "cowsay"); reflexivity.
Defined.

(* ===================================================================== *)
(** ** The order of a run                                                *)
(* ===================================================================== *)

Module StageFacts.
Import EffFacts.

Lemma ranks_app evs1 evs2 : ranks (evs1 ++ evs2) = ranks evs1 ++ ranks evs2.
Proof.
  induction evs1 as [|e evs1 IH]; [reflexivity|].
  simpl. destruct (rank e); simpl; rewrite IH; reflexivity.
Qed.

Lemma ranks_rmdir l : ranks (map ERmdir l) = [].
Proof. induction l as [|p l IH]; [reflexivity|exact IH]. Qed.

Lemma climbs_weaken lo hi lo' hi' l :
  lo' <= lo -> hi <= hi' -> climbs lo hi l -> climbs lo' hi' l.
Proof.
  revert lo lo'. induction l as [|n l IH]; intros lo lo' Hlo Hhi; simpl.
  - lia.
  - intros [Hn Hl]. split; [lia|]. apply (IH (S n)); auto.
Qed.

Lemma climbs_app lo mid hi l1 l2 :
  climbs lo mid l1 -> climbs mid hi l2 -> climbs lo hi (l1 ++ l2).
Proof.
  revert lo. induction l1 as [|n l1 IH]; intros lo; simpl.
  - intros Hlo Hl2. apply (climbs_weaken mid hi); auto.
  - intros [Hn Hl1] Hl2. split; [exact Hn|]. apply IH; assumption.
Qed.

Lemma stg_weaken {A} lo hi lo' hi' (m : M A) :
  lo' <= lo -> hi <= hi' -> in_stages lo hi m -> in_stages lo' hi' m.
Proof.
  intros Hlo Hhi Hm s r s' Hrun.
  destruct (Hm _ _ _ Hrun) as (evs & Ht & Hc).
  exists evs. split; [exact Ht|]. apply (climbs_weaken lo hi); assumption.
Qed.

Lemma stg_logs {A} lo hi (m : M A) evs :
  logs m evs -> climbs lo hi (ranks evs) -> in_stages lo hi m.
Proof. intros Hm Hc s r s' Hrun. exists evs. split; [eauto|exact Hc]. Qed.

Lemma stg_pure {A} lo (m : M A) : pure_read m -> in_stages lo lo m.
Proof.
  intros Hm. apply (stg_logs lo lo m []); [|simpl; lia].
  intros s r s' Hrun. rewrite (Hm _ _ _ Hrun), app_nil_r. reflexivity.
Qed.

Lemma stg_ret {A} lo (a : A) : in_stages lo lo (ret a).
Proof. apply stg_pure. intros s r s' [= _ <-]. reflexivity. Qed.

Lemma stg_throw {A} lo e : in_stages lo lo (@throw A e).
Proof. apply stg_pure. intros s r s' [= _ <-]. reflexivity. Qed.

Lemma stg_lift {A} lo (r0 : Res A) : in_stages lo lo (lift r0).
Proof. apply stg_pure. intros s r s' [= _ <-]. reflexivity. Qed.

Lemma stg_get lo : in_stages lo lo get.
Proof. apply stg_pure. intros s r s' [= _ <-]. reflexivity. Qed.

Lemma stg_modify lo f :
  (forall s, trace (f s) = trace s) -> in_stages lo lo (modify f).
Proof.
  intros Hf. apply (stg_logs lo lo _ []); [|simpl; lia].
  intros s r s' [= _ <-]. rewrite Hf, app_nil_r. reflexivity.
Qed.

(** An event without a place. *)
Lemma stg_emit_free lo e : rank e = None -> in_stages lo lo (emit e).
Proof.
  intros He. apply (stg_logs lo lo _ [e]).
  - intros s r s' [= _ <-]. reflexivity.
  - simpl. rewrite He. simpl. lia.
Qed.

(** An event in its place. *)
Lemma stg_at {A} n (m : M A) e :
  rank e = Some n -> logs m [e] -> in_stages n (S n) m.
Proof.
  intros He Hm. apply (stg_logs n (S n) m [e] Hm).
  simpl. rewrite He. simpl. lia.
Qed.

Lemma stg_bind {A B} lo mid hi (m : M A) (k : A -> M B) :
  mid <= hi ->
  in_stages lo mid m -> (forall a, in_stages mid hi (k a)) ->
  in_stages lo hi (bind m k).
Proof.
  intros Hhi Hm Hk s r s' Hrun.
  apply bind_inv in Hrun as [(a & s1 & Hm1 & Hk1)|(r0 & Hm1 & _ & _)].
  - destruct (Hm _ _ _ Hm1) as (ev1 & Ht1 & Hc1).
    destruct (Hk a _ _ _ Hk1) as (ev2 & Ht2 & Hc2).
    exists (ev1 ++ ev2). rewrite Ht2, Ht1, <- app_assoc.
    split; [reflexivity|]. rewrite ranks_app.
    apply (climbs_app lo mid hi); assumption.
  - destruct (Hm _ _ _ Hm1) as (ev1 & Ht1 & Hc1).
    exists ev1. split; [exact Ht1|].
    apply (climbs_weaken lo mid); auto.
Qed.

Lemma stg_catch {A} lo mid hi (m : M A) h :
  mid <= hi ->
  in_stages lo mid m -> (forall e, in_stages mid hi (h e)) ->
  in_stages lo hi (catch m h).
Proof.
  intros Hhi Hm Hh s r s' Hrun.
  apply catch_inv in Hrun as [(e & s1 & Hm1 & Hh1)|(Hm1 & _)].
  - destruct (Hm _ _ _ Hm1) as (ev1 & Ht1 & Hc1).
    destruct (Hh e _ _ _ Hh1) as (ev2 & Ht2 & Hc2).
    exists (ev1 ++ ev2). rewrite Ht2, Ht1, <- app_assoc.
    split; [reflexivity|]. rewrite ranks_app.
    apply (climbs_app lo mid hi); assumption.
  - destruct (Hm _ _ _ Hm1) as (ev1 & Ht1 & Hc1).
    exists ev1. split; [exact Ht1|].
    apply (climbs_weaken lo mid); auto.
Qed.

Lemma stg_then2 {A B} lo mid hi (m : M A) (onOk : A -> M B) onErr :
  mid <= hi ->
  in_stages lo mid m -> (forall a, in_stages mid hi (onOk a)) ->
  (forall e, in_stages mid hi (onErr e)) ->
  in_stages lo hi (then2 m onOk onErr).
Proof.
  intros Hhi Hm Hok Herr s r s'. unfold then2.
  destruct (m s) as [r1 s1] eqn:E1.
  destruct (Hm _ _ _ E1) as (ev1 & Ht1 & Hc1).
  assert (Hnext : forall s2 ev2,
            trace s2 = trace s1 ++ ev2 -> climbs mid hi (ranks ev2) ->
            exists evs, trace s2 = trace s ++ evs /\ climbs lo hi (ranks evs)).
  { intros s2 ev2 Ht2 Hc2. exists (ev1 ++ ev2).
    rewrite Ht2, Ht1, <- app_assoc. split; [reflexivity|].
    rewrite ranks_app. apply (climbs_app lo mid hi); assumption. }
  assert (Hstop : exists evs, trace s1 = trace s ++ evs
                              /\ climbs lo hi (ranks evs)).
  { exists ev1. split; [exact Ht1|]. apply (climbs_weaken lo mid); auto. }
  destruct r1 as [a|e| |].
  - intros Hrun. destruct (Hok a _ _ _ Hrun) as (ev2 & Ht2 & Hc2). eauto.
  - intros Hrun. destruct (Herr e _ _ _ Hrun) as (ev2 & Ht2 & Hc2). eauto.
  - intros [= _ <-]. exact Hstop.
  - intros [= _ <-]. exact Hstop.
Qed.

Lemma stg_all2 {A B} lo mid hi (m1 : M A) (m2 : M B) :
  mid <= hi ->
  in_stages lo mid m1 -> in_stages mid hi m2 ->
  in_stages lo hi (all2 m1 m2).
Proof.
  intros Hhi H1 H2 s r s'. unfold all2.
  destruct (m1 s) as [r1 s1] eqn:E1.
  destruct (H1 _ _ _ E1) as (ev1 & Ht1 & Hc1).
  assert (Hboth : forall r2 s2, m2 s1 = (r2, s2) ->
            exists evs, trace s2 = trace s ++ evs /\ climbs lo hi (ranks evs)).
  { intros r2 s2 E2. destruct (H2 _ _ _ E2) as (ev2 & Ht2 & Hc2).
    exists (ev1 ++ ev2). rewrite Ht2, Ht1, <- app_assoc.
    split; [reflexivity|]. rewrite ranks_app.
    apply (climbs_app lo mid hi); assumption. }
  destruct r1 as [a|e| |].
  3: { intros [= _ <-]. exists ev1. split; [exact Ht1|].
       apply (climbs_weaken lo mid); auto. }
  all: destruct (m2 s1) as [r2 s2] eqn:E2;
    destruct r2 as [b|e2| |]; intros [= _ <-]; eapply Hboth; reflexivity.
Qed.

Lemma stg_when lo b m : in_stages lo lo m -> in_stages lo lo (when b m).
Proof. destruct b; simpl; auto using stg_ret. Qed.

End StageFacts.

Section Stages.
Context {H : Host} (out : Outside).
Import JsStr EffFacts StageFacts.

Lemma logs_which c : logs (which out c) [EWhich c].
Proof. intros s r s'. rewrite which_result. intros [= _ <-]. reflexivity. Qed.

Lemma logs_exec c a : logs (exec out c a) [EExec c a].
Proof. intros s r s' [= _ <-]. reflexivity. Qed.

Lemma logs_runCommand c o : logs (runCommand out c o) [ERunCommand c o].
Proof. intros s r s' [= _ <-]. reflexivity. Qed.

Lemma logs_mkdir p : logs (fs_mkdirSync p) [EMkdir p].
Proof.
  intros s r s'. unfold fs_mkdirSync. cbv zeta.
  destruct (fs (log (EMkdir p) s) !! p) as [[c|l]|];
    intros [= _ <-]; reflexivity.
Qed.

Lemma logs_on_exit p : logs (process_on_exit p) [EOnExit p].
Proof. intros s r s' [= _ <-]. reflexivity. Qed.

Lemma logs_rimraf p : logs (rimraf out p) [ERimraf p].
Proof.
  intros s r s'. unfold rimraf. cbv zeta.
  destruct (refused out p (fs (log (ERimraf p) s)));
    intros [= _ <-]; reflexivity.
Qed.

Lemma logs_spawn c a io : logs (spawn out c a io) [ESpawn c a io].
Proof.
  intros s r s'. unfold spawn. cbv zeta.
  destruct (child_spawn out c a io (fs (log (ESpawn c a io) s))) as [r0 f].
  intros [= _ <-]. reflexivity.
Qed.

Lemma stg_findNodeScript lo fuel e l :
  in_stages lo lo (findNodeScript out fuel e l).
Proof. apply stg_pure, findNodeScript_pure. Qed.

Lemma stg_emit_exit lo : in_stages lo lo (emit_exit out).
Proof.
  intros s r s' Hrun. unfold emit_exit, bind, get in Hrun.
  destruct (listeners_frame out (on_exit s) s) as (s1 & Hl & Ht & _).
  rewrite Hl in Hrun. injection Hrun as _ <-.
  exists (map ERmdir (on_exit s)). split; [exact Ht|].
  rewrite ranks_rmdir. simpl. lia.
Qed.

Lemma stg_process_exit {A} lo c : in_stages lo lo (@process_exit H out A c).
Proof.
  unfold process_exit.
  apply (stg_bind lo lo lo); [lia|apply stg_modify; reflexivity|intros _].
  apply (stg_bind lo lo lo); [lia|apply stg_emit_exit|intros _].
  apply stg_lift.
Qed.

Lemma stg_use_local_bin : in_stages 0 0 (use_local_bin out).
Proof.
  unfold use_local_bin, localBinPath.
  apply (stg_bind 0 0 0); [lia| |intros local].
  - apply (stg_bind 0 0 0); [lia|apply stg_lift|intros p; apply stg_ret].
  - apply (stg_bind 0 0 0); [lia| |intros _; apply stg_ret].
    apply stg_when, stg_modify. reflexivity.
Qed.

Lemma stg_getExistingPath c opts :
  in_stages 0 1 (getExistingPath out c opts).
Proof.
  unfold getExistingPath.
  destruct (isLocal opts);
    [apply (stg_weaken 0 0); [lia|lia|apply stg_ret]|].
  destruct (_ || _ || _);
    [apply (stg_weaken 0 0); [lia|lia|apply stg_ret]|].
  apply (stg_catch 0 1 1); [lia| |].
  - apply (stg_bind 0 1 1); [lia| |intros p; apply stg_ret].
    eapply (stg_at 0); [|apply logs_which]; reflexivity.
  - intros e. destruct (is_ENOENT e); [|apply stg_throw].
    destruct (install_disabled opts); [apply stg_throw|apply stg_ret].
Qed.

Lemma stg_exec lo c a : in_stages lo lo (exec out c a).
Proof.
  apply (stg_logs lo lo _ [EExec c a]); [apply logs_exec|simpl; lia].
Qed.

Lemma stg_getEnv lo fuel opts : in_stages lo lo (getEnv out fuel opts).
Proof.
  unfold getEnv.
  apply (stg_bind lo lo lo); [lia|apply stg_findNodeScript|intros npmPath].
  apply (stg_bind lo lo lo); [lia|apply stg_get|intros s].
  apply (stg_bind lo lo lo); [lia| |intros c; apply stg_ret].
  destruct (truthy npmPath); apply stg_exec.
Qed.

Lemma stg_getNpmCache lo fuel opts :
  in_stages lo lo (getNpmCache out fuel opts).
Proof.
  unfold getNpmCache.
  apply (stg_bind lo lo lo); [lia|apply stg_findNodeScript|intros npmPath].
  apply (stg_bind lo lo lo); [lia|apply stg_get|intros s].
  apply (stg_bind lo lo lo); [lia| |intros c; apply stg_ret].
  destruct (truthy npmPath); apply stg_exec.
Qed.

Lemma stg_installPackages fuel specs prefix opts :
  in_stages 5 6 (installPackages out fuel specs prefix opts).
Proof.
  unfold installPackages.
  apply (stg_bind 5 5 6); [lia|apply stg_findNodeScript|intros npmPath].
  apply (stg_bind 5 5 6); [lia|apply stg_get|intros s0].
  destruct (if truthy npmPath then _ else _) as [cmd args].
  apply (stg_then2 5 6 6); [lia| | |].
  - eapply (stg_at 5); [|apply logs_spawn]; reflexivity.
  - intros deets. apply stg_ret.
  - intros e. apply stg_throw.
Qed.

Lemma stg_ensurePackages fuel specs opts :
  in_stages 2 6 (ensurePackages out fuel specs opts).
Proof.
  unfold ensurePackages.
  apply (stg_bind 2 2 6); [lia| |intros cachedir].
  { destruct (cache opts) as [d|]; [destruct (nonempty d)|];
      first [apply stg_ret|apply stg_getNpmCache]. }
  apply (stg_bind 2 3 6); [lia| |intros _].
  { eapply (stg_at 2); [|apply logs_mkdir]; reflexivity. }
  apply (stg_bind 3 4 6); [lia| |intros _].
  { eapply (stg_at 3); [|apply logs_on_exit]; reflexivity. }
  apply (stg_bind 4 5 6); [lia| |intros _].
  { eapply (stg_at 4); [|apply logs_rimraf]; reflexivity. }
  apply (stg_bind 5 6 6); [lia|apply stg_installPackages|intros info].
  apply (stg_bind 6 6 6); [lia|apply stg_modify; reflexivity|intros _].
  destruct info; first [apply stg_ret|apply stg_throw].
Qed.

Lemma stg_select_bin cmd bin : in_stages 6 6 (select_bin cmd bin).
Proof.
  unfold select_bin. apply (stg_bind 6 6 6); [lia| |].
  - apply (stg_catch 6 6 6); [lia| |].
    + apply stg_pure. intros s r s'. unfold fs_readdir.
      destruct (fs s !! bin) as [[c|l]|]; intros [= _ <-]; reflexivity.
    + intros e. destruct (is_ENOENT e); apply stg_throw.
  - intros listing. destruct (Nat.ltb _ 1); [apply stg_throw|].
    destruct (command_regexp cmd); [|apply stg_throw].
    destruct (js_or _ _); first [apply stg_ret|apply stg_throw].
Qed.

Lemma stg_provision fuel existing argv :
  in_stages 1 6 (provision out fuel existing argv).
Proof.
  unfold provision.
  apply (stg_bind 1 1 6); [lia| |intros _].
  { destruct (no argv); [|apply stg_ret].
    apply (stg_bind 1 1 1); [lia|apply stg_emit_free; reflexivity|intros _].
    apply stg_process_exit. }
  apply (stg_bind 1 2 6); [lia| |intros _].
  { destruct (negb (yes argv));
      [|apply (stg_weaken 1 1); [lia|lia|apply stg_ret]].
    apply (stg_bind 1 2 2); [lia| |intros _].
    { eapply (stg_at 1); [|intros s r s' [= _ <-]; reflexivity].
      reflexivity. }
    apply (stg_bind 2 2 2); [lia|apply stg_lift|intros allow].
    destruct (negb allow); [|apply stg_ret].
    apply (stg_bind 2 2 2); [lia|apply stg_emit_free; reflexivity|intros _].
    apply stg_process_exit. }
  apply (stg_bind 2 6 6); [lia|apply stg_ensurePackages|intros results].
  apply (stg_bind 6 6 6); [lia| |intros _].
  { destruct (info_added results), (info_updated results); try apply stg_ret.
    apply stg_when, stg_emit_free. reflexivity. }
  destruct (_ && _ && _ && _); [|apply stg_ret].
  apply (stg_bind 6 6 6); [lia|apply stg_select_bin|intros b; apply stg_ret].
Qed.

Lemma stg_prepare fuel argv : in_stages 0 6 (prepare out fuel argv).
Proof.
  unfold prepare.
  apply (stg_bind 0 0 6); [lia|apply stg_use_local_bin|intros local].
  apply (stg_bind 0 1 6); [lia| |intros args].
  { apply (stg_all2 0 1 1); [lia| |].
    - destruct (command argv) as [cmd|];
        [|apply (stg_weaken 0 0); [lia|lia|apply stg_ret]].
      destruct (nonempty cmd);
        [apply stg_getExistingPath
        |apply (stg_weaken 0 0); [lia|lia|apply stg_ret]].
    - destruct (_ && _); [|apply stg_ret].
      apply (stg_bind 1 1 1); [lia|apply stg_getEnv|intros e; apply stg_ret]. }
  apply (stg_bind 1 1 6); [lia| |intros _].
  { destruct (args.2); [apply stg_modify; reflexivity|apply stg_ret]. }
  destruct (_ || _); [apply stg_provision|].
  apply (stg_weaken 1 1); [lia|lia|apply stg_ret].
Qed.

Lemma stg_execCommand fuel ex argv :
  in_stages 6 8 (execCommand out fuel ex argv).
Proof.
  unfold execCommand.
  apply (stg_bind 6 6 8); [lia|apply stg_findNodeScript|intros existing].
  apply (stg_bind 6 6 8); [lia|apply stg_get|intros s].
  destruct (_ && _ && _ && _ && _).
  - apply (stg_bind 6 7 8); [lia| |intros _].
    { destruct (negb (noYargs argv)); simpl;
        [|apply (stg_weaken 6 6); [lia|lia|apply stg_ret]].
      apply (stg_at 6 _ EYargsReset); [reflexivity|].
      intros s0 r s' [= _ <-]. reflexivity. }
    apply (stg_at 7 _ ERunMain); [reflexivity|].
    intros s0 r s' [= _ <-]. reflexivity.
  - destruct (_ && _); [apply (stg_weaken 6 6); [lia|lia|apply stg_throw]|].
    destruct (child_command existing argv s) as [cmd cmdOpts].
    apply (stg_weaken 7 8); [lia|lia|].
    apply (stg_catch 7 8 8); [lia| |].
    + eapply (stg_at 7); [|apply logs_runCommand]; reflexivity.
    + intros e. destruct (isOperational e), (exit_status e);
        first [apply stg_modify; reflexivity|apply stg_throw].
Qed.

(** X27.  The steps of a run follow one order, and each is taken at most
    once: the lookup of the command on the search path; the prompt; the
    creation of the prefix; the registration of its cleanup; the clearing
    of its bin directory; the installer; the reset of the argument
    parser; the start of the command. *)
Theorem run_follows_the_order fuel argv s r s' :
  npx out fuel argv s = (r, s') ->
  climbs 0 8 (ranks (events_since s s')).
Proof.
  intros Hrun.
  assert (Hnpx : in_stages 0 8 (npx out fuel argv)).
  { unfold npx. destruct (shell_auto_fallback argv) as [sh|].
    { apply (stg_weaken 0 0); [lia|lia|].
      apply (stg_bind 0 0 0); [lia|apply stg_get|intros s0].
      destruct (auto_fallback sh (env s0 !! "SHELL") argv) as [fb|];
        [destruct (nonempty fb)|];
        first [apply stg_emit_free; reflexivity
              |apply stg_modify; reflexivity]. }
    destruct (_ && _).
    { apply (stg_weaken 0 0); [lia|lia|].
      apply (stg_bind 0 0 0); [lia| |intros _].
      { apply stg_when, stg_emit_free. reflexivity. }
      apply (stg_bind 0 0 0); [lia| |intros _].
      { apply stg_when, stg_emit_free. reflexivity. }
      apply stg_modify. reflexivity. }
    apply (stg_catch 0 8 8); [lia| |intros e].
    - intros s0 r0 s0'. rewrite npx_body_prepare. revert s0 r0 s0'.
      apply (stg_bind 0 6 8); [lia|apply stg_prepare|intros ex].
      apply stg_execCommand.
    - apply (stg_bind 8 8 8); [lia| |intros _; apply stg_modify; reflexivity].
      apply stg_when, stg_emit_free. reflexivity. }
  destruct (Hnpx s r s' Hrun) as (evs & Ht & Hc).
  rewrite (events_since_app _ _ _ Ht). exact Hc.
Qed.

End Stages.

Lemma run_follows_the_order_witness :
  let argv := Demo.argv_for "cowsay" (Some "/cache") in
  let s := Demo.boot ∅ in
  let run := npx (H := Demo.posix) Sample.installs_cowsay 3 argv s in
  ranks (events_since s run.2) = [0; 2; 3; 4; 5; 6; 7]
  /\ climbs 0 8 (ranks (events_since s run.2)).
Proof.
  intros argv s run. split; [vm_compute; reflexivity|].
  exact (run_follows_the_order (H := Demo.posix)
           Sample.installs_cowsay 3 argv s run.1 run.2
           (surjective_pairing run)).
Defined.

(* ===================================================================== *)
(** ** The search path of a run that provisions                          *)
(* ===================================================================== *)

Section SearchPathOfARun.
Context {H : Host} (out : Outside).
Import JsStr EffFacts SpawnFacts StrFacts StepFacts.























End SearchPathOfARun.


